(** * Amelia Support Insights: the batch analysis driver

    A shallow embedding of the AI quality-audit loop of the dashboard and
    the properties the design document states about it.

    The loop is [startAnalysis] of the analysis modal.  The repository holds
    three copies of that modal; the one embedded here is the copy the
    dashboard mounts, which takes an [onAnalysisUpdate] property and hands
    every result to it.  With it come the parts of [AiService] the loop
    calls: [validateApiKey] and [analyzeTicket].  The two other copies keep
    the results in a list of their own, validate the key whether or not an
    override is configured, and process the first 50 tickets only; the copy
    under [components/] moreover stops the batch only on a message that
    contains '401' or 'API key'.  Of these copies the failure results, the
    window of 50 tickets and the failure test of the copy under
    [components/] are embedded, in [ReportModal] and [ComponentsModal]; the
    properties of the loop below are properties of the copy the dashboard
    mounts.

    Conventions of the embedding.
    - JavaScript strings are [string]s whose code units fit in one byte
      (Latin-1); [toLowerCase] and [trim] are the restrictions of the
      JavaScript functions to that range.
    - JavaScript numbers that hold counters and identifiers are [nat] or
      [Z]; the throttle arithmetic, which divides, is done in [Q].
    - [undefined] is [None].
    - A thrown value is typed [any].  An [Err] is the record of what the
      catch clause reads of a value that is not [null] or [undefined] and
      whose [message] is a string or absent (an [Error], for one): its
      [message] and its [status].  A [Thrown] value is any value: besides
      these, [null], [undefined], and a value whose [message] is neither a
      string nor absent, on which the catch clause of the loop itself
      throws.  An environment [Env] rejects with values of the first kind
      only; an [AnyEnv] rejects with whatever it likes, and every [Env] is
      read as an [AnyEnv].
    - The answer of the model is requested with a response schema; the
      five properties the schema requires are taken to be there with
      their types.  Nothing checks the answer, so it may also hold the two
      other properties the program reads of a result, [error] and
      [ticketId], and these then end up in the result.
    - The external collaborators (ticket history endpoint, generative
      model endpoint, the wall clock, the user pressing Stop) are an
      environment that is consulted once per call; every call leaves an
      event in a trace, so that "no call is made" is a statement about
      that trace.  Stop can only act at the suspension points of the loop:
      while one of the two calls of an item is pending, or while the
      throttle timer runs.

    Around the loop the file embeds what feeds it and what becomes of its
    results: the record in which the dashboard keeps the results, its
    statistics, the order of its ticket list and its filters; the CSV
    export; of [ApiService] the search query, the request addresses and the
    search for the token in the login response; of [AiService] the history
    log of the prompt; and the throughput box of the modal. *)

From Stdlib Require Import String Ascii List ZArith NArith QArith Qminmax Qround Bool Lia Lqa.
From Stdlib Require Import DecimalString Permutation Sorted.
Import ListNotations.

Local Close Scope Q_scope.
Local Open Scope string_scope.
Local Open Scope list_scope.

(** ** JavaScript primitives *)

Module JS.

(** [String.prototype.toLowerCase], one code unit at a time: the ASCII
    capitals and the Latin-1 capitals (U+00C0 to U+00DE, U+00D7 is the
    multiplication sign) move up by 32. *)
Definition toLowerCase_unit (c : ascii) : ascii :=
  let n := N_of_ascii c in
  if ((65 <=? n) && (n <=? 90) ||
      (192 <=? n) && (n <=? 222) && negb (n =? 215))%N
  then ascii_of_N (n + 32) else c.

Fixpoint toLowerCase (s : string) : string :=
  match s with
  | EmptyString => EmptyString
  | String c s' => String (toLowerCase_unit c) (toLowerCase s')
  end.

(** [String.prototype.includes]. *)
Fixpoint includes (hay needle : string) : bool :=
  String.prefix needle hay ||
  match hay with
  | EmptyString => false
  | String _ hay' => includes hay' needle
  end.

(** WhiteSpace and LineTerminator code units below 256. *)
Definition isWhiteSpace (c : ascii) : bool :=
  let n := N_of_ascii c in
  ((9 <=? n) && (n <=? 13) || (n =? 32) || (n =? 160))%N.

Fixpoint trimStart (s : string) : string :=
  match s with
  | EmptyString => EmptyString
  | String c s' => if isWhiteSpace c then trimStart s' else s
  end.

Fixpoint trimEnd (s : string) : string :=
  match s with
  | EmptyString => EmptyString
  | String c s' =>
      match trimEnd s' with
      | EmptyString => if isWhiteSpace c then EmptyString else String c EmptyString
      | t => String c t
      end
  end.

(** [String.prototype.trim]. *)
Definition trim (s : string) : string := trimEnd (trimStart s).

(** Truthiness of a string-valued expression that may be [undefined]. *)
Definition truthy (s : option string) : bool :=
  match s with
  | Some (String _ _) => true
  | _ => false
  end.

(** [a || b] on strings. *)
Definition or_else (a : option string) (b : string) : string :=
  match a with
  | Some (String c s) => String c s
  | _ => b
  end.

(** [Math.max] on two arguments. *)
Definition Math_max (a b : Q) : Q := if Qle_bool a b then b else a.

End JS.

(** ** Key normalisation: [.replace(/^["']|["']$/g, '')] *)

Definition dquote : ascii := ascii_of_N 34.
Definition squote : ascii := ascii_of_N 39.

Definition isQuote (c : ascii) : bool :=
  (Ascii.eqb c dquote || Ascii.eqb c squote)%bool.

(** The global replace scans the subject from left to right; at offset
    [pos] the first alternative matches a quote when [pos = 0], the second
    a quote that is the last code unit.  A match is deleted and the scan
    resumes after it. *)
Fixpoint replace_quotes_from (pos : nat) (s : string) : string :=
  match s with
  | EmptyString => EmptyString
  | String c rest =>
      if (isQuote c && ((pos =? 0)%nat ||
                        match rest with EmptyString => true | _ => false end))%bool
      then replace_quotes_from (S pos) rest
      else String c (replace_quotes_from (S pos) rest)
  end.

Definition replace_quotes (s : string) : string := replace_quotes_from 0 s.

(** [apiKey.trim().replace(/^["']|["']$/g, '')] *)
Definition normalizeKey (apiKey : string) : string :=
  replace_quotes (JS.trim apiKey).

(** The same normalisation, following the words of the specification:
    trim the surrounding whitespace, then strip one leading and one
    trailing quote character. *)
Definition stripLeadingQuote (s : string) : string :=
  match s with
  | String c rest => if isQuote c then rest else s
  | EmptyString => EmptyString
  end.

Fixpoint stripTrailingQuote (s : string) : string :=
  match s with
  | EmptyString => EmptyString
  | String c EmptyString => if isQuote c then EmptyString else s
  | String c rest => String c (stripTrailingQuote rest)
  end.

Definition normalizeKey_spec (apiKey : string) : string :=
  stripTrailingQuote (stripLeadingQuote (JS.trim apiKey)).

(** ** Data model (the shared type declarations) *)

Record Ticket := {
  ticketId : Z;
  subject : string;
  priority : string;
  ticketStatus : string;               (* the ticket's [status] *)
  ticketClientName : string
}.

(** A history entry; the loop only hands the list on to the prompt. *)
Record TicketHistoryItem := {
  h_id : Z;
  h_created : string;
  h_actorId : string;
  h_source : string
}.

Record AiAnalysisResult := {
  r_ticketId : Z;
  score : Q;
  summary : string;
  strengths : list string;
  weaknesses : list string;
  rcaDetected : bool;
  error : option string
}.

Record AiConfig := {
  apiKey : option string;
  model : string;
  rpm : Z
}.

(** The object produced by [JSON.parse] on the model's answer.  The request
    passes [analysisSchema] as [responseSchema]; the payload has the five
    properties that schema requires.  The answer is not checked: it may
    hold an [error] and a [ticketId] of its own as well. *)
Record Payload := {
  p_score : Q;
  p_summary : string;
  p_strengths : list string;
  p_weaknesses : list string;
  p_rcaDetected : bool;
  p_error : option string;
  p_ticketId : option Z
}.

(** [{ ticketId: id, ...parsed }]: the properties of the answer come after
    [ticketId] and replace it when the answer has one. *)
Definition spread (id : Z) (parsed : Payload) : AiAnalysisResult :=
  {| r_ticketId := match p_ticketId parsed with Some own => own | None => id end;
     score := p_score parsed;
     summary := p_summary parsed;
     strengths := p_strengths parsed;
     weaknesses := p_weaknesses parsed;
     rcaDetected := p_rcaDetected parsed;
     error := p_error parsed |}.

(** What a [catch] clause looks at in a thrown value: [err.message] and
    [err.status]. *)
Record Err := {
  message : option string;
  status : option Z
}.

(** [new Error(msg)] *)
Definition Error (msg : string) : Err := {| message := Some msg; status := None |}.

(** A value that is thrown, or that a promise rejects with.  The catch
    clause of the loop declares it [err: any] and reads
    [err.message?.toLowerCase()]: that throws a [TypeError] when [err] is
    [null] or [undefined], and when [err.message] is there but is not a
    string (it has no [toLowerCase] to call). *)
Inductive Thrown :=
| ErrorLike (e : Err)      (* not null or undefined; message a string, or absent *)
| ThrownNull               (* null *)
| ThrownUndefined          (* undefined *)
| OddMessage.              (* message neither a string nor null or undefined *)

Coercion ErrorLike : Err >-> Thrown.

(** The [TypeError] the engine raises in the catch clause.  Its message is
    the engine's own wording (here V8's); nothing in the program reads
    it. *)
Definition TypeError (v : Thrown) : Err :=
  match v with
  | ThrownNull => Error "Cannot read properties of null (reading 'message')"
  | ThrownUndefined => Error "Cannot read properties of undefined (reading 'message')"
  | _ => Error "err.message?.toLowerCase is not a function"
  end.

(** The catch clause can read the message of the value. *)
Definition readable (v : Thrown) : bool :=
  match v with
  | ErrorLike _ => true
  | _ => false
  end.

(** ** The component's state *)

Inductive Step := config | processing | complete.

Record Modal := {
  step : Step;
  progress : nat;
  currentProcessingId : option Z;
  processedCount : nat;
  errorCount : nat;
  authError : string;
  isRunning : bool            (* isRunningRef.current *)
}.

(** ** Observable events *)

Inductive Event :=
| EvProbe (key : string)
    (* validateApiKey: generateContent({model: 'gemini-2.5-flash', contents: 'Test connection'}) *)
| EvHistory (id : Z)
    (* ApiService.getTicketHistory(id) *)
| EvGenerate (key modelName : string) (t : Ticket) (h : list TicketHistoryItem)
    (* analyzeTicket: generateContent on the prompt built from t and h *)
| EvResult (r : AiAnalysisResult)
    (* onAnalysisUpdate(r) *)
| EvSleep (ms : Q).
    (* setTimeout(resolve, ms) *)

Record World := {
  ui : Modal;
  trace : list Event          (* oldest event first *)
}.

(** ** The environment *)

(** Outcome of [ai.models.generateContent] followed by [JSON.parse]. *)
Inductive GenOutcome :=
| GenThrows (e : Err)                  (* the request rejects *)
| GenNoText                            (* response.text is undefined or empty *)
| GenMalformed (e : Err)               (* JSON.parse throws e *)
| GenPayload (p : Payload).            (* JSON.parse returns p *)

(** What the outside world does while item [i] is processed. *)
Record ItemEnv := {
  historyOutcome : Err + list TicketHistoryItem;
  generateOutcome : GenOutcome;
  elapsedTime : Z;                     (* Date.now() - startTime *)
  stopDuringHistory : bool;            (* Stop pressed while the history request is pending *)
  stopDuringGenerate : bool;           (* ... while the model request is pending *)
  stopDuringSleep : bool               (* ... while the throttle timer runs *)
}.

Record Env := {
  env_API_KEY : option string;         (* process.env.API_KEY *)
  probeOutcome : option Err;           (* the validation request: None when it resolves *)
  item : nat -> ItemEnv
}.

(** The same, for providers that reject with any value at all. *)
Inductive AnyGenOutcome :=
| AnyGenThrows (v : Thrown)
| AnyGenNoText
| AnyGenMalformed (e : Err)
| AnyGenPayload (p : Payload).

Record AnyItemEnv := {
  any_historyOutcome : Thrown + list TicketHistoryItem;
  any_generateOutcome : AnyGenOutcome;
  any_elapsedTime : Z;
  any_stopDuringHistory : bool;
  any_stopDuringGenerate : bool;
  any_stopDuringSleep : bool
}.

Record AnyEnv := {
  any_API_KEY : option string;
  any_probeOutcome : option Thrown;
  any_item : nat -> AnyItemEnv
}.

(** An environment that rejects with [Err] values is one of these. *)
Definition anyGenOutcome (g : GenOutcome) : AnyGenOutcome :=
  match g with
  | GenThrows e => AnyGenThrows (ErrorLike e)
  | GenNoText => AnyGenNoText
  | GenMalformed e => AnyGenMalformed e
  | GenPayload p => AnyGenPayload p
  end.

Definition anyItemEnv (ie : ItemEnv) : AnyItemEnv :=
  {| any_historyOutcome :=
       match historyOutcome ie with
       | inl e => inl (ErrorLike e)
       | inr content => inr content
       end;
     any_generateOutcome := anyGenOutcome (generateOutcome ie);
     any_elapsedTime := elapsedTime ie;
     any_stopDuringHistory := stopDuringHistory ie;
     any_stopDuringGenerate := stopDuringGenerate ie;
     any_stopDuringSleep := stopDuringSleep ie |}.

Definition anyEnv (env : Env) : AnyEnv :=
  {| any_API_KEY := env_API_KEY env;
     any_probeOutcome :=
       match probeOutcome env with
       | Some e => Some (ErrorLike e)
       | None => None
       end;
     any_item := fun i => anyItemEnv (item env i) |}.

Coercion anyItemEnv : ItemEnv >-> AnyItemEnv.
Coercion anyEnv : Env >-> AnyEnv.

(** ** A monad for state and exceptions

    A thrown value does not undo the effects that preceded it. *)

Inductive Res (A : Type) :=
| Ok (a : A)
| Throw (e : Thrown).
Arguments Ok {A} a.
Arguments Throw {A} e.

Definition M (A : Type) : Type := World -> Res A * World.

Definition ret {A} (a : A) : M A := fun w => (Ok a, w).

Definition bind {A B} (m : M A) (k : A -> M B) : M B :=
  fun w =>
    match m w with
    | (Ok a, w') => k a w'
    | (Throw e, w') => (Throw e, w')
    end.

Definition throw {A} (e : Thrown) : M A := fun w => (Throw e, w).

Definition try_catch {A} (body : M A) (handler : Thrown -> M A) : M A :=
  fun w =>
    match body w with
    | (Ok a, w') => (Ok a, w')
    | (Throw e, w') => handler e w'
    end.

Declare Scope js_scope.
Delimit Scope js_scope with js.
Notation "x <- m ;; k" := (bind m (fun x => k))
  (at level 61, m at next level, right associativity) : js_scope.
Notation "m ;; k" := (bind m (fun _ => k))
  (at level 61, right associativity) : js_scope.
Local Open Scope js_scope.

Definition emit (e : Event) : M unit :=
  fun w => (Ok tt, {| ui := ui w; trace := trace w ++ [e] |}).

Definition update (f : Modal -> Modal) : M unit :=
  fun w => (Ok tt, {| ui := f (ui w); trace := trace w |}).

Definition read {A} (f : Modal -> A) : M A :=
  fun w => (Ok (f (ui w)), w).

(** State setters. *)
Definition with_step (s : Step) (m : Modal) : Modal :=
  {| step := s; progress := progress m; currentProcessingId := currentProcessingId m;
     processedCount := processedCount m; errorCount := errorCount m;
     authError := authError m; isRunning := isRunning m |}.
Definition with_progress (n : nat) (m : Modal) : Modal :=
  {| step := step m; progress := n; currentProcessingId := currentProcessingId m;
     processedCount := processedCount m; errorCount := errorCount m;
     authError := authError m; isRunning := isRunning m |}.
Definition with_currentProcessingId (i : option Z) (m : Modal) : Modal :=
  {| step := step m; progress := progress m; currentProcessingId := i;
     processedCount := processedCount m; errorCount := errorCount m;
     authError := authError m; isRunning := isRunning m |}.
Definition with_processedCount (n : nat) (m : Modal) : Modal :=
  {| step := step m; progress := progress m; currentProcessingId := currentProcessingId m;
     processedCount := n; errorCount := errorCount m;
     authError := authError m; isRunning := isRunning m |}.
Definition with_errorCount (n : nat) (m : Modal) : Modal :=
  {| step := step m; progress := progress m; currentProcessingId := currentProcessingId m;
     processedCount := processedCount m; errorCount := n;
     authError := authError m; isRunning := isRunning m |}.
Definition with_authError (s : string) (m : Modal) : Modal :=
  {| step := step m; progress := progress m; currentProcessingId := currentProcessingId m;
     processedCount := processedCount m; errorCount := errorCount m;
     authError := s; isRunning := isRunning m |}.
Definition with_isRunning (b : bool) (m : Modal) : Modal :=
  {| step := step m; progress := progress m; currentProcessingId := currentProcessingId m;
     processedCount := processedCount m; errorCount := errorCount m;
     authError := authError m; isRunning := b |}.

Definition setStep (s : Step) : M unit := update (with_step s).
Definition setProgress (n : nat) : M unit := update (with_progress n).
Definition setCurrentProcessingId (i : Z) : M unit :=
  update (with_currentProcessingId (Some i)).
Definition setProcessedCount (f : nat -> nat) : M unit :=
  update (fun m => with_processedCount (f (processedCount m)) m).
Definition setErrorCount (f : nat -> nat) : M unit :=
  update (fun m => with_errorCount (f (errorCount m)) m).
Definition setAuthError (s : string) : M unit := update (with_authError s).
Definition setIsRunning (b : bool) : M unit := update (with_isRunning b).

(** [handleStop], the Stop button. *)
Definition handleStop : M unit :=
  setIsRunning false ;;
  setStep complete.

(** A suspension point of the loop: the only moments at which the Stop
    button can act. *)
Definition await (stopPressed : bool) : M unit :=
  if stopPressed then handleStop else ret tt.

(** [onAnalysisUpdate(r)] *)
Definition onAnalysisUpdate (r : AiAnalysisResult) : M unit := emit (EvResult r).

(** ** AiService *)

(** [apiKey ? apiKey.trim().replace(/^["']|["']$/g, '') : process.env.API_KEY] *)
Definition resolveKey (apiKey envKey : option string) : option string :=
  match apiKey with
  | Some (String c s) => Some (normalizeKey (String c s))
  | _ => envKey
  end.

Definition validateApiKey (env : AnyEnv) (apiKey : option string) : M bool :=
  match resolveKey apiKey (any_API_KEY env) with
  | Some (String c s) =>
      let key := String c s in
      try_catch
        (emit (EvProbe key) ;;
         match any_probeOutcome env with
         | Some e => throw e
         | None => ret true
         end)
        (fun _ => ret false)
  | _ => ret false                                   (* if (!key) return false *)
  end.

Definition missingKey : Err :=
  Error "API Key is missing. Please provide a key or configure the environment.".

Definition analyzeTicket (env : AnyEnv) (ie : AnyItemEnv) (ticket : Ticket)
    (history : list TicketHistoryItem) (modelName : string)
    (apiKey : option string) : M AiAnalysisResult :=
  match resolveKey apiKey (any_API_KEY env) with
  | Some (String c s) =>
      let key := String c s in
      emit (EvGenerate key modelName ticket history) ;;
      await (any_stopDuringGenerate ie) ;;
      match any_generateOutcome ie with
      | AnyGenThrows e => throw e
      | AnyGenNoText => throw (Error "Empty response from AI")
      | AnyGenMalformed e => throw e
      | AnyGenPayload parsed =>
          ret (spread (ticketId ticket) parsed)    (* { ticketId: ticket.ticketId, ...parsed } *)
      end
  | _ => throw missingKey                            (* if (!key) throw ... *)
  end.

(** ** ApiService.getTicketHistory, seen from the loop *)

Definition getTicketHistory (ie : AnyItemEnv) (id : Z) : M (list TicketHistoryItem) :=
  emit (EvHistory id) ;;
  await (any_stopDuringHistory ie) ;;
  match any_historyOutcome ie with
  | inl e => throw e
  | inr content => ret content
  end.

(** ** The failure tests of the catch clause *)

(** [err.message?.toLowerCase() || ''] *)
Definition msg_of (err : Err) : string :=
  match message err with
  | Some m => JS.toLowerCase m
  | None => EmptyString
  end.

(** [err.status || 0] *)
Definition status_of (err : Err) : Z :=
  match status err with
  | Some s => s
  | None => 0
  end.

Definition isAuthError (err : Err) : bool :=
  let msg := msg_of err in
  JS.includes msg "401" || JS.includes msg "api key" ||
  JS.includes msg "unauthorized" || (status_of err =? 401)%Z.

Definition isRateLimit (err : Err) : bool :=
  let msg := msg_of err in
  (status_of err =? 429)%Z || JS.includes msg "429" || JS.includes msg "quota" ||
  JS.includes msg "too many requests" || JS.includes msg "resource exhausted".

(** The two object literals the catch clause hands to [onAnalysisUpdate]. *)
Definition fatalResult (ticket : Ticket) (rateLimit : bool) : AiAnalysisResult :=
  {| r_ticketId := ticketId ticket;
     score := 0%Q;
     summary := if rateLimit then "Rate Limit Exceeded" else "Auth Failed";
     strengths := [];
     weaknesses := [];
     rcaDetected := false;
     error := Some (if rateLimit then "429 Quota Exceeded" else "401 Unauthorized") |}.

Definition failedResult (ticket : Ticket) (err : Err) : AiAnalysisResult :=
  {| r_ticketId := ticketId ticket;
     score := 0%Q;
     summary := "Analysis failed";
     strengths := [];
     weaknesses := [];
     rcaDetected := false;
     error := Some (JS.or_else (message err) "Unknown error") |}.

Definition fatalAlert (rateLimit : bool) : string :=
  if rateLimit then "Analysis paused: Rate limit exceeded."
  else "Analysis stopped: Auth failed.".

(** ** The rate limiter *)

(** [Math.max(100, 60000 / config.rpm)] *)
Definition delayMs (rpm : Z) : Q := JS.Math_max 100 (60000 / inject_Z rpm)%Q.

(** [Math.max(0, delayMs - elapsedTime)] *)
Definition timeToWait (delay : Q) (elapsed : Z) : Q :=
  JS.Math_max 0 (delay - inject_Z elapsed)%Q.

Definition Qlt_bool (a b : Q) : bool := negb (Qle_bool b a).

(** ** The loop of [startAnalysis] *)

Inductive Ctl := Next | Break.

(** The [try] block of the loop body. *)
Definition try_body (env : AnyEnv) (cfg : AiConfig) (ie : AnyItemEnv) (ticket : Ticket)
    : M Ctl :=
  historyResponse <- getTicketHistory ie (ticketId ticket) ;;
  result <- analyzeTicket env ie ticket historyResponse (model cfg) (apiKey cfg) ;;
  onAnalysisUpdate result ;;
  setProcessedCount S ;;
  ret Next.

(** The [catch (err: any)] clause.  The failure counter is raised before
    the message of [err] is read; when that reading throws, the clause is
    left by the [TypeError] and nothing of what follows is done. *)
Definition catch_body (ticket : Ticket) (err : Thrown) : M Ctl :=
  setErrorCount S ;;
  match err with
  | ErrorLike err =>
      if isAuthError err || isRateLimit err then
        setIsRunning false ;;
        setStep complete ;;
        setAuthError (fatalAlert (isRateLimit err)) ;;
        onAnalysisUpdate (fatalResult ticket (isRateLimit err)) ;;
        ret Break
      else
        onAnalysisUpdate (failedResult ticket err) ;;
        ret Next
  | odd => throw (TypeError odd)       (* err.message?.toLowerCase() throws *)
  end.

(** The throttle at the end of the loop body. *)
Definition throttle (delay : Q) (n i : nat) (ie : AnyItemEnv) : M unit :=
  running <- read isRunning ;;
  if (Z.of_nat i <? Z.of_nat n - 1)%Z && running then
    let t := timeToWait delay (any_elapsedTime ie) in    (* elapsedTime = Date.now() - startTime *)
    if Qlt_bool 0 t then
      emit (EvSleep t) ;;
      await (any_stopDuringSleep ie)
    else ret tt
  else ret tt.

(** One pass through the body of the [for] loop, for index [i] of [n]. *)
Definition iteration (env : AnyEnv) (cfg : AiConfig) (delay : Q) (n i : nat)
    (ticket : Ticket) : M Ctl :=
  running <- read isRunning ;;
  if negb running then ret Break else
  let ie := any_item env i in
  setCurrentProcessingId (ticketId ticket) ;;
  ctl <- try_catch (try_body env cfg ie ticket) (catch_body ticket) ;;
  match ctl with
  | Break => ret Break
  | Next =>
      setProgress (i + 1) ;;
      throttle delay n i ie ;;
      ret Next
  end.

(** [for (let i = ...; i < ticketsToProcess.length; i++)], entered at index
    [i] with [rest] the tickets from that index on. *)
Fixpoint loop (env : AnyEnv) (cfg : AiConfig) (delay : Q) (n i : nat)
    (rest : list Ticket) : M unit :=
  match rest with
  | [] => ret tt
  | ticket :: rest' =>
      ctl <- iteration env cfg delay n i ticket ;;
      match ctl with
      | Break => ret tt
      | Next => loop env cfg delay n (S i) rest'
      end
  end.

Definition startAnalysis (env : AnyEnv) (cfg : AiConfig) (tickets : list Ticket) : M unit :=
  setAuthError EmptyString ;;
  proceed <-
    (if JS.truthy (apiKey cfg) then
       isValid <- validateApiKey env (apiKey cfg) ;;
       if negb isValid then
         setAuthError "Connection failed. Please check your API Key." ;;
         ret false                                   (* return *)
       else ret true
     else ret true) ;;
  if negb proceed then ret tt else
  setStep processing ;;
  setProgress 0 ;;
  setProcessedCount (fun _ => 0) ;;
  setErrorCount (fun _ => 0) ;;
  setIsRunning true ;;
  let ticketsToProcess := tickets in
  loop env cfg (delayMs (rpm cfg)) (length ticketsToProcess) 0 ticketsToProcess ;;
  setStep complete ;;
  setIsRunning false.

(** The state in which the modal is opened. *)
Definition opened : World :=
  {| ui := {| step := config; progress := 0; currentProcessingId := None;
              processedCount := 0; errorCount := 0; authError := EmptyString;
              isRunning := false |};
     trace := [] |}.

(** ** Reading a trace *)

Definition results (tr : list Event) : list AiAnalysisResult :=
  flat_map (fun e => match e with EvResult r => [r] | _ => [] end) tr.

Definition historyCalls (tr : list Event) : list Z :=
  flat_map (fun e => match e with EvHistory id => [id] | _ => [] end) tr.

Definition generateCalls (tr : list Event) : list Z :=
  flat_map (fun e => match e with EvGenerate _ _ t _ => [ticketId t] | _ => [] end) tr.

Definition probes (tr : list Event) : list string :=
  flat_map (fun e => match e with EvProbe k => [k] | _ => [] end) tr.

Definition sleeps (tr : list Event) : list Q :=
  flat_map (fun e => match e with EvSleep t => [t] | _ => [] end) tr.


(** [res.error] is truthy. *)
Definition hasError (r : AiAnalysisResult) : bool := JS.truthy (error r).

(** ** The outcome of one item, as a value

    What the [try] block of item [ie] ends with: the value thrown, or the
    result passed to [onAnalysisUpdate]. *)
Definition outcome (env : Env) (cfg : AiConfig) (ie : ItemEnv) (ticket : Ticket)
    : Err + AiAnalysisResult :=
  match historyOutcome ie with
  | inl e => inl e
  | inr _ =>
      match resolveKey (apiKey cfg) (env_API_KEY env) with
      | Some (String _ _) =>
          match generateOutcome ie with
          | GenThrows e => inl e
          | GenNoText => inl (Error "Empty response from AI")
          | GenMalformed e => inl e
          | GenPayload p => inr (spread (ticketId ticket) p)
          end
      | _ => inl missingKey
      end
  end.

(** The failure stops the batch. *)
Definition fatal (e : Err) : bool := isAuthError e || isRateLimit e.

(** The result the loop hands to [onAnalysisUpdate] for an item. *)
Definition resultOf (env : Env) (cfg : AiConfig) (ie : ItemEnv) (ticket : Ticket)
    : AiAnalysisResult :=
  match outcome env cfg ie ticket with
  | inr r => r
  | inl e => if fatal e then fatalResult ticket (isRateLimit e) else failedResult ticket e
  end.

Fixpoint resultsFrom (env : Env) (cfg : AiConfig) (i : nat) (rest : list Ticket)
    : list AiAnalysisResult :=
  match rest with
  | [] => []
  | t :: rest' => resultOf env cfg (item env i) t :: resultsFrom env cfg (S i) rest'
  end.

(** ** The batch status the component shows

    The completion screen is headed 'Analysis Interrupted' when [authError]
    is set and 'Analysis Complete' otherwise; the two reasons the loop
    records are the two alerts of the catch clause. *)
Inductive StopReason := AuthFailed | RateLimited | Cancelled.

Inductive BatchStatus := Idle | Running | Stopped (reason : StopReason) | Completed.


Definition batchStatus (m : Modal) : BatchStatus :=
  match step m with
  | config => Idle
  | processing => Running
  | complete =>
      if String.eqb (authError m) (fatalAlert true) then Stopped RateLimited
      else if String.eqb (authError m) (fatalAlert false) then Stopped AuthFailed
      else Completed
  end.

(** The effect of Stop on the state, when it is pressed. *)
Definition pressStop (pressed : bool) (m : Modal) : Modal :=
  if pressed then with_step complete (with_isRunning false m) else m.

(** ** One iteration in closed form

    The effect of processing an item on the state and on the trace, written
    as functions of the item's environment; [iteration_run] below proves
    that the loop body computes exactly this. *)

(** The provider calls the item makes. *)
Definition callEvents (env : Env) (cfg : AiConfig) (ie : ItemEnv) (t : Ticket) : list Event :=
  EvHistory (ticketId t) ::
  match historyOutcome ie, resolveKey (apiKey cfg) (env_API_KEY env) with
  | inr h, Some (String c s) => [EvGenerate (String c s) (model cfg) t h]
  | _, _ => []
  end.

(** Stop is pressed while one of these calls is pending. *)
Definition stoppedInFlight (env : Env) (cfg : AiConfig) (ie : ItemEnv) : bool :=
  stopDuringHistory ie ||
  match historyOutcome ie, resolveKey (apiKey cfg) (env_API_KEY env) with
  | inr _, Some (String _ _) => stopDuringGenerate ie
  | _, _ => false
  end.

(** The item ends the loop. *)
Definition breaks (env : Env) (cfg : AiConfig) (ie : ItemEnv) (t : Ticket) : bool :=
  match outcome env cfg ie t with
  | inl e => fatal e
  | inr _ => false
  end.

(** The state after the [try]/[catch] statement. *)
Definition processed (env : Env) (cfg : AiConfig) (ie : ItemEnv) (t : Ticket)
    (m : Modal) : Modal :=
  let m1 := pressStop (stoppedInFlight env cfg ie)
              (with_currentProcessingId (Some (ticketId t)) m) in
  match outcome env cfg ie t with
  | inr _ => with_processedCount (S (processedCount m1)) m1
  | inl e =>
      let m2 := with_errorCount (S (errorCount m1)) m1 in
      if fatal e then
        with_authError (fatalAlert (isRateLimit e))
          (with_step complete (with_isRunning false m2))
      else m2
  end.

(** The timer the throttle starts, if any. *)
Definition sleepOf (delay : Q) (n i : nat) (ie : ItemEnv) (m : Modal) : option Q :=
  if (Z.of_nat i <? Z.of_nat n - 1)%Z && isRunning m then
    let t := timeToWait delay (elapsedTime ie) in
    if Qlt_bool 0 t then Some t else None
  else None.

(** The world after the whole iteration, entered with the loop running. *)
Definition afterItem (env : Env) (cfg : AiConfig) (delay : Q) (n i : nat)
    (t : Ticket) (w : World) : World :=
  let ie := item env i in
  let m1 := processed env cfg ie t (ui w) in
  let tr1 := trace w ++ callEvents env cfg ie t ++ [EvResult (resultOf env cfg ie t)] in
  if breaks env cfg ie t then {| ui := m1; trace := tr1 |}
  else
    let m2 := with_progress (i + 1) m1 in
    match sleepOf delay n i ie m2 with
    | Some ms => {| ui := pressStop (stopDuringSleep ie) m2; trace := tr1 ++ [EvSleep ms] |}
    | None => {| ui := m2; trace := tr1 |}
    end.

(** Stop takes effect during the timer that follows item [i]: the timer is
    started and Stop is pressed while it runs. *)
Definition stoppedInSleep (delay : Q) (n i : nat) (ie : ItemEnv) : bool :=
  (Z.of_nat i <? Z.of_nat n - 1)%Z &&
  Qlt_bool 0 (timeToWait delay (elapsedTime ie)) &&
  stopDuringSleep ie.

(** The loop goes on after item [i]: the item does not break the loop and
    Stop does not take effect while the item is processed. *)
Definition passes (env : Env) (cfg : AiConfig) (delay : Q) (n i : nat)
    (t : Ticket) : bool :=
  let ie := item env i in
  negb (breaks env cfg ie t) &&
  negb (stoppedInFlight env cfg ie) &&
  negb (stoppedInSleep delay n i ie).

(** The run gets as far as item [k]: every item before it passes. *)
Definition reaches (env : Env) (cfg : AiConfig) (tickets : list Ticket) (k : nat) : Prop :=
  forall j t, (j < k)%nat -> nth_error tickets j = Some t ->
              passes env cfg (delayMs (rpm cfg)) (length tickets) j t = true.

(** The events of an iteration that passes. *)
Definition itemEvents (env : Env) (cfg : AiConfig) (delay : Q) (n i : nat)
    (t : Ticket) : list Event :=
  let ie := item env i in
  callEvents env cfg ie t ++ [EvResult (resultOf env cfg ie t)] ++
  (if (Z.of_nat i <? Z.of_nat n - 1)%Z then
     let ms := timeToWait delay (elapsedTime ie) in
     if Qlt_bool 0 ms then [EvSleep ms] else []
   else []).

Fixpoint eventsFrom (env : Env) (cfg : AiConfig) (delay : Q) (n i : nat)
    (pre : list Ticket) : list Event :=
  match pre with
  | [] => []
  | t :: pre' => itemEvents env cfg delay n i t ++ eventsFrom env cfg delay n (S i) pre'
  end.

(** ** The validation stage in closed form *)

(** The request the validation stage sends. *)
Definition probeEvents (env : Env) (cfg : AiConfig) : list Event :=
  match apiKey cfg with
  | Some (String c s) =>
      match normalizeKey (String c s) with
      | EmptyString => []
      | key => [EvProbe key]
      end
  | _ => []
  end.

(** The validation stage lets the run proceed. *)
Definition probeAccepts (env : Env) (cfg : AiConfig) : bool :=
  match apiKey cfg with
  | Some (String c s) =>
      match normalizeKey (String c s), probeOutcome env with
      | String _ _, None => true
      | _, _ => false
      end
  | _ => true
  end.

(** The world in which [startAnalysis] enters its loop. *)
Definition entering (env : Env) (cfg : AiConfig) (w : World) : World :=
  {| ui := with_isRunning true (with_errorCount 0 (with_processedCount 0
             (with_progress 0 (with_step processing (with_authError EmptyString (ui w))))));
     trace := trace w ++ probeEvents env cfg |}.

(** The world [startAnalysis] leaves when the validation fails. *)
Definition rejected (env : Env) (cfg : AiConfig) (w : World) : World :=
  {| ui := with_authError "Connection failed. Please check your API Key." (ui w);
     trace := trace w ++ probeEvents env cfg |}.

(** The two statements after the loop. *)
Definition finished (w : World) : World :=
  {| ui := with_isRunning false (with_step complete (ui w)); trace := trace w |}.

(** ** Providers that reject with any value

    What the loop does in an environment of any kind, in terms of the
    closed form above: up to the first item whose failure the catch clause
    cannot read, the run is the run of the environment [errEnv]; on that
    item the catch clause throws.  [loop_any] below proves it. *)

(** The value as the catch clause reads it; of a value it cannot read,
    nothing. *)
Definition asErr (v : Thrown) : Err :=
  match v with
  | ErrorLike e => e
  | _ => {| message := None; status := None |}
  end.

Definition errGenOutcome (g : AnyGenOutcome) : GenOutcome :=
  match g with
  | AnyGenThrows v => GenThrows (asErr v)
  | AnyGenNoText => GenNoText
  | AnyGenMalformed e => GenMalformed e
  | AnyGenPayload p => GenPayload p
  end.

Definition errItemEnv (ie : AnyItemEnv) : ItemEnv :=
  {| historyOutcome :=
       match any_historyOutcome ie with
       | inl v => inl (asErr v)
       | inr content => inr content
       end;
     generateOutcome := errGenOutcome (any_generateOutcome ie);
     elapsedTime := any_elapsedTime ie;
     stopDuringHistory := any_stopDuringHistory ie;
     stopDuringGenerate := any_stopDuringGenerate ie;
     stopDuringSleep := any_stopDuringSleep ie |}.

Definition errEnv (env : AnyEnv) : Env :=
  {| env_API_KEY := any_API_KEY env;
     probeOutcome :=
       match any_probeOutcome env with
       | Some v => Some (asErr v)
       | None => None
       end;
     item := fun i => errItemEnv (any_item env i) |}.

(** The value the [try] block of the item throws, if it throws. *)
Definition thrown (env : AnyEnv) (cfg : AiConfig) (ie : AnyItemEnv) : option Thrown :=
  match any_historyOutcome ie with
  | inl v => Some v
  | inr _ =>
      match resolveKey (apiKey cfg) (any_API_KEY env) with
      | Some (String _ _) =>
          match any_generateOutcome ie with
          | AnyGenThrows v => Some v
          | AnyGenNoText => Some (ErrorLike (Error "Empty response from AI"))
          | AnyGenMalformed e => Some (ErrorLike e)
          | AnyGenPayload _ => None
          end
      | _ => Some (ErrorLike missingKey)
      end
  end.

(** The item fails with a value the catch clause cannot read: the clause
    throws in its turn. *)
Definition crashes (env : AnyEnv) (cfg : AiConfig) (ie : AnyItemEnv) : bool :=
  match thrown env cfg ie with
  | Some v => negb (readable v)
  | None => false
  end.

(** The world in which that [TypeError] leaves the loop: the calls of the
    item are made and the failure counter is raised; no result is handed
    over and the statements after the loop are not reached. *)
Definition crashed (env : AnyEnv) (cfg : AiConfig) (i : nat) (t : Ticket) (w : World)
    : World :=
  let ie := errItemEnv (any_item env i) in
  let m1 := pressStop (stoppedInFlight (errEnv env) cfg ie)
              (with_currentProcessingId (Some (ticketId t)) (ui w)) in
  {| ui := with_errorCount (S (errorCount m1)) m1;
     trace := trace w ++ callEvents (errEnv env) cfg ie t |}.

(** ** Counting the items by their outcome *)




(** The answer of the model, when there is one, has no [error] property
    that is truthy. *)
Definition answerWithoutError (ie : ItemEnv) : Prop :=
  forall p, generateOutcome ie = GenPayload p -> JS.truthy (p_error p) = false.


(** The message contains [needle] up to letter case: some substring of it
    lower-cases to [needle]. *)
Definition containsCI (msg needle : string) : Prop :=
  exists pre mid post, msg = (pre ++ mid ++ post)%string /\ JS.toLowerCase mid = needle.

(** Vocabulary for the description of [trim]. *)
Fixpoint allWhiteSpace (s : string) : bool :=
  match s with
  | EmptyString => true
  | String c s' => JS.isWhiteSpace c && allWhiteSpace s'
  end.

Definition firstUnit (s : string) : option ascii :=
  match s with
  | EmptyString => None
  | String c _ => Some c
  end.

Fixpoint lastUnit (s : string) : option ascii :=
  match s with
  | EmptyString => None
  | String c EmptyString => Some c
  | String _ s' => lastUnit s'
  end.

(** ** The failure results of the two other copies of the loop

    The repository holds two more copies of the modal, which keep the
    results in a list of their own instead of handing them to
    [onAnalysisUpdate]: the one with the statistics and the CSV report
    ([ReportModal]) and the one under [components/] ([ComponentsModal]).
    Their failure results differ in the texts. *)

Module ReportModal.

(** [tickets.slice(0, 50)]: that copy processes the first 50 tickets. *)
Definition ticketsToProcess (tickets : list Ticket) : list Ticket := firstn 50 tickets.

Definition errorTitle (rateLimit : bool) : string :=
  if rateLimit then "Rate Limit Exceeded (429)" else "Critical Auth Error".

Definition errorDesc (rateLimit : bool) : string :=
  if rateLimit then "API Quota Exceeded" else "Invalid API Key".

Definition fatalResult (ticket : Ticket) (rateLimit : bool) : AiAnalysisResult :=
  {| r_ticketId := ticketId ticket;
     score := 0%Q;
     summary := ("Processing halted: " ++ errorDesc rateLimit)%string;
     strengths := [];
     weaknesses := [errorDesc rateLimit];
     rcaDetected := false;
     error := Some (errorTitle rateLimit) |}.

Definition failedResult (ticket : Ticket) (err : Err) : AiAnalysisResult :=
  {| r_ticketId := ticketId ticket;
     score := 0%Q;
     summary := "Analysis failed.";
     strengths := [];
     weaknesses := ["Error processing ticket"];
     rcaDetected := false;
     error := Some (JS.or_else (message err) "Unknown error") |}.

End ReportModal.

Module ComponentsModal.

(** The one failure test of that copy, on the message as it is spelled:
    [err.message && (err.message.includes('401') ||
    err.message.includes('API key'))]. *)
Definition isFatal (err : Err) : bool :=
  match message err with
  | Some (String c m) =>
      JS.includes (String c m) "401" || JS.includes (String c m) "API key"
  | _ => false
  end.

Definition fatalResult (ticket : Ticket) : AiAnalysisResult :=
  {| r_ticketId := ticketId ticket;
     score := 0%Q;
     summary := "Authentication failed during batch processing.";
     strengths := [];
     weaknesses := ["Invalid or Expired API Key"];
     rcaDetected := false;
     error := Some "Critical Auth Error" |}.

Definition failedResult (ticket : Ticket) (err : Err) : AiAnalysisResult :=
  {| r_ticketId := ticketId ticket;
     score := 0%Q;
     summary := "Analysis failed.";
     strengths := [];
     weaknesses := ["Error processing ticket"];
     rcaDetected := false;
     error := Some (JS.or_else (message err) "Unknown error") |}.

End ComponentsModal.

(** ** Failure signals, in words *)

(** The auth signal of the specification: status 401, or a message that
    contains "api key" or "unauthorized" up to case. *)
Definition authSignal (e : Err) : Prop :=
  status e = Some 401%Z \/
  exists m, message e = Some m /\
            (containsCI m "api key" \/ containsCI m "unauthorized").

(** The rate-limit signal of the specification: status 429, or a message
    that contains "quota", "rate limit", "too many requests" or "resource
    exhausted" up to case. *)
Definition rateLimitSignal_specified (e : Err) : Prop :=
  status e = Some 429%Z \/
  exists m, message e = Some m /\
            (containsCI m "quota" \/ containsCI m "rate limit" \/
             containsCI m "too many requests" \/ containsCI m "resource exhausted").

(** The rate-limit signal the catch clause tests for: "429" in the message
    takes the place of "rate limit". *)
Definition rateLimitSignal (e : Err) : Prop :=
  status e = Some 429%Z \/
  exists m, message e = Some m /\
            (containsCI m "429" \/ containsCI m "quota" \/
             containsCI m "too many requests" \/ containsCI m "resource exhausted").

(** ** Sample inputs *)

Module Sample.

Definition tk (id : Z) : Ticket :=
  {| ticketId := id; subject := "Printer offline"; priority := "P2";
     ticketStatus := "RESOLVED"; ticketClientName := "ACME" |}.

Definition payload : Payload :=
  {| p_score := 7%Q; p_summary := "Handled promptly";
     p_strengths := ["fast response"]; p_weaknesses := []; p_rcaDetected := true;
     p_error := None; p_ticketId := None |}.

(** Both calls succeed after 500 ms and Stop is not pressed. *)
Definition okItem : ItemEnv :=
  {| historyOutcome := inr []; generateOutcome := GenPayload payload;
     elapsedTime := 500;
     stopDuringHistory := false; stopDuringGenerate := false; stopDuringSleep := false |}.

(** The model request rejects with [e]. *)
Definition failItem (e : Err) : ItemEnv :=
  {| historyOutcome := inr []; generateOutcome := GenThrows e;
     elapsedTime := 500;
     stopDuringHistory := false; stopDuringGenerate := false; stopDuringSleep := false |}.



(** An environment with a working environment key in which item [k]
    behaves as [ie] and every other item succeeds. *)
Definition envAt (k : nat) (ie : ItemEnv) : Env :=
  {| env_API_KEY := Some "env-key"; probeOutcome := None;
     item := fun i => if Nat.eqb i k then ie else okItem |}.

(** Every item succeeds. *)
Definition envOk : Env := envAt 0 okItem.

Definition three : list Ticket := [tk 101; tk 102; tk 103].

Definition five : list Ticket := [tk 1; tk 2; tk 3; tk 4; tk 5].

(** The result of a successful analysis of ticket [id]. *)
Definition okResult (id : Z) : AiAnalysisResult :=
  {| r_ticketId := id; score := 7%Q; summary := "Handled promptly";
     strengths := ["fast response"]; weaknesses := []; rcaDetected := true;
     error := None |}.

(** No key is configured anywhere. *)
Definition envNoKey : Env :=
  {| env_API_KEY := None; probeOutcome := None; item := fun _ => okItem |}.

(** The configured override is refused by the provider. *)
Definition envBadKey : Env :=
  {| env_API_KEY := Some "env-key";
     probeOutcome := Some {| message := Some "API key not valid"; status := Some 400%Z |};
     item := fun _ => okItem |}.

(** The default configuration of the modal: no key override. *)
Definition cfg : AiConfig :=
  {| apiKey := Some EmptyString; model := "gemini-2.5-flash"; rpm := 30 |}.

Definition cfgWithKey (k : string) : AiConfig :=
  {| apiKey := Some k; model := "gemini-2.5-flash"; rpm := 30 |}.

Definition unauthorized : Err :=
  {| message := Some "Unauthorized"; status := Some 401%Z |}.

Definition quotaExceeded : Err :=
  {| message := Some "Quota exceeded"; status := Some 429%Z |}.

Definition rateLimitReached : Err :=
  {| message := Some "Rate limit reached"; status := None |}.

Definition serverError : Err :=
  {| message := Some "Internal error"; status := Some 500%Z |}.

Definition keyOverQuota : Err :=
  {| message := Some "API key over quota"; status := Some 401%Z |}.

Definition ticketNumber : Err :=
  {| message := Some "Ticket 14290 not found"; status := Some 404%Z |}.

Definition silentError : Err :=
  {| message := Some EmptyString; status := Some 500%Z |}.


(** The model request rejects with [v], which may be any value. *)
Definition rejectGenerateItem (v : Thrown) : AnyItemEnv :=
  {| any_historyOutcome := inr []; any_generateOutcome := AnyGenThrows v;
     any_elapsedTime := 500;
     any_stopDuringHistory := false; any_stopDuringGenerate := false;
     any_stopDuringSleep := false |}.

(** As [envAt], for an item of any kind. *)
Definition anyEnvAt (k : nat) (ie : AnyItemEnv) : AnyEnv :=
  {| any_API_KEY := Some "env-key"; any_probeOutcome := None;
     any_item := fun i => if Nat.eqb i k then ie else anyItemEnv okItem |}.

(** An answer of the model with an [error] and a [ticketId] of its own
    next to the five properties of the schema. *)
Definition refusal : Payload :=
  {| p_score := 0%Q; p_summary := "No assessment";
     p_strengths := []; p_weaknesses := []; p_rcaDetected := false;
     p_error := Some "model refused"; p_ticketId := Some 999%Z |}.

(** Both calls succeed and the model answers with [p]. *)
Definition answerItem (p : Payload) : ItemEnv :=
  {| historyOutcome := inr []; generateOutcome := GenPayload p;
     elapsedTime := 500;
     stopDuringHistory := false; stopDuringGenerate := false; stopDuringSleep := false |}.

End Sample.

(* ------------------------------------------------------------------ *)
(** * Around the loop: the dashboard, the service and the prompt *)
(* ------------------------------------------------------------------ *)

(** The results of a list that carry no error, and those that carry one. *)
Definition succeeded (rs : list AiAnalysisResult) : list AiAnalysisResult :=
  filter (fun r => negb (hasError r)) rs.


(** [Math.round]: the nearest integer, a tie going upwards. *)
Definition Math_round (x : Q) : Z := Qfloor (x + (1 # 2))%Q.

(** ** The dashboard: what becomes of the results

    The dashboard mounts the modal with [handleAnalysisUpdate] as its
    [onAnalysisUpdate] and keeps the results in [aiResults], a record keyed
    by ticket id. *)

Module Dashboard.

(** [Record<number, AiAnalysisResult>], as the list of its properties in
    the order in which their keys were first set.  (JavaScript enumerates
    integer keys in ascending order; the dashboard looks entries up by
    their key, counts them and sums over them, none of which depends on
    that order.) *)
Definition AiResults := list (Z * AiAnalysisResult).

(** [aiResults[id]] *)
Fixpoint get (aiResults : AiResults) (id : Z) : option AiAnalysisResult :=
  match aiResults with
  | [] => None
  | (k, r) :: rest => if (k =? id)%Z then Some r else get rest id
  end.

(** [{...prev, [id]: result}] *)
Fixpoint set (prev : AiResults) (id : Z) (result : AiAnalysisResult) : AiResults :=
  match prev with
  | [] => [(id, result)]
  | (k, r) :: rest =>
      if (k =? id)%Z then (k, result) :: rest else (k, r) :: set rest id result
  end.

(** [setAiResults(prev => ({...prev, [result.ticketId]: result}))] *)
Definition handleAnalysisUpdate (result : AiAnalysisResult) (prev : AiResults) : AiResults :=
  set prev (r_ticketId result) result.

(** The record after the modal has delivered the results [rs], one call of
    [handleAnalysisUpdate] each. *)
Definition delivered (rs : list AiAnalysisResult) (prev : AiResults) : AiResults :=
  fold_left (fun acc r => handleAnalysisUpdate r acc) rs prev.

(** The [stats] memo.  [avgScore] is the number that [toFixed(1)] formats
    for display; a score is a rational here, so that [curr.score || 0] is
    the score. *)
Record Stats := {
  avgScore : Q;
  rcaPercentage : Z
}.

Definition stats (aiResults : AiResults) : option Stats :=
  let analyzedCount := length aiResults in                  (* Object.keys(aiResults).length *)
  if (analyzedCount =? 0)%nat then None else
  let values := map snd aiResults in                        (* Object.values(aiResults) *)
  let totalScore := fold_left (fun acc curr => (acc + score curr)%Q) values 0%Q in
  let rcaCount := length (filter rcaDetected values) in
  Some {| avgScore := (totalScore / inject_Z (Z.of_nat analyzedCount))%Q;
          rcaPercentage :=
            Math_round ((inject_Z (Z.of_nat rcaCount) / inject_Z (Z.of_nat analyzedCount)) * 100)%Q |}.

End Dashboard.

(** ** More JavaScript primitives *)

(** [Array.prototype.join] on strings. *)
Fixpoint join (sep : string) (l : list string) : string :=
  match l with
  | [] => EmptyString
  | [x] => x
  | x :: rest => (x ++ sep ++ join sep rest)%string
  end.

(** [s.split(sep)] for a separator of one code unit: the pieces between
    the separators, of which there is always at least one. *)
Fixpoint split (sep : ascii) (s : string) : list string :=
  match s with
  | EmptyString => [EmptyString]
  | String c rest =>
      if Ascii.eqb c sep then EmptyString :: split sep rest
      else match split sep rest with
           | piece :: pieces => String c piece :: pieces
           | [] => [String c EmptyString]
           end
  end.

(** [array.includes(value)] on strings. *)
Definition array_includes (l : list string) (value : string) : bool :=
  existsb (String.eqb value) l.

Definition comma : ascii := ascii_of_N 44.
Definition newline : ascii := ascii_of_N 10.

(** ** The search filters *)

Record FilterParams := {
  clientCode : string;
  isClientCodeNegated : bool;
  clientName : string;
  f_priority : list string;              (* [priority] *)
  ticketType : list string;
  f_subject : string;                    (* [subject] *)
  isSubjectNegated : bool;
  dateFrom : string;
  dateTo : string
}.

(** The two multi-select filters. *)
Inductive ArrayFilter := Priority | TicketType.

Definition arrayFilter (key : ArrayFilter) (f : FilterParams) : list string :=
  match key with
  | Priority => f_priority f
  | TicketType => ticketType f
  end.

(** [{...prev, [key]: value}] for these two keys. *)
Definition with_arrayFilter (key : ArrayFilter) (value : list string) (prev : FilterParams)
    : FilterParams :=
  match key with
  | Priority =>
      {| clientCode := clientCode prev; isClientCodeNegated := isClientCodeNegated prev;
         clientName := clientName prev; f_priority := value; ticketType := ticketType prev;
         f_subject := f_subject prev; isSubjectNegated := isSubjectNegated prev;
         dateFrom := dateFrom prev; dateTo := dateTo prev |}
  | TicketType =>
      {| clientCode := clientCode prev; isClientCodeNegated := isClientCodeNegated prev;
         clientName := clientName prev; f_priority := f_priority prev; ticketType := value;
         f_subject := f_subject prev; isSubjectNegated := isSubjectNegated prev;
         dateFrom := dateFrom prev; dateTo := dateTo prev |}
  end.

(** [toggleArrayFilter] of the dashboard, as the function it passes to
    [setFilters]. *)
Definition toggleArrayFilter (key : ArrayFilter) (value : string) (prev : FilterParams)
    : FilterParams :=
  let current := arrayFilter key prev in
  if array_includes current value then
    with_arrayFilter key (filter (fun item => negb (String.eqb item value)) current) prev
  else
    with_arrayFilter key (current ++ [value]) prev.

(** ** ApiService.searchTickets: the query *)

Definition nonEmpty (s : string) : bool :=
  match s with
  | EmptyString => false
  | String _ _ => true
  end.

(** The clause for the client codes. *)
Definition clientCodeClause (filters : FilterParams) : list string :=
  if nonEmpty (clientCode filters) then
    let prefix := if isClientCodeNegated filters then "-" else EmptyString in
    let codes :=
      filter (fun c => (0 <? String.length c)%nat)
             (map JS.trim (split comma (clientCode filters))) in
    match codes with
    | [] => []
    | [code] => [(prefix ++ "ticketClientCode:" ++ code)%string]
    | _ => [(prefix ++ "ticketClientCode:(" ++ join " OR " codes ++ ")")%string]
    end
  else [].

(** [queryParts], after the last [push]. *)
Definition queryParts (filters : FilterParams) : list string :=
  clientCodeClause filters ++
  (if nonEmpty (clientName filters)
   then [("ticketClientName:" ++ clientName filters)%string] else []) ++
  (match f_priority filters with
   | [] => []
   | ps => [("priority:(" ++ join " OR " ps ++ ")")%string]
   end) ++
  (match ticketType filters with
   | [] => []
   | ts => [("ticketType:(" ++ join " OR " ts ++ ")")%string]
   end) ++
  (if nonEmpty (f_subject filters)
   then [((if isSubjectNegated filters then "-" else EmptyString) ++
          "subject:(" ++ f_subject filters ++ ")")%string]
   else []) ++
  (if nonEmpty (dateFrom filters) && nonEmpty (dateTo filters)
   then
     let from := (dateFrom filters ++ "T00:00:00")%string in
     let to := (dateTo filters ++ "T23:59:59.999")%string in
     [("created:[" ++ String dquote from ++ String dquote " TO " ++
       String dquote to ++ String dquote "]")%string]
   else []).

(** [queryParts.join(' AND ')] *)
Definition queryString (filters : FilterParams) : string :=
  join " AND " (queryParts filters).

(** The filters with another client code, and with other dates. *)
Definition with_clientCode (code : string) (f : FilterParams) : FilterParams :=
  {| clientCode := code; isClientCodeNegated := isClientCodeNegated f;
     clientName := clientName f; f_priority := f_priority f; ticketType := ticketType f;
     f_subject := f_subject f; isSubjectNegated := isSubjectNegated f;
     dateFrom := dateFrom f; dateTo := dateTo f |}.

Definition with_dates (from to : string) (f : FilterParams) : FilterParams :=
  {| clientCode := clientCode f; isClientCodeNegated := isClientCodeNegated f;
     clientName := clientName f; f_priority := f_priority f; ticketType := ticketType f;
     f_subject := f_subject f; isSubjectNegated := isSubjectNegated f;
     dateFrom := from; dateTo := to |}.

(** ** The CSV export *)

(** The global replace of [escapeCsv]: every double quote of the field is
    written twice. *)
Fixpoint doubleQuotes (s : string) : string :=
  match s with
  | EmptyString => EmptyString
  | String c rest =>
      if Ascii.eqb c dquote then String dquote (String dquote (doubleQuotes rest))
      else String c (doubleQuotes rest)
  end.

(** [escapeCsv] of [handleExport] (and of [handleDownload] of the report
    modal); the argument is [String(field)], or [None] for a field that is
    [null] or [undefined]. *)
Definition escapeCsv (field : option string) : string :=
  match field with
  | None => EmptyString
  | Some stringField =>
      if JS.includes stringField (String comma EmptyString) ||
         JS.includes stringField (String dquote EmptyString) ||
         JS.includes stringField (String newline EmptyString)
      then String dquote (doubleQuotes stringField ++ String dquote EmptyString)
      else stringField
  end.

(** [[...].map(escapeCsv).join(',')] *)
Definition csvRow (fields : list (option string)) : string :=
  join "," (map escapeCsv fields).

(** [[headers.join(','), ...csvRows].join('\n')] *)
Definition csvContent (headers : list string) (rows : list (list (option string))) : string :=
  join (String newline EmptyString) (join "," headers :: map csvRow rows).

(** The code unit occurs in the string. *)
Fixpoint occurs (c : ascii) (s : string) : bool :=
  match s with
  | EmptyString => false
  | String d rest => Ascii.eqb d c || occurs c rest
  end.

(** What may follow a field in a row: nothing, or a comma and the next
    fields. *)
Definition fieldEnd (r : string) : Prop :=
  r = EmptyString \/ exists r', r = String comma r'.

(** Sample filters: a client-code box that holds separators only, and a
    date range without its end. *)
Definition sampleFilters : FilterParams :=
  {| clientCode := " , ,"; isClientCodeNegated := true; clientName := "ACME";
     f_priority := ["P1"; "P2"]; ticketType := [];
     f_subject := "system down"; isSubjectNegated := false;
     dateFrom := "2024-01-01"; dateTo := EmptyString |}.

(** ** ApiService: the request URLs *)

(** The code units [encodeURIComponent] leaves as they are: the letters,
    the digits and [- _ . ! ~ * ' ( )]. *)
Definition isUnreserved (c : ascii) : bool :=
  let n := N_of_ascii c in
  ((65 <=? n) && (n <=? 90) || (97 <=? n) && (n <=? 122) || (48 <=? n) && (n <=? 57) ||
   (n =? 45) || (n =? 95) || (n =? 46) || (n =? 33) || (n =? 126) || (n =? 42) ||
   (n =? 39) || (n =? 40) || (n =? 41))%N.

Definition hexDigit (n : N) : ascii :=
  ascii_of_N (if (n <? 10)%N then 48 + n else 55 + n).

(** [%XX] for one octet. *)
Definition percentEncoded (octet : N) : string :=
  String "%" (String (hexDigit (octet / 16)) (String (hexDigit (octet mod 16)) EmptyString)).

(** A code unit below 128 is one octet of UTF-8, one from 128 to 255 is
    two. *)
Definition encodeUnit (c : ascii) : string :=
  let n := N_of_ascii c in
  if isUnreserved c then String c EmptyString
  else if (n <? 128)%N then percentEncoded n
  else (percentEncoded (192 + n / 64) ++ percentEncoded (128 + n mod 64))%string.

Fixpoint encodeURIComponent (s : string) : string :=
  match s with
  | EmptyString => EmptyString
  | String c rest => (encodeUnit c ++ encodeURIComponent rest)%string
  end.

(** The static fields of [ApiService]. *)
Record ApiService := {
  token : option string;
  proxyEnabled : bool;
  proxyUrl : string
}.

Definition DEFAULT_PROXY_URL : string := "https://corsproxy.io/?".
Definition BASE_REPORTING_URL : string := "https://support.amelia.com/api/reporting/export".

Definition getProxiedUrl (this : ApiService) (targetUrl : string) : string :=
  if negb (proxyEnabled this) then targetUrl
  else (proxyUrl this ++ encodeURIComponent targetUrl)%string.

(** [targetUrl] of [searchTickets]. *)
Definition searchTargetUrl (filters : FilterParams) : string :=
  (BASE_REPORTING_URL ++ "?index=tasks&showTotal=true&page=0&size=50&q=" ++
   encodeURIComponent (queryString filters))%string.

(** The URL [searchTickets] fetches. *)
Definition searchUrl (this : ApiService) (filters : FilterParams) : string :=
  getProxiedUrl this (searchTargetUrl filters).

(** A code unit that [encodeURIComponent] can produce. *)
Definition urlSafe (c : ascii) : bool := isUnreserved c || Ascii.eqb c "%".

(** ** ApiService.login: finding the token in the response *)

(** A value produced by [JSON.parse].  A number is kept as the text
    [String] gives for it, which is all [login] does with one; an object is
    the list of its properties in the order of [Object.keys]. *)
#[local] Set Warnings "-register-all".
Inductive Json :=
| JNull
| JBool (b : bool)
| JNumber (text : string)
| JString (s : string)
| JArray (items : list Json)
| JObject (props : list (string * Json)).

(** The elements of an array under their indices. *)
Fixpoint indexed (i : nat) (items : list Json) : list (string * Json) :=
  match items with
  | [] => []
  | x :: rest => (NilZero.string_of_uint (Nat.to_uint i), x) :: indexed (S i) rest
  end.

(** [Object.entries(json)] of an object or an array. *)
Definition entries (json : Json) : list (string * Json) :=
  match json with
  | JObject props => props
  | JArray items => indexed 0 items
  | _ => []
  end.

Fixpoint lookup (key : string) (props : list (string * Json)) : option Json :=
  match props with
  | [] => None
  | (k, v) :: rest => if String.eqb k key then Some v else lookup key rest
  end.

(** [json[key]] *)
Definition prop (json : Json) (key : string) : option Json := lookup key (entries json).

(** The first element of the list for which [f] gives something: a
    [for ... of] loop that returns from its body. *)
Fixpoint firstSome {A B} (f : A -> option B) (l : list A) : option B :=
  match l with
  | [] => None
  | x :: rest =>
      match f x with
      | Some b => Some b
      | None => firstSome f rest
      end
  end.

Definition commonKeys : list string :=
  ["aiOpsAccessToken"; "token"; "access_token"; "accessToken"; "data"; "sessionId";
   "id_token"; "idToken"].

(** 2a: [json[key] && typeof json[key] === 'string'], for the common keys. *)
Definition explicitToken (json : Json) : option string :=
  firstSome (fun key =>
               match prop json key with
               | Some (JString (String c s)) => Some (String c s)
               | _ => None
               end) commonKeys.

(** 2b: a key that contains 'token', whatever its case, and holds a string. *)
Definition tokenNamed (json : Json) : option string :=
  firstSome (fun key =>
               if JS.includes (JS.toLowerCase key) "token" then
                 match prop json key with
                 | Some (JString s) => Some s
                 | _ => None
                 end
               else None) (map fst (entries json)).

(** 2c: the first string of more than 15 code units. *)
Definition longString (json : Json) : option string :=
  firstSome (fun key =>
               match prop json key with
               | Some (JString s) => if (15 <? String.length s)%nat then Some s else None
               | _ => None
               end) (map fst (entries json)).

(** 2d: the only value, when it is a string. *)
Definition onlyString (json : Json) : option string :=
  match map snd (entries json) with
  | [JString s] => Some s
  | _ => None
  end.

(** What [login] rejects with. *)
Inductive LoginError :=
| AuthenticationFailed (status : Z) (errorText : string)
    (* new Error(`Authentication failed: ${response.status} - ${errorText}`) *)
| CouldNotFindToken (json : Json).
    (* new Error(`Could not find token in response: ${JSON.stringify(json)}`) *)

(** The [try] block after [JSON.parse]. *)
Definition tokenOf (json : Json) : LoginError + string :=
  match json with
  | JString s => inr s
  | JObject _ | JArray _ =>
      match explicitToken json with
      | Some t => inr t
      | None =>
          match tokenNamed json with
          | Some t => inr t
          | None =>
              match longString json with
              | Some t => inr t
              | None =>
                  match onlyString json with
                  | Some t => inr t
                  | None => inl (CouldNotFindToken json)
                  end
              end
          end
      end
  | JNull => inr "null"                                (* String(json) *)
  | JBool b => inr (if b then "true" else "false")
  | JNumber text => inr text
  end.

(** The response of the token endpoint: [response.ok], [response.status]
    and the text of the body. *)
Record Response := {
  ok : bool;
  resp_status : Z;
  text : string
}.

Section Login.

(** [JSON.parse]; [None] when it throws a [SyntaxError]. *)
Variable JSON_parse : string -> option Json.

(** [login], from the response on. *)
Definition login (response : Response) : LoginError + string :=
  if negb (ok response) then
    inl (AuthenticationFailed (resp_status response) (text response))
  else
    match JSON_parse (text response) with
    | Some json => tokenOf json
    | None => inr (text response)                     (* catch (e): e instanceof SyntaxError *)
    end.

End Login.

(** ** AiService.constructPrompt: the history log *)

Definition lessThan : ascii := ascii_of_N 60.
Definition greaterThan : ascii := ascii_of_N 62.

(** The global replace of a tag, [<], any code units but [>], and [>], by a
    space.  The scan is outside a tag or inside one; a [<] opens a tag when
    a [>] follows somewhere, and the tag ends at the first [>]. *)
Fixpoint stripTags_from (inTag : bool) (s : string) : string :=
  match s with
  | EmptyString => EmptyString
  | String c rest =>
      if inTag then
        if Ascii.eqb c greaterThan then String " " (stripTags_from false rest)
        else stripTags_from true rest
      else if Ascii.eqb c lessThan && occurs greaterThan rest then stripTags_from true rest
      else String c (stripTags_from false rest)
  end.

Definition stripTags (s : string) : string := stripTags_from false s.

Record HistoryFieldUpdate := {
  field : string;
  u_id : Z;
  newValue : string;
  oldValue : string
}.

Record HistoryComment := {
  c_id : Z;
  contentType : string;
  content : string;
  workflowChoice : option string
}.

(** A history entry with the optional properties the prompt reads. *)
Record HistoryEntry := {
  entry : TicketHistoryItem;
  actorName : option string;
  comment : option HistoryComment;
  fieldUpdates : option (list HistoryFieldUpdate)
}.

Definition details (h : HistoryEntry) : string :=
  match comment h with
  | Some c =>
      ("Comment: " ++ String dquote (stripTags (content c) ++ String dquote EmptyString))%string
  | None =>
      match fieldUpdates h with
      | Some (u :: us) =>
          ("Updates: " ++
           join ", " (map (fun u => (field u ++ " changed from " ++ oldValue u ++
                                     " to " ++ newValue u)%string) (u :: us)))%string
      | _ => "System/Workflow action"
      end
  end.

Definition historyLine (h : HistoryEntry) : string :=
  ("[" ++ h_created (entry h) ++ "] " ++
   JS.or_else (actorName h) (h_actorId (entry h)) ++
   " (" ++ h_source (entry h) ++ "): " ++ details h)%string.

(** [historyText] *)
Definition historyText (history : list HistoryEntry) : string :=
  join (String newline EmptyString) (map historyLine history).

(** No tag is left: no [<] is followed by a [>]. *)
Definition tagFree (s : string) : Prop :=
  forall pre post, s = (pre ++ String lessThan post)%string -> occurs greaterThan post = false.

(** A history entry whose comment carries markup. *)
Definition sampleEntry : HistoryEntry :=
  {| entry := {| h_id := 7; h_created := "2024-01-02T10:00:00"; h_actorId := "agent@acme";
                 h_source := "email" |};
     actorName := None;
     comment := Some {| c_id := 1; contentType := "text/html";
                        content := "<p>Restarted <b>server</b></p> a < b";
                        workflowChoice := None |};
     fieldUpdates := Some [{| field := "status"; u_id := 2; newValue := "RESOLVED";
                              oldValue := "ACTIVE" |}] |}.

(** ** The throughput box: [parseInt(e.target.value) || 10] *)

(** The value of a code unit as a digit: [0-9], then the letters in either
    case from 10 on. *)
Definition digitValue (c : ascii) : option N :=
  let n := N_of_ascii c in
  if ((48 <=? n) && (n <=? 57))%N then Some (n - 48)%N
  else if ((97 <=? n) && (n <=? 122))%N then Some (n - 87)%N
  else if ((65 <=? n) && (n <=? 90))%N then Some (n - 55)%N
  else None.

(** The integer the longest prefix of radix-[radix] digits denotes, with
    [acc] the value of the digits read so far; [None] when there is no
    digit at all. *)
Fixpoint readDigits (radix : N) (acc : option N) (s : string) : option N :=
  match s with
  | EmptyString => acc
  | String c rest =>
      match digitValue c with
      | Some d =>
          if (d <? radix)%N
          then readDigits radix (Some (match acc with Some a => a * radix + d | None => d end)%N) rest
          else acc
      | None => acc
      end
  end.

(** [parseInt(string)] without a radix; [None] is [NaN]. *)
Definition parseInt (string : string) : option Z :=
  let S := JS.trimStart string in
  let (sign, S1) :=
    match S with
    | String "-" rest => ((-1)%Z, rest)
    | String "+" rest => (1%Z, rest)
    | _ => (1%Z, S)
    end in
  let (R, S2) :=
    match S1 with
    | String "0" (String "x" rest) => (16%N, rest)
    | String "0" (String "X" rest) => (16%N, rest)
    | _ => (10%N, S1)
    end in
  match readDigits R None S2 with
  | None => None
  | Some mathInt => Some (sign * Z.of_N mathInt)%Z
  end.

(** [parseInt(value) || 10] *)
Definition rpmOfInput (value : string) : Z :=
  match parseInt value with
  | None => 10
  | Some 0%Z => 10
  | Some n => n
  end.

(** ** The dashboard: the order of the ticket list *)

Inductive SortOption := date_desc | date_asc | score_asc | score_desc.

(** [Array.prototype.sort] with a comparator: the sort is stable, so for a
    consistent comparator the result is the arrangement that insertion
    from the right gives, an element moving behind another one only when
    the comparator is positive on them. *)
Fixpoint insertSorted {A} (compareFn : A -> A -> Q) (x : A) (l : list A) : list A :=
  match l with
  | [] => [x]
  | y :: rest =>
      if Qlt_bool 0 (compareFn x y) then y :: insertSorted compareFn x rest
      else x :: l
  end.

Fixpoint Array_sort {A} (compareFn : A -> A -> Q) (l : list A) : list A :=
  match l with
  | [] => []
  | x :: rest => insertSorted compareFn x (Array_sort compareFn rest)
  end.

Section Sorting.

(** [new Date(t.created).getTime()] *)
Variable getTime : Ticket -> Q.

(** The comparator of [processedTickets]. *)
Definition compareTickets (sortOption : SortOption) (aiResults : Dashboard.AiResults)
    (a b : Ticket) : Q :=
  let dateA := getTime a in
  let dateB := getTime b in
  let scoreA := match Dashboard.get aiResults (ticketId a) with
                | Some r => score r | None => 0%Q end in
  let scoreB := match Dashboard.get aiResults (ticketId b) with
                | Some r => score r | None => 0%Q end in
  match sortOption with
  | date_asc => dateA - dateB
  | date_desc => dateB - dateA
  | score_asc =>
      match Dashboard.get aiResults (ticketId a), Dashboard.get aiResults (ticketId b) with
      | None, Some _ => 1
      | Some _, None => - (1)
      | _, _ => scoreA - scoreB
      end
  | score_desc => scoreB - scoreA
  end%Q.

Definition processedTickets (sortOption : SortOption) (aiResults : Dashboard.AiResults)
    (tickets : list Ticket) : list Ticket :=
  Array_sort (compareTickets sortOption aiResults) tickets.

End Sorting.


(** ** Logging in, and the requests that need the token *)

Inductive ViewState := LOGIN | DASHBOARD.

(** [ApiService.setToken] *)
Definition setToken (newToken : string) (this : ApiService) : ApiService :=
  {| token := Some newToken; proxyEnabled := proxyEnabled this; proxyUrl := proxyUrl this |}.

(** The service as the module is loaded. *)
Definition initialService : ApiService :=
  {| token := None; proxyEnabled := true; proxyUrl := DEFAULT_PROXY_URL |}.

(** [String(n)] for an integer. *)
Definition Number_toString (n : Z) : string := NilZero.string_of_int (Z.to_int n).

Definition BASE_TICKET_URL : string := "https://support.amelia.com/api/tickets".

(** [searchTickets] and [getTicketHistory] up to their request: the URL
    they fetch, or the error they throw before any request is made. *)
Definition searchRequest (this : ApiService) (filters : FilterParams) : Err + string :=
  if negb (JS.truthy (token this)) then inl (Error "Not authenticated")
  else inr (searchUrl this filters).

Definition historyRequest (this : ApiService) (id : Z) : Err + string :=
  if negb (JS.truthy (token this)) then inl (Error "Not authenticated")
  else inr (getProxiedUrl this
              (BASE_TICKET_URL ++ "/" ++ Number_toString id ++ "/history/all")%string).

(** [handleSubmit] of the login form, from the response on, with
    [onLoginSuccess] of the application: the service and the view it
    leaves. *)
Definition handleSubmit (JSON_parse : string -> option Json) (response : Response)
    (this : ApiService) (currentView : ViewState) : ApiService * ViewState :=
  match login JSON_parse response with
  | inr newToken => (setToken newToken this, DASHBOARD)
  | inl _ => (this, currentView)
  end.

(** ** Proof automation *)

(** Unfold the monad and the state setters. *)
Ltac unfold_m :=
  unfold handleStop, await, onAnalysisUpdate, setStep, setProgress,
    setCurrentProcessingId, setProcessedCount, setErrorCount, setAuthError,
    setIsRunning, update, read, emit, try_catch, throw, bind, ret in *.

(** Read an environment that rejects with [Err] values as one that
    rejects with anything. *)
Ltac narrow :=
  cbn [anyEnv anyItemEnv any_API_KEY any_probeOutcome any_item any_historyOutcome
       any_generateOutcome any_elapsedTime any_stopDuringHistory any_stopDuringGenerate
       any_stopDuringSleep] in *.

Ltac run := unfold_m; cbn -[JS.includes JS.toLowerCase String.eqb normalizeKey Qle_bool Z.ltb Z.of_nat Z.sub Qplus Qminus timeToWait delayMs] in *.

(* ================================================================== *)
(** * Properties *)
(* ================================================================== *)

(** ** Strings *)

Section StringFacts.
Local Open Scope string_scope.

Lemma append_nil_r (s : string) : s ++ EmptyString = s.
Proof. induction s; simpl; congruence. Qed.

Lemma append_assoc (a b c : string) : (a ++ b) ++ c = a ++ b ++ c.
Proof. induction a; simpl; congruence. Qed.

Lemma toLowerCase_app (a b : string) :
  JS.toLowerCase (a ++ b) = JS.toLowerCase a ++ JS.toLowerCase b.
Proof. induction a; simpl; congruence. Qed.

(** A lower-cased string splits where its image splits. *)
Lemma toLowerCase_split (s a' b' : string) :
  JS.toLowerCase s = a' ++ b' ->
  exists a b, s = a ++ b /\ JS.toLowerCase a = a' /\ JS.toLowerCase b = b'.
Proof.
  revert s. induction a' as [|c a' IH]; intros s H.
  - exists EmptyString, s. auto.
  - destruct s as [|d s]; simpl in H; [discriminate|].
    injection H as Hc Hs. destruct (IH _ Hs) as (a & b & -> & Ha & Hb).
    exists (String d a), b. simpl. repeat split; congruence.
Qed.

Lemma prefix_app (p s : string) :
  String.prefix p s = true <-> exists rest, s = p ++ rest.
Proof.
  revert s. induction p as [|c p IH]; intros s.
  - destruct s; simpl; split; eauto.
  - destruct s as [|d s]; simpl.
    + split; [discriminate | intros [r Hr]; discriminate].
    + destruct (ascii_dec c d) as [->|Hne].
      * rewrite IH. split; intros [r Hr]; exists r; simpl in *; congruence.
      * split; [discriminate | intros [r Hr]; simpl in Hr; congruence].
Qed.

Lemma includes_app (hay needle : string) :
  JS.includes hay needle = true <-> exists pre post, hay = pre ++ needle ++ post.
Proof.
  induction hay as [|c hay IH]; cbn [JS.includes].
  - rewrite orb_false_r, prefix_app. split.
    + intros [r Hr]. exists EmptyString, r. exact Hr.
    + intros (pre & post & H). destruct pre; simpl in H; [eauto | discriminate].
  - rewrite orb_true_iff, prefix_app, IH. split.
    + intros [[r Hr] | (pre & post & H)].
      * exists EmptyString, r. exact Hr.
      * exists (String c pre), post. simpl. congruence.
    + intros (pre & post & H). destruct pre as [|d pre]; simpl in H.
      * left. eauto.
      * right. injection H as _ H. eauto.
Qed.

(** [msg.toLowerCase().includes(needle)] is containment up to case. *)
Lemma includes_toLowerCase (msg needle : string) :
  JS.includes (JS.toLowerCase msg) needle = true <-> containsCI msg needle.
Proof.
  rewrite includes_app. split.
  - intros (pre' & post' & H).
    destruct (toLowerCase_split _ _ _ H) as (pre & r & -> & _ & Hr).
    destruct (toLowerCase_split _ _ _ Hr) as (mid & post & -> & Hm & _).
    exists pre, mid, post. auto.
  - intros (pre & mid & post & -> & Hm).
    exists (JS.toLowerCase pre), (JS.toLowerCase post).
    now rewrite !toLowerCase_app, Hm.
Qed.

Lemma trimStart_spec (s : string) :
  exists l, s = l ++ JS.trimStart s /\ allWhiteSpace l = true /\
            forall c, firstUnit (JS.trimStart s) = Some c -> JS.isWhiteSpace c = false.
Proof.
  induction s as [|c s IH]; cbn [JS.trimStart].
  - exists EmptyString. repeat split. discriminate.
  - destruct (JS.isWhiteSpace c) eqn:E.
    + destruct IH as (l & Hs & Hl & Hf). exists (String c l).
      cbn. rewrite E, Hl. repeat split; [congruence | exact Hf].
    + exists EmptyString. repeat split. cbn. congruence.
Qed.

Lemma trimEnd_spec (s : string) :
  exists r, s = JS.trimEnd s ++ r /\ allWhiteSpace r = true /\
            (forall c, lastUnit (JS.trimEnd s) = Some c -> JS.isWhiteSpace c = false) /\
            (forall c, firstUnit s = Some c -> JS.isWhiteSpace c = false ->
                       firstUnit (JS.trimEnd s) = Some c).
Proof.
  induction s as [|c s IH]; cbn [JS.trimEnd].
  - exists EmptyString. repeat split; discriminate.
  - destruct IH as (r & Hs & Hr & Hl & _).
    destruct (JS.trimEnd s) as [|d t] eqn:Et.
    + destruct (JS.isWhiteSpace c) eqn:E.
      * exists (String c s). cbn in Hs. subst r. cbn. rewrite E, Hr.
        repeat split; try discriminate. cbn. congruence.
      * exists s. cbn in Hs. subst r. cbn.
        repeat split; auto; congruence.
    + exists r. cbn [append]. rewrite Hs at 1. repeat split; auto.
Qed.

(** [trim] removes a run of whitespace at either end and leaves a string
    that neither begins nor ends with whitespace. *)
Lemma trim_spec (s : string) :
  exists l r, s = l ++ JS.trim s ++ r /\
              allWhiteSpace l = true /\ allWhiteSpace r = true /\
              (forall c, firstUnit (JS.trim s) = Some c -> JS.isWhiteSpace c = false) /\
              (forall c, lastUnit (JS.trim s) = Some c -> JS.isWhiteSpace c = false).
Proof.
  unfold JS.trim.
  destruct (trimStart_spec s) as (l & Hs & Hl & Hf).
  destruct (trimEnd_spec (JS.trimStart s)) as (r & Hs' & Hr & Hlast & Hfirst).
  exists l, r. split; [rewrite <- Hs'; exact Hs|]. repeat split; auto.
  intros c Hc.
  destruct (JS.trimStart s) as [|d t] eqn:Et; [cbn in Hc; discriminate|].
  assert (Hd : JS.isWhiteSpace d = false) by (apply Hf; reflexivity).
  rewrite (Hfirst d eq_refl Hd) in Hc. congruence.
Qed.

End StringFacts.

(** ** Key normalisation *)

Lemma replace_quotes_from_succ (pos : nat) (s : string) :
  replace_quotes_from (S pos) s = stripTrailingQuote s.
Proof.
  revert pos. induction s as [|c rest IH]; intros pos; simpl; [reflexivity|].
  destruct rest as [|c' r'].
  - now rewrite andb_true_r.
  - rewrite andb_false_r. now rewrite IH.
Qed.

(** The regular-expression replace strips one leading and one trailing
    quote. *)
Lemma replace_quotes_spec (s : string) :
  replace_quotes s = stripTrailingQuote (stripLeadingQuote s).
Proof.
  destruct s as [|c rest]; [reflexivity|].
  unfold replace_quotes. simpl. rewrite andb_true_r, replace_quotes_from_succ.
  destruct (isQuote c) eqn:Hq; [reflexivity|].
  simpl. rewrite Hq. now destruct rest.
Qed.

Lemma normalizeKey_spec_eq (k : string) : normalizeKey k = normalizeKey_spec k.
Proof. apply replace_quotes_spec. Qed.

(** ** AiService *)

Lemma resolveKey_override (c : ascii) (s : string) (envKey : option string) :
  resolveKey (Some (String c s)) envKey = Some (normalizeKey_spec (String c s)).
Proof. unfold resolveKey. now rewrite normalizeKey_spec_eq. Qed.

Lemma resolveKey_none (apiKey envKey : option string) :
  JS.truthy apiKey = false -> resolveKey apiKey envKey = envKey.
Proof. destruct apiKey as [[|c s]|]; simpl; congruence. Qed.

(** C9. An explicit key override is normalised before it is used: both
    [validateApiKey] and [analyzeTicket] hand the provider the override
    with surrounding whitespace trimmed and one leading and one trailing
    quote (single or double) stripped, and make no request when nothing is
    left of it.  Without an override and without an environment key,
    [validateApiKey] answers false and [analyzeTicket] throws the
    missing-key error; neither calls the provider. *)
Theorem key_normalised_before_use :
  (forall (env : Env) (c : ascii) (s : string) (w : World),
      let k := String c s in
      let used := normalizeKey_spec k in
      resolveKey (Some k) (env_API_KEY env) = Some used /\
      trace (snd (validateApiKey env (Some k) w)) =
        trace w ++ match used with EmptyString => [] | _ => [EvProbe used] end /\
      forall ie t h m,
        trace (snd (analyzeTicket env ie t h m (Some k) w)) =
          trace w ++ match used with EmptyString => [] | _ => [EvGenerate used m t h] end) /\
  (forall (env : Env) (apiKey : option string) (w : World),
      JS.truthy apiKey = false ->
      JS.truthy (env_API_KEY env) = false ->
      validateApiKey env apiKey w = (Ok false, w) /\
      forall ie t h m, analyzeTicket env ie t h m apiKey w = (Throw missingKey, w)).
Proof.
  split.
  - intros env c s w k used.
    assert (Hk : resolveKey (Some k) (env_API_KEY env) = Some used)
      by apply resolveKey_override.
    split; [exact Hk|]. split.
    + unfold validateApiKey. narrow. rewrite Hk.
      destruct used; run; [now rewrite app_nil_r|].
      now destruct (probeOutcome env).
    + intros ie t h m. unfold analyzeTicket. narrow. rewrite Hk.
      destruct used; run; [now rewrite app_nil_r|].
      destruct (any_stopDuringGenerate ie); run; now destruct (any_generateOutcome ie).
  - intros env apiKey w Ha He. split; [|intros ie t h m].
    + unfold validateApiKey. narrow. rewrite (resolveKey_none _ _ Ha).
      destruct (env_API_KEY env) as [[|c s]|]; simpl in He; try discriminate; reflexivity.
    + unfold analyzeTicket. narrow. rewrite (resolveKey_none _ _ Ha).
      destruct (env_API_KEY env) as [[|c s]|]; simpl in He; try discriminate; reflexivity.
Qed.

Lemma key_normalised_before_use_witness :
  JS.truthy (apiKey Sample.cfg) = false /\
  JS.truthy (env_API_KEY Sample.envNoKey) = false /\
  validateApiKey Sample.envNoKey (apiKey Sample.cfg) opened = (Ok false, opened) /\
  trace (snd (validateApiKey Sample.envBadKey (Some (String dquote "AIza-1 ")) opened)) =
    [EvProbe "AIza-1"].
Proof.
  split; [reflexivity|]. split; [reflexivity|]. split.
  - apply (proj2 key_normalised_before_use Sample.envNoKey (apiKey Sample.cfg) opened);
      reflexivity.
  - destruct (proj1 key_normalised_before_use Sample.envBadKey dquote "AIza-1 " opened)
      as (_ & H & _).
    exact H.
Defined.

(** ** Sample evaluations *)

Example toLowerCase_sample : JS.toLowerCase "Invalid API Key" = "invalid api key".
Proof. reflexivity. Qed.

Example includes_sample :
  JS.includes "failed: resource exhausted" "resource exhausted" = true /\
  JS.includes "quot" "quota" = false /\
  JS.includes EmptyString EmptyString = true.
Proof. repeat split. Qed.

Example normalizeKey_sample :
  normalizeKey ("  " ++ String dquote "AIza-123" ++ String dquote "  ")%string = "AIza-123" /\
  normalizeKey (String squote "k" ++ String dquote EmptyString)%string = "k" /\
  normalizeKey (String dquote EmptyString) = EmptyString /\
  normalizeKey (String dquote (String dquote "k")) = String dquote "k" /\
  normalizeKey (String dquote " k " ++ String dquote EmptyString)%string = " k ".
Proof. repeat split. Qed.

(** The four classifications the specification lists as tests. *)
Example classification_samples :
  isAuthError {| message := Some EmptyString; status := Some 401%Z |} = true /\
  isRateLimit {| message := Some "quota exceeded"; status := Some 429%Z |} = true /\
  fatal {| message := Some "boom"; status := Some 500%Z |} = false /\
  isAuthError {| message := Some "Invalid API key"; status := None |} = true.
Proof. repeat split. Qed.

(** The end-to-end scenario of the specification: five tickets at 30
    requests per minute, the third one hits the rate limit. *)
Example end_to_end_scenario :
  startAnalysis (Sample.envAt 2 (Sample.failItem Sample.quotaExceeded)) Sample.cfg
    Sample.five opened =
  (Ok tt,
   {| ui := {| step := complete; progress := 2; currentProcessingId := Some 3%Z;
               processedCount := 2; errorCount := 1;
               authError := "Analysis paused: Rate limit exceeded.";
               isRunning := false |};
      trace :=
        [EvHistory 1; EvGenerate "env-key" "gemini-2.5-flash" (Sample.tk 1) [];
         EvResult (Sample.okResult 1); EvSleep (timeToWait (delayMs 30) 500);
         EvHistory 2; EvGenerate "env-key" "gemini-2.5-flash" (Sample.tk 2) [];
         EvResult (Sample.okResult 2); EvSleep (timeToWait (delayMs 30) 500);
         EvHistory 3; EvGenerate "env-key" "gemini-2.5-flash" (Sample.tk 3) [];
         EvResult (fatalResult (Sample.tk 3) true)] |}).
Proof. reflexivity. Qed.

(** ** The loop body computes its closed form *)

(** A loop that finds the flag off does nothing, whatever the
    environment. *)
Lemma iteration_stopped_any (env : AnyEnv) cfg delay n i t w :
  isRunning (ui w) = false ->
  iteration env cfg delay n i t w = (Ok Break, w).
Proof. intros H. unfold iteration. run. now rewrite H. Qed.

Lemma loop_stopped_any (env : AnyEnv) cfg delay n i rest w :
  isRunning (ui w) = false ->
  loop env cfg delay n i rest w = (Ok tt, w).
Proof.
  intros H. destruct rest as [|t rest]; [reflexivity|].
  cbn [loop]. unfold bind. now rewrite iteration_stopped_any.
Qed.

Section Iteration.
Variables (env : Env) (cfg : AiConfig) (delay : Q) (n : nat).

Lemma iteration_stopped i t w :
  isRunning (ui w) = false ->
  iteration env cfg delay n i t w = (Ok Break, w).
Proof. intros H. unfold iteration. run. now rewrite H. Qed.

(** The [try] block ends as [outcome] says. *)
Lemma try_body_outcome (ie : ItemEnv) t w :
  fst (try_body env cfg ie t w) =
    match outcome env cfg ie t with
    | inl e => Throw e
    | inr _ => Ok Next
    end.
Proof.
  unfold try_body, getTicketHistory, analyzeTicket, outcome. run.
  destruct (stopDuringHistory ie); cbn;
    (destruct (historyOutcome ie) as [e|h]; cbn; [reflexivity|];
     destruct (resolveKey (apiKey cfg) (env_API_KEY env)) as [[|c s]|]; cbn;
     try reflexivity;
     destruct (stopDuringGenerate ie); cbn;
     destruct (generateOutcome ie); reflexivity).
Qed.

Lemma iteration_run i t w :
  isRunning (ui w) = true ->
  iteration env cfg delay n i t w =
    (Ok (if breaks env cfg (item env i) t then Break else Next),
     afterItem env cfg delay n i t w).
Proof.
  intros H. destruct w as [m tr]. cbn [ui trace] in H.
  unfold iteration, throttle, try_body, catch_body, getTicketHistory, analyzeTicket,
    afterItem, sleepOf, processed, breaks, resultOf, callEvents, stoppedInFlight,
    outcome, fatal, pressStop.
  run. rewrite H. cbn.
  destruct (stopDuringHistory (item env i)); cbn;
    (destruct (historyOutcome (item env i)) as [e|h]; cbn;
     [ destruct (isAuthError e || isRateLimit e); cbn
     | destruct (resolveKey (apiKey cfg) (env_API_KEY env)) as [[|c s]|]; cbn;
       [ destruct (isAuthError missingKey || isRateLimit missingKey); cbn
       | destruct (stopDuringGenerate (item env i)); cbn;
         (destruct (generateOutcome (item env i)) as [e| |e|p]; cbn;
          [ destruct (isAuthError e || isRateLimit e); cbn
          | destruct (isAuthError (Error "Empty response from AI") ||
                      isRateLimit (Error "Empty response from AI")); cbn
          | destruct (isAuthError e || isRateLimit e); cbn
          | ])
       | destruct (isAuthError missingKey || isRateLimit missingKey); cbn ] ]);
    rewrite <- ?app_assoc; cbn [app];
    try reflexivity;
    try rewrite ?H, ?andb_true_r, ?andb_false_r;
    (destruct (Z.of_nat i <? Z.of_nat n - 1)%Z; cbn;
     [ destruct (Qlt_bool 0 (timeToWait delay (elapsedTime (item env i)))); cbn;
       [ destruct (stopDuringSleep (item env i)); cbn | ]
     | ]);
    rewrite <- ?app_assoc; cbn [app]; reflexivity.
Qed.

(** An iteration that breaks leaves the loop switched off. *)
Lemma afterItem_breaks i t w :
  breaks env cfg (item env i) t = true ->
  isRunning (ui (afterItem env cfg delay n i t w)) = false.
Proof.
  unfold afterItem, breaks, processed. intros H. rewrite H.
  destruct (outcome env cfg (item env i) t) as [e|r]; [|discriminate].
  now rewrite H.
Qed.

Lemma loop_stopped i rest w :
  isRunning (ui w) = false ->
  loop env cfg delay n i rest w = (Ok tt, w).
Proof.
  intros H. destruct rest as [|t rest]; [reflexivity|].
  cbn [loop]. unfold bind. now rewrite iteration_stopped.
Qed.

(** The loop is the iteration of [afterItem] while the flag is on. *)
Lemma loop_step i t rest w :
  isRunning (ui w) = true ->
  loop env cfg delay n i (t :: rest) w =
    loop env cfg delay n (S i) rest (afterItem env cfg delay n i t w).
Proof.
  intros H. cbn [loop]. unfold bind at 1. rewrite iteration_run by exact H.
  destruct (breaks env cfg (item env i) t) eqn:Hb; [|reflexivity].
  rewrite loop_stopped; [reflexivity|]. now apply afterItem_breaks.
Qed.

Lemma loop_total i rest w :
  fst (loop env cfg delay n i rest w) = Ok tt.
Proof.
  revert i w. induction rest as [|t rest IH]; intros i w; [reflexivity|].
  destruct (isRunning (ui w)) eqn:H.
  - rewrite loop_step by exact H. apply IH.
  - now rewrite loop_stopped.
Qed.

Lemma loop_app i pre post w :
  snd (loop env cfg delay n i (pre ++ post) w) =
    snd (loop env cfg delay n (length pre + i) post
           (snd (loop env cfg delay n i pre w))).
Proof.
  revert i w. induction pre as [|t pre IH]; intros i w; [reflexivity|].
  cbn [app length]. destruct (isRunning (ui w)) eqn:H.
  - rewrite !loop_step by exact H. rewrite IH. rewrite Nat.add_succ_r. reflexivity.
  - rewrite loop_stopped by exact H.
    rewrite (loop_stopped i (t :: pre) w H). cbn [snd].
    now rewrite loop_stopped by exact H.
Qed.

End Iteration.

(** [startAnalysis] in terms of its loop. *)
Lemma startAnalysis_run (env : Env) cfg tickets w :
  startAnalysis env cfg tickets w =
    (Ok tt,
     if probeAccepts env cfg then
       finished (snd (loop env cfg (delayMs (rpm cfg)) (length tickets) 0 tickets
                        (entering env cfg w)))
     else rejected env cfg w).
Proof.
  unfold startAnalysis, probeAccepts, entering, rejected, probeEvents, finished,
    validateApiKey, resolveKey.
  destruct w as [m tr].
  destruct (apiKey cfg) as [[|c s]|]; cbn [JS.truthy].
  1,3: run; rewrite app_nil_r;
    match goal with |- context [loop ?a ?b ?c ?d ?e ?f ?g] =>
      pose proof (loop_total env b c d e f g) as Ht;
      destruct (loop a b c d e f g) as [r w1] end;
    cbn in Ht; subst; reflexivity.
  destruct (normalizeKey (String c s)) as [|c' s'].
  - run. now rewrite app_nil_r.
  - narrow. destruct (probeOutcome env) as [e|]; run; [reflexivity|].
    match goal with |- context [loop ?a ?b ?c ?d ?e ?f ?g] =>
      pose proof (loop_total env b c d e f g) as Ht;
      destruct (loop a b c d e f g) as [r w1] end.
    cbn in Ht; subst; reflexivity.
Qed.

(** ** Reading the trace of an iteration *)

Lemma results_app a b : results (a ++ b) = results a ++ results b.
Proof. apply flat_map_app. Qed.

Lemma historyCalls_app a b : historyCalls (a ++ b) = historyCalls a ++ historyCalls b.
Proof. apply flat_map_app. Qed.

Lemma generateCalls_app a b : generateCalls (a ++ b) = generateCalls a ++ generateCalls b.
Proof. apply flat_map_app. Qed.

Lemma probes_app a b : probes (a ++ b) = probes a ++ probes b.
Proof. apply flat_map_app. Qed.

Lemma sleeps_app a b : sleeps (a ++ b) = sleeps a ++ sleeps b.
Proof. apply flat_map_app. Qed.

Create Rewrite HintDb read_trace.
#[local] Hint Rewrite results_app historyCalls_app generateCalls_app probes_app
  sleeps_app : read_trace.

Section Trace.
Variables (env : Env) (cfg : AiConfig) (delay : Q) (n : nat).

Lemma callEvents_read ie t :
  results (callEvents env cfg ie t) = [] /\
  historyCalls (callEvents env cfg ie t) = [ticketId t] /\
  probes (callEvents env cfg ie t) = [] /\
  sleeps (callEvents env cfg ie t) = [] /\
  (length (generateCalls (callEvents env cfg ie t)) <= 1)%nat.
Proof.
  unfold callEvents.
  destruct (historyOutcome ie), (resolveKey (apiKey cfg) (env_API_KEY env)) as [[|c s]|];
    cbn; repeat split; auto.
Qed.

Lemma itemEvents_read i t :
  results (itemEvents env cfg delay n i t) = [resultOf env cfg (item env i) t] /\
  historyCalls (itemEvents env cfg delay n i t) = [ticketId t] /\
  probes (itemEvents env cfg delay n i t) = [] /\
  (length (generateCalls (itemEvents env cfg delay n i t)) <= 1)%nat.
Proof.
  unfold itemEvents.
  destruct (callEvents_read (item env i) t) as (Hr & Hh & Hp & _ & Hg).
  rewrite results_app, historyCalls_app, probes_app, generateCalls_app, Hr, Hh, Hp.
  destruct (Z.of_nat i <? Z.of_nat n - 1)%Z;
    [destruct (Qlt_bool 0 (timeToWait delay (elapsedTime (item env i))))|];
    cbn; rewrite ?app_nil_r; repeat split; auto.
Qed.

Lemma eventsFrom_read i pre :
  results (eventsFrom env cfg delay n i pre) = resultsFrom env cfg i pre /\
  historyCalls (eventsFrom env cfg delay n i pre) = map ticketId pre /\
  probes (eventsFrom env cfg delay n i pre) = [] /\
  (length (generateCalls (eventsFrom env cfg delay n i pre)) <= length pre)%nat.
Proof.
  revert i. induction pre as [|t pre IH]; intros i;
    cbn [eventsFrom resultsFrom map length]; [cbn; auto|].
  destruct (IH (S i)) as (Hr & Hh & Hp & Hg).
  destruct (itemEvents_read i t) as (Hr1 & Hh1 & Hp1 & Hg1).
  rewrite results_app, historyCalls_app, probes_app, generateCalls_app, length_app,
    Hr, Hh, Hp, Hr1, Hh1, Hp1.
  cbn [app]. repeat split; auto. cbn [length]. lia.
Qed.

Lemma resultsFrom_length i pre :
  length (resultsFrom env cfg i pre) = length pre.
Proof. revert i; induction pre; intros; cbn; auto. Qed.

(** ** An iteration that passes *)

Lemma processed_keeps ie t m :
  breaks env cfg ie t = false ->
  stoppedInFlight env cfg ie = false ->
  isRunning (processed env cfg ie t m) = isRunning m /\
  step (processed env cfg ie t m) = step m /\
  authError (processed env cfg ie t m) = authError m.
Proof.
  intros Hb Hs. unfold processed, breaks in *. rewrite Hs.
  destruct (outcome env cfg ie t) as [e|r]; [rewrite Hb|]; repeat split.
Qed.

Lemma afterItem_passes i t w :
  isRunning (ui w) = true ->
  passes env cfg delay n i t = true ->
  let w1 := afterItem env cfg delay n i t w in
  trace w1 = trace w ++ itemEvents env cfg delay n i t /\
  isRunning (ui w1) = true /\
  step (ui w1) = step (ui w) /\
  authError (ui w1) = authError (ui w) /\
  progress (ui w1) = (i + 1)%nat.
Proof.
  intros Hrun Hp. unfold passes in Hp.
  apply andb_prop in Hp. destruct Hp as [Hp Hsl].
  apply andb_prop in Hp. destruct Hp as [Hb Hfl].
  apply negb_true_iff in Hb, Hfl, Hsl.
  destruct (processed_keeps (item env i) t (ui w) Hb Hfl) as (Kr & Ks & Ka).
  unfold afterItem, itemEvents, sleepOf. rewrite Hb. cbn [isRunning with_progress].
  rewrite Kr, Hrun, andb_true_r.
  unfold stoppedInSleep in Hsl.
  destruct (Z.of_nat i <? Z.of_nat n - 1)%Z;
    [destruct (Qlt_bool 0 (timeToWait delay (elapsedTime (item env i))))|];
    cbn [andb] in Hsl; try rewrite Hsl;
    cbn [ui trace pressStop isRunning step authError progress with_progress];
    rewrite <- ?app_assoc, ?app_nil_r, ?Kr, ?Ks, ?Ka; repeat split; auto.
Qed.

(** An iteration that does not pass switches the loop off. *)
Lemma afterItem_halts i t w :
  passes env cfg delay n i t = false ->
  isRunning (ui (afterItem env cfg delay n i t w)) = false.
Proof.
  intros Hp. unfold passes in Hp.
  destruct (breaks env cfg (item env i) t) eqn:Hb; [now apply afterItem_breaks|].
  unfold afterItem. rewrite Hb.
  destruct (stoppedInFlight env cfg (item env i)) eqn:Hfl.
  - assert (Hoff : isRunning (processed env cfg (item env i) t (ui w)) = false).
    { unfold processed. rewrite Hfl. cbn [pressStop].
      destruct (outcome env cfg (item env i) t) as [e|r]; [destruct (fatal e)|]; reflexivity. }
    unfold sleepOf. cbn [isRunning with_progress]. rewrite Hoff, andb_false_r. exact Hoff.
  - cbn [negb andb] in Hp. apply negb_false_iff in Hp. unfold stoppedInSleep in Hp.
    apply andb_prop in Hp. destruct Hp as [Hp Hst].
    apply andb_prop in Hp. destruct Hp as [Hlt Hq].
    unfold sleepOf. rewrite Hlt, Hq, Hst. cbn [andb].
    destruct (isRunning (with_progress (i + 1) (processed env cfg (item env i) t (ui w))))
      eqn:E; [reflexivity | exact E].
Qed.

(** ** A run of iterations that pass *)

Lemma loop_passes pre :
  forall i w,
    isRunning (ui w) = true ->
    (forall j t, nth_error pre j = Some t ->
                 passes env cfg delay n (i + j) t = true) ->
    let w1 := snd (loop env cfg delay n i pre w) in
    trace w1 = trace w ++ eventsFrom env cfg delay n i pre /\
    isRunning (ui w1) = true /\
    step (ui w1) = step (ui w) /\
    authError (ui w1) = authError (ui w) /\
    (pre <> [] -> progress (ui w1) = (i + length pre)%nat).
Proof.
  induction pre as [|t pre IH]; intros i w Hrun Hb.
  - cbn. rewrite app_nil_r. repeat split; auto. congruence.
  - rewrite loop_step by exact Hrun.
    assert (Ht : passes env cfg delay n i t = true).
    { specialize (Hb 0%nat t eq_refl). now rewrite Nat.add_0_r in Hb. }
    destruct (afterItem_passes i t w Hrun Ht) as (Htr & Hr & Hs & Ha & Hp).
    destruct (IH (S i) (afterItem env cfg delay n i t w) Hr) as (Htr' & Hr' & Hs' & Ha' & Hp').
    { intros j t' Hj. specialize (Hb (S j) t' Hj). now rewrite Nat.add_succ_r in Hb. }
    cbn zeta. rewrite Htr', Htr, Hs', Hs, Ha', Ha, <- app_assoc.
    repeat split; auto. intros _.
    destruct pre as [|t' pre'].
    + cbn. rewrite Hp. reflexivity.
    + rewrite Hp' by discriminate. cbn [length]. lia.
Qed.

(** Conversely, a loop that is still running after [pre] has seen every
    item of [pre] pass. *)
Lemma loop_running_passes pre :
  forall i w,
    isRunning (ui (snd (loop env cfg delay n i pre w))) = true ->
    forall j t, nth_error pre j = Some t -> passes env cfg delay n (i + j) t = true.
Proof.
  induction pre as [|x pre IH]; intros i w Hend j t Hj.
  - destruct j; discriminate.
  - assert (Hrun : isRunning (ui w) = true).
    { destruct (isRunning (ui w)) eqn:E; [reflexivity|].
      rewrite loop_stopped in Hend by exact E. cbn in Hend. congruence. }
    rewrite loop_step in Hend by exact Hrun.
    assert (Hx : passes env cfg delay n i x = true).
    { destruct (passes env cfg delay n i x) eqn:E; [reflexivity|].
      rewrite loop_stopped in Hend by (now apply afterItem_halts).
      cbn [snd] in Hend. rewrite afterItem_halts in Hend by exact E. discriminate. }
    destruct j as [|j].
    + cbn in Hj. injection Hj as <-. now rewrite Nat.add_0_r.
    + cbn in Hj. rewrite Nat.add_succ_r.
      apply (IH (S i) (afterItem env cfg delay n i x w) Hend j t Hj).
Qed.

(** ** A fatal iteration *)

Lemma loop_fatal i t rest w e :
  isRunning (ui w) = true ->
  outcome env cfg (item env i) t = inl e ->
  fatal e = true ->
  loop env cfg delay n i (t :: rest) w =
    (Ok tt,
     {| ui := with_authError (fatalAlert (isRateLimit e))
                (with_step complete (with_isRunning false
                   (with_errorCount (S (errorCount (ui w)))
                      (with_currentProcessingId (Some (ticketId t)) (ui w)))));
        trace := trace w ++ callEvents env cfg (item env i) t ++
                   [EvResult (fatalResult t (isRateLimit e))] |}).
Proof.
  intros Hrun Ho Hf.
  assert (Hb : breaks env cfg (item env i) t = true) by (unfold breaks; now rewrite Ho).
  rewrite loop_step by exact Hrun.
  rewrite loop_stopped by now apply afterItem_breaks.
  f_equal. unfold afterItem. rewrite Hb. unfold processed, resultOf. rewrite Ho, Hf.
  now destruct (stoppedInFlight env cfg (item env i)).
Qed.

End Trace.

(** ** The failure tests, in words *)

Lemma status_of_eq (e : Err) (c : Z) :
  c <> 0%Z -> ((status_of e =? c)%Z = true <-> status e = Some c).
Proof.
  intros Hc. unfold status_of. destruct (status e) as [s|].
  - rewrite Z.eqb_eq. split; congruence.
  - split; [|discriminate]. intros H. apply Z.eqb_eq in H. congruence.
Qed.

Lemma msg_of_includes (e : Err) (needle : string) :
  needle <> EmptyString ->
  (JS.includes (msg_of e) needle = true <->
   exists m, message e = Some m /\ containsCI m needle).
Proof.
  intros Hn. unfold msg_of. destruct (message e) as [m|].
  - rewrite includes_toLowerCase. split.
    + intros H. eauto.
    + intros (m' & Hm & H). congruence.
  - split.
    + destruct needle; [congruence|discriminate].
    + intros (m' & Hm & _). discriminate.
Qed.

Lemma isRateLimit_spec (e : Err) : isRateLimit e = true <-> rateLimitSignal e.
Proof.
  unfold isRateLimit, rateLimitSignal.
  rewrite !orb_true_iff, status_of_eq by discriminate.
  rewrite !msg_of_includes by discriminate.
  split.
  - intros [[[[H|H]|H]|H]|H]; auto;
      destruct H as (m & Hm & H); right; exists m; auto.
  - intros [H|(m & Hm & [H|[H|[H|H]]])]; eauto 10.
Qed.

Lemma isAuthError_spec (e : Err) :
  isAuthError e = true <->
  (authSignal e \/ exists m, message e = Some m /\ containsCI m "401").
Proof.
  unfold isAuthError, authSignal.
  rewrite !orb_true_iff, status_of_eq by discriminate.
  rewrite !msg_of_includes by discriminate.
  split.
  - intros [[[H|H]|H]|H]; auto;
      destruct H as (m & Hm & H); eauto 10.
  - intros [[H|(m & Hm & [H|H])]|H]; eauto 10.
Qed.

(** ** What any run leaves in the trace *)

Lemma afterItem_trace env cfg delay n i t w :
  exists tr, trace (afterItem env cfg delay n i t w) = trace w ++ tr /\
             results tr = [resultOf env cfg (item env i) t] /\
             historyCalls tr = [ticketId t] /\
             probes tr = [].
Proof.
  destruct (callEvents_read env cfg (item env i) t) as (Hr & Hh & Hp & _ & _).
  unfold afterItem.
  destruct (breaks env cfg (item env i) t);
    [|destruct (sleepOf delay n i (item env i) _) as [ms|]]; cbn [trace].
  1,3: eexists; split; [reflexivity|];
    rewrite results_app, historyCalls_app, probes_app, Hr, Hh, Hp; now cbn.
  rewrite <- app_assoc. eexists; split; [reflexivity|].
  rewrite !results_app, !historyCalls_app, !probes_app, Hr, Hh, Hp. now cbn.
Qed.

(** The loop processes an initial segment of its tickets, in order: one
    history call and one result for each, and no validation request. *)
Lemma loop_read (env : Env) cfg delay n rest :
  forall i w,
  exists m tr,
    (m <= length rest)%nat /\
    trace (snd (loop env cfg delay n i rest w)) = trace w ++ tr /\
    results tr = firstn m (resultsFrom env cfg i rest) /\
    historyCalls tr = map ticketId (firstn m rest) /\
    probes tr = [].
Proof.
  induction rest as [|t rest IH]; intros i w.
  - exists 0%nat, []. cbn. rewrite app_nil_r. repeat split; auto.
  - destruct (isRunning (ui w)) eqn:Hrun.
    + rewrite loop_step by exact Hrun.
      destruct (afterItem_trace env cfg delay n i t w) as (tr1 & H1 & R1 & C1 & P1).
      destruct (IH (S i) (afterItem env cfg delay n i t w)) as (m & tr & Hm & H & R & C & P).
      exists (S m), (tr1 ++ tr). split; [cbn; lia|].
      rewrite H, H1, <- app_assoc, results_app, historyCalls_app, probes_app, R1, C1, P1, R, C, P.
      repeat split; reflexivity.
    + rewrite loop_stopped by exact Hrun.
      exists 0%nat, []. cbn. rewrite app_nil_r. repeat split; auto. lia.
Qed.

(** ** Runs that reach a given item *)

Lemma probeEvents_read env cfg :
  results (probeEvents env cfg) = [] /\
  historyCalls (probeEvents env cfg) = [] /\
  generateCalls (probeEvents env cfg) = [] /\
  sleeps (probeEvents env cfg) = [].
Proof.
  unfold probeEvents.
  destruct (apiKey cfg) as [[|c s]|]; auto.
  destruct (normalizeKey (String c s)); auto.
Qed.

Lemma firstn_succ_nth {A} (l : list A) (k : nat) (x : A) :
  nth_error l k = Some x -> firstn (S k) l = firstn k l ++ [x].
Proof.
  revert l. induction k as [|k IH]; intros [|y l] H; try discriminate.
  - cbn in *. congruence.
  - cbn in H. cbn [firstn app]. cbn [firstn] in IH. now rewrite (IH l H).
Qed.

Lemma reaches_firstn env cfg tickets k :
  reaches env cfg tickets k ->
  forall j t, nth_error (firstn k tickets) j = Some t ->
              passes env cfg (delayMs (rpm cfg)) (length tickets) (0 + j) t = true.
Proof.
  intros H j t Hj. rewrite nth_error_firstn in Hj.
  destruct (Nat.ltb_spec j k); [|discriminate]. now apply H.
Qed.

(** [reaches] says exactly that the loop is still running when it comes to
    item [k]. *)
Lemma reaches_exact env cfg tickets k w0 :
  reaches env cfg tickets k <->
  isRunning (ui (snd (loop env cfg (delayMs (rpm cfg)) (length tickets) 0
                        (firstn k tickets) (entering env cfg w0)))) = true.
Proof.
  split.
  - intros H.
    apply (loop_passes env cfg (delayMs (rpm cfg)) (length tickets) (firstn k tickets) 0
             (entering env cfg w0) eq_refl (reaches_firstn env cfg tickets k H)).
  - intros H j t Hj Ht.
    apply (loop_running_passes env cfg _ _ _ 0%nat _ H j t).
    rewrite nth_error_firstn.
    destruct (Nat.ltb_spec j k); [exact Ht | lia].
Qed.

(** The run arrives at item [k] with the loop running when the validation
    stage lets it through and every item before [k] passes. *)
Lemma run_prefix env cfg tickets k t w0 :
  probeAccepts env cfg = true ->
  nth_error tickets k = Some t ->
  reaches env cfg tickets k ->
  exists w1,
    snd (startAnalysis env cfg tickets w0) =
      finished (snd (loop env cfg (delayMs (rpm cfg)) (length tickets) k
                       (t :: skipn (S k) tickets) w1)) /\
    trace w1 = trace w0 ++ probeEvents env cfg ++
               eventsFrom env cfg (delayMs (rpm cfg)) (length tickets) 0 (firstn k tickets) /\
    isRunning (ui w1) = true /\
    step (ui w1) = processing /\
    authError (ui w1) = EmptyString /\
    progress (ui w1) = k.
Proof.
  intros Hacc Hk Hb.
  set (d := delayMs (rpm cfg)). set (n := length tickets).
  set (pre := firstn k tickets).
  exists (snd (loop env cfg d n 0 pre (entering env cfg w0))).
  assert (Hlen : length pre = k).
  { subst pre. rewrite length_firstn. apply Nat.min_l.
    apply Nat.lt_le_incl, nth_error_Some. congruence. }
  destruct (loop_passes env cfg d n pre 0 (entering env cfg w0) eq_refl
              (reaches_firstn env cfg tickets k Hb))
    as (Htr & Hr & Hs & Ha & Hp).
  split; [|repeat split; auto].
  - rewrite startAnalysis_run, Hacc. cbn [snd]. f_equal.
    transitivity (snd (loop env cfg d n 0 (pre ++ t :: skipn (S k) tickets)
                         (entering env cfg w0))).
    + subst pre. now rewrite firstn_skipn_middle.
    + rewrite loop_app, Hlen, Nat.add_0_r. reflexivity.
  - rewrite Htr. cbn [entering trace]. now rewrite <- app_assoc.
  - destruct pre as [|t' pre'] eqn:Hpre.
    + cbn in Hlen. subst k. reflexivity.
    + rewrite Hp by discriminate. cbn [Nat.add]. exact Hlen.
Qed.

(** A fatal failure at item [k] of such a run. *)
Lemma run_fatal_at env cfg tickets k t e w0 :
  probeAccepts env cfg = true ->
  nth_error tickets k = Some t ->
  reaches env cfg tickets k ->
  outcome env cfg (item env k) t = inl e ->
  fatal e = true ->
  let w := snd (startAnalysis env cfg tickets w0) in
  trace w = trace w0 ++ probeEvents env cfg ++
            eventsFrom env cfg (delayMs (rpm cfg)) (length tickets) 0 (firstn k tickets) ++
            callEvents env cfg (item env k) t ++
            [EvResult (fatalResult t (isRateLimit e))] /\
  step (ui w) = complete /\
  isRunning (ui w) = false /\
  authError (ui w) = fatalAlert (isRateLimit e) /\
  progress (ui w) = k.
Proof.
  intros Hacc Hk Hb Ho Hf.
  destruct (run_prefix env cfg tickets k t w0 Hacc Hk Hb)
    as (w1 & Hrun & Htr & Hr & Hs & Ha & Hp).
  cbn zeta. rewrite Hrun.
  rewrite (loop_fatal env cfg _ _ k t _ w1 e Hr Ho Hf).
  cbn. rewrite Htr, <- !app_assoc. repeat split; auto.
Qed.

Lemma run_fatal_read env cfg tickets k t e w0 :
  probeAccepts env cfg = true ->
  nth_error tickets k = Some t ->
  reaches env cfg tickets k ->
  outcome env cfg (item env k) t = inl e ->
  fatal e = true ->
  let w := snd (startAnalysis env cfg tickets w0) in
  results (trace w) =
    results (trace w0) ++ resultsFrom env cfg 0 (firstn k tickets) ++
    [fatalResult t (isRateLimit e)] /\
  historyCalls (trace w) =
    historyCalls (trace w0) ++ map ticketId (firstn (S k) tickets) /\
  (length (generateCalls (trace w)) <= length (generateCalls (trace w0)) + S k)%nat /\
  trace w = trace w0 ++ probeEvents env cfg ++
            eventsFrom env cfg (delayMs (rpm cfg)) (length tickets) 0 (firstn k tickets) ++
            callEvents env cfg (item env k) t ++
            [EvResult (fatalResult t (isRateLimit e))] /\
  batchStatus (ui w) = Stopped (if isRateLimit e then RateLimited else AuthFailed).
Proof.
  intros Hacc Hk Hb Ho Hf.
  destruct (run_fatal_at env cfg tickets k t e w0 Hacc Hk Hb Ho Hf)
    as (Htr & Hs & Hr & Ha & Hp).
  cbn zeta.
  set (w := snd (startAnalysis env cfg tickets w0)) in *.
  destruct (probeEvents_read env cfg) as (P1 & P2 & P3 & _).
  destruct (eventsFrom_read env cfg (delayMs (rpm cfg)) (length tickets) 0 (firstn k tickets))
    as (E1 & E2 & _ & E4).
  destruct (callEvents_read env cfg (item env k) t) as (C1 & C2 & _ & _ & C5).
  assert (Hlen : length (firstn k tickets) = k).
  { rewrite length_firstn. apply Nat.min_l.
    apply Nat.lt_le_incl, nth_error_Some. congruence. }
  split; [|split; [|split; [|split]]].
  - rewrite Htr. autorewrite with read_trace. rewrite P1, E1, C1. reflexivity.
  - rewrite Htr. autorewrite with read_trace. rewrite P2, E2, C2. cbn -[firstn]. f_equal.
    now rewrite (firstn_succ_nth _ _ _ Hk), map_app.
  - rewrite Htr, !generateCalls_app, !length_app, P3.
    replace (generateCalls [EvResult (fatalResult t (isRateLimit e))]) with (@nil Z)
      by reflexivity.
    cbn [length]. rewrite Hlen in E4. lia.
  - exact Htr.
  - destruct (ui w) as [st pr cur pc ec ae run]. cbn in Hs, Ha. subst st ae.
    now destruct (isRateLimit e).
Qed.

(** The result of an item the run reaches is delivered, after those of the
    items before it. *)
Lemma run_delivers_at env cfg tickets k t w0 :
  probeAccepts env cfg = true ->
  nth_error tickets k = Some t ->
  reaches env cfg tickets k ->
  exists rs,
    results (trace (snd (startAnalysis env cfg tickets w0))) =
      results (trace w0) ++ resultsFrom env cfg 0 (firstn k tickets) ++
      resultOf env cfg (item env k) t :: rs.
Proof.
  intros Hacc Hk Hb.
  destruct (run_prefix env cfg tickets k t w0 Hacc Hk Hb)
    as (w1 & Hrun & Htr & Hr & _).
  rewrite Hrun, loop_step by exact Hr. cbn [finished trace].
  destruct (afterItem_trace env cfg (delayMs (rpm cfg)) (length tickets) k t w1)
    as (tr1 & H1 & R1 & _).
  destruct (loop_read env cfg (delayMs (rpm cfg)) (length tickets) (skipn (S k) tickets)
              (S k) (afterItem env cfg (delayMs (rpm cfg)) (length tickets) k t w1))
    as (m & tr & _ & H & _).
  destruct (probeEvents_read env cfg) as (P1 & _).
  destruct (eventsFrom_read env cfg (delayMs (rpm cfg)) (length tickets) 0 (firstn k tickets))
    as (E1 & _).
  exists (results tr). rewrite H, H1, Htr. autorewrite with read_trace.
  rewrite P1, E1, R1. cbn [app]. now rewrite <- !app_assoc.
Qed.

(** ** Fatal failures *)

(** C3 (amended). Whenever the failure of an item is classified fatal, the
    loop hands [onAnalysisUpdate] a synthetic failure result tagged with the
    reason, raises the failure counter, records the reason as the batch
    status and ends: no throttle timer is started and no item that follows
    is dispatched.  Neither [progress] nor the success counter moves. *)
Theorem fatal_failure_stops_the_batch env cfg delay n i t rest w e :
  isRunning (ui w) = true ->
  outcome env cfg (item env i) t = inl e ->
  fatal e = true ->
  let w' := snd (loop env cfg delay n i (t :: rest) w) in
  fst (loop env cfg delay n i (t :: rest) w) = Ok tt /\
  trace w' = trace w ++ callEvents env cfg (item env i) t ++
             [EvResult (fatalResult t (isRateLimit e))] /\
  sleeps (trace w') = sleeps (trace w) /\
  historyCalls (trace w') = historyCalls (trace w) ++ [ticketId t] /\
  errorCount (ui w') = S (errorCount (ui w)) /\
  progress (ui w') = progress (ui w) /\
  processedCount (ui w') = processedCount (ui w) /\
  isRunning (ui w') = false /\
  batchStatus (ui w') = Stopped (if isRateLimit e then RateLimited else AuthFailed).
Proof.
  intros Hrun Ho Hf. cbn zeta.
  rewrite (loop_fatal env cfg delay n i t rest w e Hrun Ho Hf). cbn [fst snd ui trace].
  destruct (callEvents_read env cfg (item env i) t) as (_ & C2 & _ & C4 & _).
  split; [reflexivity|]. split; [reflexivity|].
  split; [now rewrite !sleeps_app, C4, app_nil_r|].
  split; [now rewrite !historyCalls_app, C2, app_nil_r|].
  repeat (split; [reflexivity|]).
  now destruct (isRateLimit e).
Qed.

Lemma fatal_failure_stops_the_batch_witness :
  isRunning (ui (entering (Sample.envAt 0 (Sample.failItem Sample.quotaExceeded))
                          Sample.cfg opened)) = true /\
  fatal Sample.quotaExceeded = true /\
  batchStatus
    (ui (snd (loop (Sample.envAt 0 (Sample.failItem Sample.quotaExceeded)) Sample.cfg
                (delayMs 30) 3 0 Sample.three
                (entering (Sample.envAt 0 (Sample.failItem Sample.quotaExceeded))
                   Sample.cfg opened)))) = Stopped RateLimited.
Proof.
  split; [reflexivity|]. split; [reflexivity|].
  apply (fatal_failure_stops_the_batch
           (Sample.envAt 0 (Sample.failItem Sample.quotaExceeded)) Sample.cfg
           (delayMs 30) 3 0 (Sample.tk 101) [Sample.tk 102; Sample.tk 103]
           (entering (Sample.envAt 0 (Sample.failItem Sample.quotaExceeded)) Sample.cfg opened)
           Sample.quotaExceeded eq_refl eq_refl eq_refl).
Defined.

(** C3, as stated, fails: the second of three tickets fails with status
    401; the run ends with two results delivered, yet [progress] is 1 and
    the success counter is 1, which is where the first ticket alone leaves
    them. *)
Lemma fatal_failure_is_not_counted :
  fatal Sample.unauthorized = true /\
  progress (ui (snd (startAnalysis Sample.envOk Sample.cfg [Sample.tk 101] opened))) = 1%nat /\
  processedCount (ui (snd (startAnalysis Sample.envOk Sample.cfg [Sample.tk 101] opened))) =
    1%nat /\
  results (trace (snd (startAnalysis (Sample.envAt 1 (Sample.failItem Sample.unauthorized))
                         Sample.cfg Sample.three opened))) =
    [Sample.okResult 101; fatalResult (Sample.tk 102) false] /\
  progress (ui (snd (startAnalysis (Sample.envAt 1 (Sample.failItem Sample.unauthorized))
                       Sample.cfg Sample.three opened))) = 1%nat /\
  processedCount (ui (snd (startAnalysis (Sample.envAt 1 (Sample.failItem Sample.unauthorized))
                             Sample.cfg Sample.three opened))) = 1%nat /\
  errorCount (ui (snd (startAnalysis (Sample.envAt 1 (Sample.failItem Sample.unauthorized))
                         Sample.cfg Sample.three opened))) = 1%nat.
Proof. vm_compute. repeat split. Qed.

(** ** Rate-limit failures *)

(** C1 (amended). In the modal the dashboard mounts, with providers that
    fail with error values: in every run that gets as far as item [k], when
    the processing of that item fails with a signal whose status is 429 or
    whose message contains, up to case, "429", "quota", "too many requests"
    or "resource exhausted", the failure is classified as a rate-limit
    failure: a synthetic failure result tagged '429 Quota Exceeded' is
    delivered for that item, it is the last event of the run (no timer, no
    call for a later item), and the final state shows the rate-limit reason.
    These are the only rate-limit signals: a failure that has none of them,
    one whose message contains "rate limit" for instance, is not classified
    as a rate-limit failure, and the result delivered for its item is the
    auth failure result or the ordinary failure result. *)
Theorem rate_limit_failure_halts_batch :
  (forall (env : Env) cfg tickets k t e w0,
     probeAccepts env cfg = true ->
     nth_error tickets k = Some t ->
     reaches env cfg tickets k ->
     outcome env cfg (item env k) t = inl e ->
     rateLimitSignal e ->
     let w := snd (startAnalysis env cfg tickets w0) in
     isRateLimit e = true /\
     results (trace w) =
       results (trace w0) ++ resultsFrom env cfg 0 (firstn k tickets) ++ [fatalResult t true] /\
     error (fatalResult t true) = Some "429 Quota Exceeded" /\
     historyCalls (trace w) = historyCalls (trace w0) ++ map ticketId (firstn (S k) tickets) /\
     (length (generateCalls (trace w)) <= length (generateCalls (trace w0)) + S k)%nat /\
     trace w = trace w0 ++ probeEvents env cfg ++
               eventsFrom env cfg (delayMs (rpm cfg)) (length tickets) 0 (firstn k tickets) ++
               callEvents env cfg (item env k) t ++ [EvResult (fatalResult t true)] /\
     authError (ui w) = "Analysis paused: Rate limit exceeded." /\
     batchStatus (ui w) = Stopped RateLimited) /\
  (forall e, ~ rateLimitSignal e -> isRateLimit e = false) /\
  (forall (env : Env) cfg tickets k t e w0,
     probeAccepts env cfg = true ->
     nth_error tickets k = Some t ->
     reaches env cfg tickets k ->
     outcome env cfg (item env k) t = inl e ->
     ~ rateLimitSignal e ->
     exists rs,
       results (trace (snd (startAnalysis env cfg tickets w0))) =
         results (trace w0) ++ resultsFrom env cfg 0 (firstn k tickets) ++
         (if isAuthError e then fatalResult t false else failedResult t e) :: rs).
Proof.
  assert (Hnot : forall e, ~ rateLimitSignal e -> isRateLimit e = false).
  { intros e Hn. destruct (isRateLimit e) eqn:E; [|reflexivity].
    exfalso. apply Hn. now apply isRateLimit_spec. }
  split; [|split; [exact Hnot|]].
  - intros env cfg tickets k t e w0 Hacc Hk Hb Ho Hsig.
    assert (Hrl : isRateLimit e = true) by now apply isRateLimit_spec.
    assert (Hf : fatal e = true) by (unfold fatal; rewrite Hrl; apply orb_true_r).
    destruct (run_fatal_read env cfg tickets k t e w0 Hacc Hk Hb Ho Hf)
      as (R1 & R2 & R3 & R4 & R5).
    destruct (run_fatal_at env cfg tickets k t e w0 Hacc Hk Hb Ho Hf)
      as (_ & _ & _ & Ha & _).
    rewrite Hrl in *. cbn zeta. repeat (split; [assumption || reflexivity|]). assumption.
  - intros env cfg tickets k t e w0 Hacc Hk Hb Ho Hsig.
    destruct (run_delivers_at env cfg tickets k t w0 Hacc Hk Hb) as (rs & Hrs).
    exists rs. rewrite Hrs. unfold resultOf, fatal. rewrite Ho, (Hnot e Hsig).
    now rewrite orb_false_r.
Qed.

Lemma rate_limit_failure_halts_batch_witness :
  rateLimitSignal Sample.quotaExceeded /\
  batchStatus
    (ui (snd (startAnalysis (Sample.envAt 2 (Sample.failItem Sample.quotaExceeded))
                Sample.cfg Sample.three opened))) = Stopped RateLimited.
Proof.
  assert (Hsig : rateLimitSignal Sample.quotaExceeded) by (left; reflexivity).
  split; [exact Hsig|].
  apply (proj1 rate_limit_failure_halts_batch
           (Sample.envAt 2 (Sample.failItem Sample.quotaExceeded)) Sample.cfg Sample.three
           2%nat (Sample.tk 103) Sample.quotaExceeded opened eq_refl eq_refl).
  - intros j t Hj Hn.
    destruct j as [|[|j]]; [| |lia]; cbn in Hn; injection Hn as <-; reflexivity.
  - reflexivity.
  - exact Hsig.
Defined.

(** C1, as stated, fails: the first of three tickets fails with the
    message 'Rate limit reached' and no status.  The message contains "rate
    limit", yet the failure is not classified as a rate-limit failure: the
    item gets the ordinary failure result and the run goes on through all
    three tickets to a normal completion. *)
Lemma rate_limit_phrase_is_not_fatal :
  outcome (Sample.envAt 0 (Sample.failItem Sample.rateLimitReached)) Sample.cfg
    (item (Sample.envAt 0 (Sample.failItem Sample.rateLimitReached)) 0) (Sample.tk 101) =
    inl Sample.rateLimitReached /\
  rateLimitSignal_specified Sample.rateLimitReached /\
  isRateLimit Sample.rateLimitReached = false /\
  results (trace (snd (startAnalysis
                         (Sample.envAt 0 (Sample.failItem Sample.rateLimitReached))
                         Sample.cfg Sample.three opened))) =
    [failedResult (Sample.tk 101) Sample.rateLimitReached;
     Sample.okResult 102; Sample.okResult 103] /\
  historyCalls (trace (snd (startAnalysis
                              (Sample.envAt 0 (Sample.failItem Sample.rateLimitReached))
                              Sample.cfg Sample.three opened))) = [101; 102; 103]%Z /\
  batchStatus (ui (snd (startAnalysis
                          (Sample.envAt 0 (Sample.failItem Sample.rateLimitReached))
                          Sample.cfg Sample.three opened))) = Completed.
Proof.
  split; [reflexivity|]. split.
  - right. exists "Rate limit reached". split; [reflexivity|].
    right. left. exists EmptyString, "Rate limit", " reached". split; reflexivity.
  - vm_compute. repeat split.
Qed.

(** ** Auth failures *)

(** C2 (amended). In the modal the dashboard mounts, with providers that
    fail with error values: in every run over N tickets that gets as far as
    item [k] (0-indexed) and in which that item fails with an auth signal (status
    401, or a message containing "api key" or "unauthorized" up to case)
    that is not also a rate-limit signal, exactly [k + 1] results have been
    delivered (those of the [k] items before it and the synthetic failure of
    item [k]), no history or model request is made for any item after [k],
    and the final status is Stopped(AuthFailed). *)
Theorem auth_failure_halts_batch env cfg tickets k t e w0 :
  probeAccepts env cfg = true ->
  nth_error tickets k = Some t ->
  reaches env cfg tickets k ->
  outcome env cfg (item env k) t = inl e ->
  authSignal e ->
  ~ rateLimitSignal e ->
  let w := snd (startAnalysis env cfg tickets w0) in
  results (trace w) =
    results (trace w0) ++ resultsFrom env cfg 0 (firstn k tickets) ++ [fatalResult t false] /\
  length (results (trace w)) = (length (results (trace w0)) + (k + 1))%nat /\
  historyCalls (trace w) = historyCalls (trace w0) ++ map ticketId (firstn (S k) tickets) /\
  (length (generateCalls (trace w)) <= length (generateCalls (trace w0)) + S k)%nat /\
  trace w = trace w0 ++ probeEvents env cfg ++
            eventsFrom env cfg (delayMs (rpm cfg)) (length tickets) 0 (firstn k tickets) ++
            callEvents env cfg (item env k) t ++ [EvResult (fatalResult t false)] /\
  batchStatus (ui w) = Stopped AuthFailed.
Proof.
  intros Hacc Hk Hb Ho Hsig Hnrl.
  assert (Hau : isAuthError e = true) by (apply isAuthError_spec; now left).
  assert (Hrl : isRateLimit e = false).
  { destruct (isRateLimit e) eqn:E; [|reflexivity].
    exfalso. apply Hnrl. now apply isRateLimit_spec. }
  assert (Hf : fatal e = true) by (unfold fatal; now rewrite Hau).
  destruct (run_fatal_read env cfg tickets k t e w0 Hacc Hk Hb Ho Hf)
    as (R1 & R2 & R3 & R4 & R5).
  rewrite Hrl in *. cbn zeta.
  split; [exact R1|]. split.
  - rewrite R1, !length_app, resultsFrom_length, length_firstn. cbn [length].
    rewrite Nat.min_l; [lia|]. apply Nat.lt_le_incl, nth_error_Some. congruence.
  - repeat (split; [assumption|]). assumption.
Qed.

Lemma auth_failure_halts_batch_witness :
  authSignal Sample.unauthorized /\
  ~ rateLimitSignal Sample.unauthorized /\
  batchStatus
    (ui (snd (startAnalysis (Sample.envAt 1 (Sample.failItem Sample.unauthorized))
                Sample.cfg Sample.three opened))) = Stopped AuthFailed.
Proof.
  assert (Hsig : authSignal Sample.unauthorized) by (left; reflexivity).
  assert (Hn : ~ rateLimitSignal Sample.unauthorized).
  { intros H. apply isRateLimit_spec in H. discriminate H. }
  split; [exact Hsig|]. split; [exact Hn|].
  apply (auth_failure_halts_batch
           (Sample.envAt 1 (Sample.failItem Sample.unauthorized)) Sample.cfg Sample.three
           1 (Sample.tk 102) Sample.unauthorized opened eq_refl eq_refl).
  - intros j t Hj Hnth.
    destruct j as [|j]; [|lia]; cbn in Hnth; injection Hnth as <-; reflexivity.
  - reflexivity.
  - exact Hsig.
  - exact Hn.
Defined.

(** C2, as stated, fails: the second of three tickets (k = 1) fails with
    status 401 and the message 'Unauthorized'; two results have been
    delivered when the run ends, not one. *)
Lemma auth_failure_delivers_its_own_result :
  outcome (Sample.envAt 1 (Sample.failItem Sample.unauthorized)) Sample.cfg
    (item (Sample.envAt 1 (Sample.failItem Sample.unauthorized)) 1) (Sample.tk 102) =
    inl Sample.unauthorized /\
  authSignal Sample.unauthorized /\
  results (trace (snd (startAnalysis (Sample.envAt 1 (Sample.failItem Sample.unauthorized))
                         Sample.cfg Sample.three opened))) =
    [Sample.okResult 101; fatalResult (Sample.tk 102) false] /\
  length (results (trace (snd (startAnalysis
                                 (Sample.envAt 1 (Sample.failItem Sample.unauthorized))
                                 Sample.cfg Sample.three opened)))) <> 1%nat.
Proof.
  split; [reflexivity|]. split; [left; reflexivity|].
  vm_compute. split; [reflexivity|discriminate].
Qed.

(** When a failure matches both tests, the rate-limit reason is the one
    reported. *)
Example both_signals_report_rate_limit :
  authSignal Sample.keyOverQuota /\
  rateLimitSignal Sample.keyOverQuota /\
  batchStatus (ui (snd (startAnalysis (Sample.envAt 0 (Sample.failItem Sample.keyOverQuota))
                          Sample.cfg Sample.three opened))) = Stopped RateLimited.
Proof.
  split; [left; reflexivity|]. split; [|reflexivity].
  apply isRateLimit_spec. reflexivity.
Qed.

(** ** The validation stage *)

(** C4 (amended). In the modal the dashboard mounts, with providers that
    fail with error values: in every run for which a key override is
    configured, the driver sends one validation request, with the
    normalised override, before it enters the loop; when the override is
    empty after normalisation or the request fails, the run is rejected
    there: no ticket is processed, no request of the loop is made, no timer
    is started, and only the alert is set.  A run without an override sends
    no validation request: it enters the loop at once, and the key of its
    analysis requests is the key of the environment. *)
Theorem probe_guards_the_loop :
  (forall (env : Env) cfg tickets w0 c s,
     apiKey cfg = Some (String c s) ->
     let key := normalizeKey_spec (String c s) in
     let w := snd (startAnalysis env cfg tickets w0) in
     probeEvents env cfg = match key with EmptyString => [] | _ => [EvProbe key] end /\
     (exists tr, trace w = trace w0 ++ probeEvents env cfg ++ tr /\ probes tr = []) /\
     (key = EmptyString \/ probeOutcome env <> None ->
      trace w = trace w0 ++ probeEvents env cfg /\
      ui w = with_authError "Connection failed. Please check your API Key." (ui w0))) /\
  (forall (env : Env) cfg tickets w0,
     JS.truthy (apiKey cfg) = false ->
     let w := snd (startAnalysis env cfg tickets w0) in
     probeEvents env cfg = [] /\
     probes (trace w) = probes (trace w0) /\
     resolveKey (apiKey cfg) (env_API_KEY env) = env_API_KEY env /\
     trace (entering env cfg w0) = trace w0 /\
     w = finished (snd (loop env cfg (delayMs (rpm cfg)) (length tickets) 0 tickets
                          (entering env cfg w0)))).
Proof.
  split.
  - intros env cfg tickets w0 c s Hkey. cbn zeta.
    assert (Hev : probeEvents env cfg =
                  match normalizeKey_spec (String c s) with
                  | EmptyString => []
                  | _ => [EvProbe (normalizeKey_spec (String c s))]
                  end).
    { unfold probeEvents. rewrite Hkey, normalizeKey_spec_eq.
      now destruct (normalizeKey_spec (String c s)). }
    split; [exact Hev|]. rewrite startAnalysis_run. cbn [snd]. split.
    + destruct (probeAccepts env cfg).
      * destruct (loop_read env cfg (delayMs (rpm cfg)) (length tickets) tickets 0
                    (entering env cfg w0)) as (m & tr & _ & H & _ & _ & P).
        exists tr. cbn [finished trace]. rewrite H. cbn [entering trace].
        now rewrite <- app_assoc.
      * exists []. cbn. now rewrite app_nil_r.
    + intros Hbad.
      assert (Hacc : probeAccepts env cfg = false).
      { unfold probeAccepts. rewrite Hkey, normalizeKey_spec_eq.
        destruct Hbad as [-> | Hp]; [reflexivity|].
        destruct (normalizeKey_spec (String c s)); [reflexivity|].
        destruct (probeOutcome env); [reflexivity | congruence]. }
      rewrite Hacc. split; reflexivity.
  - intros env cfg tickets w0 Hno. cbn zeta.
    assert (Hpe : probeEvents env cfg = [])
      by (unfold probeEvents; now destruct (apiKey cfg) as [[|c s]|]).
    assert (Hacc : probeAccepts env cfg = true)
      by (unfold probeAccepts; now destruct (apiKey cfg) as [[|c s]|]).
    split; [exact Hpe|]. rewrite startAnalysis_run, Hacc. cbn [snd].
    split; [|split; [|split; [|reflexivity]]].
    + destruct (loop_read env cfg (delayMs (rpm cfg)) (length tickets) tickets 0
                  (entering env cfg w0)) as (m & tr & _ & H & _ & _ & P).
      cbn [finished trace]. rewrite H. cbn [entering trace].
      now rewrite Hpe, app_nil_r, probes_app, P, app_nil_r.
    + unfold resolveKey. now destruct (apiKey cfg) as [[|c s]|].
    + cbn [entering trace]. now rewrite Hpe, app_nil_r.
Qed.

Lemma probe_guards_the_loop_witness :
  apiKey (Sample.cfgWithKey " 'bad-key' ") = Some " 'bad-key' " /\
  trace (snd (startAnalysis Sample.envBadKey (Sample.cfgWithKey " 'bad-key' ")
                Sample.three opened)) = [EvProbe "bad-key"] /\
  JS.truthy (apiKey Sample.cfg) = false /\
  probes (trace (snd (startAnalysis Sample.envOk Sample.cfg Sample.three opened))) = [].
Proof.
  split; [reflexivity|]. split; [|split; [reflexivity|]].
  - apply (proj1 probe_guards_the_loop Sample.envBadKey (Sample.cfgWithKey " 'bad-key' ")
             Sample.three opened " "%char "'bad-key' " eq_refl).
    right. discriminate.
  - apply (proj2 probe_guards_the_loop Sample.envOk Sample.cfg Sample.three opened eq_refl).
Defined.

(** C4, as stated, fails: with no override configured and no environment
    key, no validation request is sent; the run enters the loop, fetches the
    history of the first ticket and only then fails on the missing key. *)
Lemma no_probe_without_override :
  apiKey Sample.cfg = Some EmptyString /\
  env_API_KEY Sample.envNoKey = None /\
  probes (trace (snd (startAnalysis Sample.envNoKey Sample.cfg Sample.three opened))) = [] /\
  trace (snd (startAnalysis Sample.envNoKey Sample.cfg Sample.three opened)) =
    [EvHistory 101; EvResult (fatalResult (Sample.tk 101) false)].
Proof. vm_compute. repeat split. Qed.

(** ** The rate limiter *)

Lemma Math_max_Qmax (a b : Q) : (JS.Math_max a b == Qmax a b)%Q.
Proof.
  unfold JS.Math_max. destruct (Qle_bool a b) eqn:E.
  - apply Qle_bool_iff in E. symmetry. now apply Q.max_r.
  - assert (~ (a <= b)%Q) by (rewrite <- Qle_bool_iff; congruence).
    symmetry. apply Q.max_l. lra.
Qed.

Lemma Qlt_bool_iff (a b : Q) : Qlt_bool a b = true <-> (a < b)%Q.
Proof.
  unfold Qlt_bool. rewrite negb_true_iff. split.
  - intros E. assert (~ (b <= a)%Q) by (rewrite <- Qle_bool_iff; congruence). lra.
  - intros H. destruct (Qle_bool b a) eqn:E; [|reflexivity].
    apply Qle_bool_iff in E. lra.
Qed.






(** ** Cancellation *)







(** ** Recoverable failures *)

Lemma resultsFrom_nth env cfg i l j t :
  nth_error l j = Some t ->
  nth_error (resultsFrom env cfg i l) j = Some (resultOf env cfg (item env (i + j)) t).
Proof.
  revert i j. induction l as [|x l IH]; intros i [|j] H; try discriminate.
  - cbn in *. injection H as ->. now rewrite Nat.add_0_r.
  - cbn in *. rewrite (IH (S i) j H). now rewrite Nat.add_succ_r.
Qed.

Lemma or_else_nonempty (a : option string) (c : ascii) (b : string) :
  JS.truthy (Some (JS.or_else a (String c b))) = true.
Proof. now destruct a as [[|x s]|]. Qed.

(** A run in which every item passes. *)
Lemma run_through env cfg tickets w0 :
  probeAccepts env cfg = true ->
  reaches env cfg tickets (length tickets) ->
  let w := snd (startAnalysis env cfg tickets w0) in
  trace w = trace w0 ++ probeEvents env cfg ++
            eventsFrom env cfg (delayMs (rpm cfg)) (length tickets) 0 tickets /\
  step (ui w) = complete /\
  isRunning (ui w) = false /\
  authError (ui w) = EmptyString /\
  (tickets <> [] -> progress (ui w) = length tickets).
Proof.
  intros Hacc Hb. cbn zeta. rewrite startAnalysis_run, Hacc. cbn [snd].
  destruct (loop_passes env cfg (delayMs (rpm cfg)) (length tickets) tickets 0
              (entering env cfg w0) eq_refl) as (Htr & Hr & Hs & Ha & Hp).
  { intros j t Hj. apply Hb; [|exact Hj].
    cbn [Nat.add]. apply nth_error_Some. rewrite Hj. discriminate. }
  cbn [finished ui trace]. rewrite Htr. cbn [entering trace].
  rewrite <- app_assoc. repeat split; auto.
Qed.

(** C7 (amended). In the modal the dashboard mounts, with providers that
    fail with error values: in every run over N tickets in which every item
    passes
    (no failure is fatal and Stop does not take effect), when item [k]
    fails, a synthetic failure result is delivered for it whose error field
    is the failure message, or 'Unknown error' when the failure carries no
    message or an empty one; [progress] moves to [k + 1]; processing
    continues through all N tickets and N results are delivered in all. *)
Theorem recoverable_failure_continues env cfg tickets k t e w0 :
  probeAccepts env cfg = true ->
  reaches env cfg tickets (length tickets) ->
  nth_error tickets k = Some t ->
  outcome env cfg (item env k) t = inl e ->
  let w := snd (startAnalysis env cfg tickets w0) in
  fatal e = false /\
  results (trace w) = results (trace w0) ++ resultsFrom env cfg 0 tickets /\
  length (results (trace w)) = (length (results (trace w0)) + length tickets)%nat /\
  nth_error (resultsFrom env cfg 0 tickets) k = Some (failedResult t e) /\
  error (failedResult t e) = Some (JS.or_else (message e) "Unknown error") /\
  (forall c m, message e = Some (String c m) -> error (failedResult t e) = Some (String c m)) /\
  (forall w1, isRunning (ui w1) = true ->
     progress (ui (snd (iteration env cfg (delayMs (rpm cfg)) (length tickets) k t w1))) = S k) /\
  historyCalls (trace w) = historyCalls (trace w0) ++ map ticketId tickets /\
  progress (ui w) = length tickets /\
  batchStatus (ui w) = Completed.
Proof.
  intros Hacc Hb Hk Ho. cbn zeta.
  assert (Hlt : (k < length tickets)%nat) by (apply nth_error_Some; congruence).
  assert (Hbk : passes env cfg (delayMs (rpm cfg)) (length tickets) k t = true)
    by now apply Hb.
  assert (Hf : fatal e = false).
  { unfold passes, breaks in Hbk. rewrite Ho in Hbk.
    apply andb_prop in Hbk. destruct Hbk as [Hbk _].
    apply andb_prop in Hbk. destruct Hbk as [H _]. now apply negb_true_iff. }
  destruct (run_through env cfg tickets w0 Hacc Hb) as (Htr & Hs & Hr & Ha & Hp).
  set (w := snd (startAnalysis env cfg tickets w0)) in *.
  destruct (probeEvents_read env cfg) as (P1 & P2 & _ & _).
  destruct (eventsFrom_read env cfg (delayMs (rpm cfg)) (length tickets) 0 tickets)
    as (E1 & E2 & _ & _).
  assert (Hres : results (trace w) = results (trace w0) ++ resultsFrom env cfg 0 tickets).
  { rewrite Htr. autorewrite with read_trace. now rewrite P1, E1. }
  split; [exact Hf|]. split; [exact Hres|].
  split; [now rewrite Hres, length_app, resultsFrom_length|].
  split.
  { rewrite (resultsFrom_nth env cfg 0 tickets k t Hk). cbn [Nat.add].
    unfold resultOf. now rewrite Ho, Hf. }
  split; [reflexivity|].
  split; [intros c m Hm; cbn; now rewrite Hm|].
  split.
  { intros w1 Hr1. rewrite iteration_run by exact Hr1. cbn [snd].
    destruct (afterItem_passes env cfg (delayMs (rpm cfg)) (length tickets) k t w1 Hr1 Hbk)
      as (_ & _ & _ & _ & H).
    rewrite H. lia. }
  split; [rewrite Htr; autorewrite with read_trace; now rewrite P2, E2|].
  split; [apply Hp; destruct tickets; [cbn in Hlt; lia | discriminate]|].
  unfold batchStatus. now rewrite Hs, Ha.
Qed.

Lemma recoverable_failure_continues_witness :
  fatal Sample.serverError = false /\
  results (trace (snd (startAnalysis (Sample.envAt 1 (Sample.failItem Sample.serverError))
                         Sample.cfg Sample.three opened))) =
    [Sample.okResult 101; failedResult (Sample.tk 102) Sample.serverError;
     Sample.okResult 103].
Proof.
  split; [reflexivity|].
  apply (recoverable_failure_continues
           (Sample.envAt 1 (Sample.failItem Sample.serverError)) Sample.cfg Sample.three
           1 (Sample.tk 102) Sample.serverError opened eq_refl).
  - intros j t Hj Hn.
    destruct j as [|[|[|j]]]; [| | |cbn in Hj; lia];
      cbn in Hn; injection Hn as <-; reflexivity.
  - reflexivity.
  - reflexivity.
Defined.

Lemma containsCI_empty (needle : string) :
  needle <> EmptyString -> ~ containsCI EmptyString needle.
Proof.
  intros Hn H. apply includes_toLowerCase in H. cbn in H.
  destruct needle; [congruence | discriminate].
Qed.

(** C7, as stated, fails: the second of three tickets fails with status
    500 and an empty message, which matches neither the auth nor the
    rate-limit rules.  The run does continue through all three tickets, but
    the error field of the synthetic result is 'Unknown error', not the
    failure message. *)
Lemma silent_failure_reports_unknown_error :
  outcome (Sample.envAt 1 (Sample.failItem Sample.silentError)) Sample.cfg
    (item (Sample.envAt 1 (Sample.failItem Sample.silentError)) 1) (Sample.tk 102) =
    inl Sample.silentError /\
  ~ authSignal Sample.silentError /\
  ~ rateLimitSignal_specified Sample.silentError /\
  fatal Sample.silentError = false /\
  message Sample.silentError = Some EmptyString /\
  results (trace (snd (startAnalysis (Sample.envAt 1 (Sample.failItem Sample.silentError))
                         Sample.cfg Sample.three opened))) =
    [Sample.okResult 101; failedResult (Sample.tk 102) Sample.silentError;
     Sample.okResult 103] /\
  error (failedResult (Sample.tk 102) Sample.silentError) = Some "Unknown error" /\
  error (failedResult (Sample.tk 102) Sample.silentError) <> message Sample.silentError.
Proof.
  split; [reflexivity|]. split.
  { intros [H | (m & Hm & [H | H])]; [discriminate| |];
      cbn in Hm; injection Hm as <-; revert H; now apply containsCI_empty. }
  split.
  { intros [H | (m & Hm & [H | [H | [H | H]]])]; [discriminate| | | |];
      cbn in Hm; injection Hm as <-; revert H; now apply containsCI_empty. }
  vm_compute. repeat split; discriminate.
Qed.

(** The catch clause also looks for "401" and "429" inside the message: a
    failure that matches none of the rules of the specification can still
    stop the batch. *)
Example number_in_message_is_fatal :
  ~ authSignal Sample.ticketNumber /\
  ~ rateLimitSignal_specified Sample.ticketNumber /\
  isRateLimit Sample.ticketNumber = true /\
  results (trace (snd (startAnalysis (Sample.envAt 0 (Sample.failItem Sample.ticketNumber))
                         Sample.cfg Sample.three opened))) =
    [fatalResult (Sample.tk 101) true].
Proof.
  assert (Hno : forall needle,
             JS.includes (JS.toLowerCase "Ticket 14290 not found") needle = false ->
             ~ containsCI "Ticket 14290 not found" needle).
  { intros needle H C. apply includes_toLowerCase in C. congruence. }
  split.
  { intros [H | (m & Hm & [H | H])]; [discriminate| |];
      cbn in Hm; injection Hm as <-; revert H; now apply Hno. }
  split.
  { intros [H | (m & Hm & [H | [H | [H | H]]])]; [discriminate| | | |];
      cbn in Hm; injection Hm as <-; revert H; now apply Hno. }
  split; reflexivity.
Qed.

(** ** The two other copies of the loop *)

(** The copy under [components/] stops the batch on fewer failures: a
    failure with status 429 or 401 whose message names neither '401' nor
    'API key', spelled so, gets the ordinary failure result there and the
    batch goes on. *)
Example components_copy_runs_on :
  ComponentsModal.isFatal Sample.quotaExceeded = false /\
  ComponentsModal.isFatal Sample.unauthorized = false /\
  ComponentsModal.isFatal {| message := Some "Invalid api key"; status := Some 401%Z |} =
    false /\
  ComponentsModal.isFatal {| message := Some "API key not valid"; status := None |} = true.
Proof. repeat split. Qed.

(** The copy with the report validates the key whether or not an override
    is configured, so that without any key the run is rejected before the
    first ticket, and with the key of the environment that key is probed;
    and it processes 50 tickets at most. *)
Example report_copy_validates_without_override :
  validateApiKey Sample.envNoKey (apiKey Sample.cfg) opened = (Ok false, opened) /\
  trace (snd (validateApiKey Sample.envOk (apiKey Sample.cfg) opened)) =
    [EvProbe "env-key"] /\
  length (ReportModal.ticketsToProcess (repeat (Sample.tk 1) 60)) = 50%nat.
Proof. repeat split. Qed.

(** ** Providers that reject with any value *)

(** An iteration in an environment of any kind: the catch clause throws
    when it cannot read the failure of the item, and otherwise the
    iteration is that of [errEnv]. *)
Lemma iteration_any (env : AnyEnv) cfg delay n i t w :
  isRunning (ui w) = true ->
  iteration env cfg delay n i t w =
    match thrown env cfg (any_item env i) with
    | Some v =>
        if readable v then iteration (errEnv env) cfg delay n i t w
        else (Throw (TypeError v), crashed env cfg i t w)
    | None => iteration (errEnv env) cfg delay n i t w
    end.
Proof.
  intros H. destruct w as [m tr]. cbn [ui] in H.
  unfold iteration, try_body, catch_body, getTicketHistory, analyzeTicket, thrown,
    crashed, callEvents, stoppedInFlight, pressStop.
  cbn [errEnv errItemEnv anyEnv anyItemEnv any_item item any_API_KEY env_API_KEY
       any_historyOutcome historyOutcome any_generateOutcome generateOutcome
       any_stopDuringHistory stopDuringHistory any_stopDuringGenerate stopDuringGenerate].
  destruct (any_item env i) as [ho go el sh sg ss].
  cbn [any_historyOutcome any_generateOutcome any_elapsedTime any_stopDuringHistory
       any_stopDuringGenerate any_stopDuringSleep].
  run. rewrite H. cbn.
  destruct sh; cbn;
    (destruct ho as [[e| | |]|h]; cbn; try reflexivity;
     destruct (resolveKey (apiKey cfg) (any_API_KEY env)) as [[|c s]|]; cbn;
     try reflexivity;
     destruct sg; cbn;
     destruct go as [[e| | |]| |e|p]; cbn; rewrite <- ?app_assoc; reflexivity).
Qed.

Lemma crashes_thrown (env : AnyEnv) cfg ie :
  crashes env cfg ie = true <->
  exists v, thrown env cfg ie = Some v /\ readable v = false.
Proof.
  unfold crashes. destruct (thrown env cfg ie) as [v|].
  - rewrite negb_true_iff. split; [eauto|]. now intros (v' & [= <-] & H).
  - split; [discriminate|]. now intros (v' & H & _).
Qed.

Lemma iteration_sound (env : AnyEnv) cfg delay n i t w :
  crashes env cfg (any_item env i) = false ->
  iteration env cfg delay n i t w = iteration (errEnv env) cfg delay n i t w.
Proof.
  intros Hc. destruct (isRunning (ui w)) eqn:Hrun.
  - rewrite iteration_any by exact Hrun. unfold crashes in Hc.
    destruct (thrown env cfg (any_item env i)) as [v|]; [|reflexivity].
    apply negb_false_iff in Hc. now rewrite Hc.
  - now rewrite !iteration_stopped_any.
Qed.


(** The first such item, reached with the loop running, ends the loop by
    the [TypeError] of the catch clause. *)
Lemma loop_crash (env : AnyEnv) cfg delay n pre :
  forall i w t post v,
    isRunning (ui w) = true ->
    (forall j t', nth_error pre j = Some t' ->
                  crashes env cfg (any_item env (i + j)) = false /\
                  passes (errEnv env) cfg delay n (i + j) t' = true) ->
    thrown env cfg (any_item env (i + length pre)) = Some v ->
    readable v = false ->
    loop env cfg delay n i (pre ++ t :: post) w =
      (Throw (TypeError v),
       crashed env cfg (i + length pre) t (snd (loop (errEnv env) cfg delay n i pre w))).
Proof.
  induction pre as [|x pre IH]; intros i w t post v Hrun Hpre Hv Hr.
  - cbn [app length loop snd ret]. rewrite Nat.add_0_r in *. unfold bind.
    rewrite iteration_any by exact Hrun. now rewrite Hv, Hr.
  - destruct (Hpre 0%nat x eq_refl) as [Hc Hp]. rewrite Nat.add_0_r in Hc, Hp.
    cbn [app length]. rewrite (loop_step (errEnv env)) by exact Hrun.
    change (loop env cfg delay n i (x :: pre ++ t :: post) w)
      with (bind (iteration env cfg delay n i x)
              (fun ctl => match ctl with
                          | Break => ret tt
                          | Next => loop env cfg delay n (S i) (pre ++ t :: post)
                          end) w).
    unfold bind. rewrite iteration_sound by exact Hc.
    rewrite (iteration_run (errEnv env)) by exact Hrun.
    assert (Hb : breaks (errEnv env) cfg (item (errEnv env) i) x = false).
    { unfold passes in Hp. apply andb_prop in Hp. destruct Hp as [Hp _].
      apply andb_prop in Hp. destruct Hp as [Hp _]. now apply negb_true_iff in Hp. }
    rewrite Hb.
    destruct (afterItem_passes (errEnv env) cfg delay n i x w Hrun Hp) as (_ & Hrun1 & _).
    rewrite (IH (S i) _ t post v Hrun1).
    + now rewrite Nat.add_succ_r.
    + intros j t' Hj. specialize (Hpre (S j) t' Hj). now rewrite Nat.add_succ_r in Hpre.
    + cbn [length] in Hv. now rewrite Nat.add_succ_r in Hv.
    + exact Hr.
Qed.

(** Any loop is of one of these two kinds. *)
Lemma loop_any (env : AnyEnv) cfg delay n rest :
  forall i w,
    loop env cfg delay n i rest w = loop (errEnv env) cfg delay n i rest w \/
    exists pre t post v,
      rest = pre ++ t :: post /\
      thrown env cfg (any_item env (i + length pre)) = Some v /\
      readable v = false /\
      (forall j t', nth_error pre j = Some t' ->
                    crashes env cfg (any_item env (i + j)) = false /\
                    passes (errEnv env) cfg delay n (i + j) t' = true) /\
      isRunning (ui w) = true /\
      loop env cfg delay n i rest w =
        (Throw (TypeError v),
         crashed env cfg (i + length pre) t (snd (loop (errEnv env) cfg delay n i pre w))).
Proof.
  induction rest as [|t rest IH]; intros i w; [now left|].
  destruct (isRunning (ui w)) eqn:Hrun;
    [|left; now rewrite !loop_stopped_any by exact Hrun].
  destruct (crashes env cfg (any_item env i)) eqn:Hc.
  - right. apply crashes_thrown in Hc. destruct Hc as (v & Hv & Hr).
    exists [], t, rest, v. cbn [app length]. rewrite Nat.add_0_r.
    split; [reflexivity|]. split; [exact Hv|]. split; [exact Hr|].
    split; [intros [|j] t' Hj; discriminate|]. split; [reflexivity|].
    rewrite <- (Nat.add_0_r i) at 2.
    apply (loop_crash env cfg delay n [] i w t rest v Hrun); cbn [length];
      rewrite ?Nat.add_0_r; auto.
    intros [|j] t' Hj; discriminate.
  - destruct (passes (errEnv env) cfg delay n i t) eqn:Hp.
    + destruct (afterItem_passes (errEnv env) cfg delay n i t w Hrun Hp) as (_ & Hrun1 & _).
      assert (Hb : breaks (errEnv env) cfg (item (errEnv env) i) t = false).
      { unfold passes in Hp. apply andb_prop in Hp. destruct Hp as [Hp' _].
        apply andb_prop in Hp'. destruct Hp' as [Hp' _]. now apply negb_true_iff in Hp'. }
      assert (Hstep : loop env cfg delay n i (t :: rest) w =
                      loop env cfg delay n (S i) rest
                        (afterItem (errEnv env) cfg delay n i t w)).
      { cbn [loop]. unfold bind. rewrite iteration_sound by exact Hc.
        rewrite (iteration_run (errEnv env)) by exact Hrun. now rewrite Hb. }
      destruct (IH (S i) (afterItem (errEnv env) cfg delay n i t w))
        as [Heq | (pre & t1 & post & v & -> & Hv & Hr & Hpre & _ & Heq)].
      * left. rewrite Hstep, Heq. now rewrite (loop_step (errEnv env)) by exact Hrun.
      * right. exists (t :: pre), t1, post, v. cbn [app length].
        rewrite Nat.add_succ_r. split; [reflexivity|]. split; [exact Hv|].
        split; [exact Hr|]. split.
        { intros [|j] t' Hj.
          - cbn in Hj. injection Hj as <-. rewrite Nat.add_0_r. auto.
          - cbn in Hj. rewrite Nat.add_succ_r. now apply Hpre. }
        split; [reflexivity|].
        rewrite Hstep, Heq. now rewrite (loop_step (errEnv env)) by exact Hrun.
    + left. cbn [loop]. unfold bind. rewrite iteration_sound by exact Hc.
      rewrite (iteration_run (errEnv env)) by exact Hrun.
      destruct (breaks (errEnv env) cfg (item (errEnv env) i) t); [reflexivity|].
      now rewrite !loop_stopped_any by (now apply afterItem_halts).
Qed.

(** [startAnalysis] in terms of its loop, in an environment of any
    kind. *)
Lemma startAnalysis_any (env : AnyEnv) cfg tickets w :
  startAnalysis env cfg tickets w =
    if probeAccepts (errEnv env) cfg then
      match loop env cfg (delayMs (rpm cfg)) (length tickets) 0 tickets
              (entering (errEnv env) cfg w) with
      | (Ok _, w1) => (Ok tt, finished w1)
      | (Throw v, w1) => (Throw v, w1)
      end
    else (Ok tt, rejected (errEnv env) cfg w).
Proof.
  unfold startAnalysis, probeAccepts, entering, rejected, probeEvents, finished,
    validateApiKey, resolveKey.
  destruct w as [m tr].
  destruct (apiKey cfg) as [[|c s]|]; cbn [JS.truthy].
  1,3: run; rewrite app_nil_r;
    match goal with |- context [loop ?a ?b ?c ?d ?e ?f ?g] =>
      destruct (loop a b c d e f g) as [[[]|v] w1] end; reflexivity.
  destruct (normalizeKey (String c s)) as [|c' s'].
  - run. now rewrite app_nil_r.
  - cbn [errEnv probeOutcome].
    destruct (any_probeOutcome env) as [e|]; run; [reflexivity|].
    match goal with |- context [loop ?a ?b ?c ?d ?e ?f ?g] =>
      destruct (loop a b c d e f g) as [[[]|v] w1] end; reflexivity.
Qed.

(** ** Counting the items by their outcome *)






(** ** No exception leaves the driver, unless a provider rejects with a
    value the catch clause cannot read *)


(** The result of an analysis that succeeds is the answer of the model
    under the id of the ticket. *)
Lemma outcome_answer env cfg ie t r :
  outcome env cfg ie t = inr r ->
  exists p, generateOutcome ie = GenPayload p /\ r = spread (ticketId t) p.
Proof.
  unfold outcome.
  destruct (historyOutcome ie); [discriminate|].
  destruct (resolveKey (apiKey cfg) (env_API_KEY env)) as [[|c s]|]; try discriminate.
  destruct (generateOutcome ie) as [e| |e|p]; try discriminate.
  intros [= <-]. eauto.
Qed.

Lemma hasError_failure env cfg ie t e :
  outcome env cfg ie t = inl e -> hasError (resultOf env cfg ie t) = true.
Proof.
  intros Ho. unfold resultOf. rewrite Ho.
  destruct (fatal e); [now destruct (isRateLimit e)|].
  apply or_else_nonempty.
Qed.

Lemma hasError_resultOf env cfg ie t :
  answerWithoutError ie ->
  hasError (resultOf env cfg ie t) = true <-> exists e, outcome env cfg ie t = inl e.
Proof.
  intros Hno. destruct (outcome env cfg ie t) as [e|r] eqn:Ho.
  - split; [eauto|]. intros _. now apply (hasError_failure env cfg ie t e).
  - split; [|intros [e He]; discriminate]. intros H. exfalso.
    unfold resultOf in H. rewrite Ho in H.
    destruct (outcome_answer env cfg ie t r Ho) as (p & Hg & ->).
    unfold hasError in H. cbn [spread error] in H.
    rewrite (Hno p Hg) in H. discriminate.
Qed.

(** What a run leaves behind, when the providers fail with error values. *)
Lemma run_read (env : Env) cfg tickets w0 :
  exists m,
    (m <= length tickets)%nat /\
    results (trace (snd (startAnalysis env cfg tickets w0))) =
      results (trace w0) ++ firstn m (resultsFrom env cfg 0 tickets) /\
    historyCalls (trace (snd (startAnalysis env cfg tickets w0))) =
      historyCalls (trace w0) ++ map ticketId (firstn m tickets).
Proof.
  rewrite startAnalysis_run. cbn [snd].
  destruct (probeEvents_read env cfg) as (P1 & P2 & _ & _).
  destruct (probeAccepts env cfg).
  - destruct (loop_read env cfg (delayMs (rpm cfg)) (length tickets) tickets 0
                (entering env cfg w0)) as (m & tr & Hm & H & R & C & _).
    exists m. split; [exact Hm|]. cbn [finished trace]. rewrite H. cbn [entering trace].
    autorewrite with read_trace. rewrite P1, P2, R, C, !app_nil_r. auto.
  - exists 0%nat. split; [lia|]. cbn [rejected trace firstn map].
    rewrite results_app, historyCalls_app, P1, P2. auto.
Qed.







(** The same happens when the model request rejects with a value whose
    message is not a string. *)
Example odd_message_escapes :
  fst (startAnalysis (Sample.anyEnvAt 0 (Sample.rejectGenerateItem OddMessage))
         Sample.cfg Sample.three opened) = Throw (TypeError OddMessage) /\
  results (trace (snd (startAnalysis (Sample.anyEnvAt 0 (Sample.rejectGenerateItem OddMessage))
                         Sample.cfg Sample.three opened))) = [] /\
  generateCalls (trace (snd (startAnalysis
                               (Sample.anyEnvAt 0 (Sample.rejectGenerateItem OddMessage))
                               Sample.cfg Sample.three opened))) = [101]%Z.
Proof. vm_compute. repeat split. Qed.

(** ** The shape of failure results *)

(** C10 (amended). Every synthetic failure result the batch loop makes,
    for a recoverable as for a fatal failure and in each of the three
    copies of the loop, has score 0, no root cause detected, no strengths
    and a non-empty error field.  In the modal the dashboard mounts, with
    providers that reject with error values, the results a run delivers
    are, in order, those of the tickets it dispatched, and the result of a
    ticket whose processing failed is such a synthetic result.  The result
    of a ticket whose analysis succeeded is the answer of the model,
    unchecked, with the id of the ticket when the answer has no ticketId
    of its own: its error field is non-empty exactly when the answer has a
    non-empty error property.  So the error
    field is non-empty exactly for the tickets whose processing failed only
    when no answer of the model carries an error property. *)
Theorem synthetic_results_shape :
  (forall r,
      (exists t b, r = fatalResult t b) \/ (exists t e, r = failedResult t e) \/
      (exists t b, r = ReportModal.fatalResult t b) \/
      (exists t e, r = ReportModal.failedResult t e) \/
      (exists t, r = ComponentsModal.fatalResult t) \/
      (exists t e, r = ComponentsModal.failedResult t e) ->
      score r = 0%Q /\ rcaDetected r = false /\ strengths r = [] /\ hasError r = true) /\
  (forall env cfg ie t e,
      outcome env cfg ie t = inl e ->
      resultOf env cfg ie t =
        (if fatal e then fatalResult t (isRateLimit e) else failedResult t e) /\
      hasError (resultOf env cfg ie t) = true) /\
  (forall env cfg ie t r,
      outcome env cfg ie t = inr r ->
      exists p,
        generateOutcome ie = GenPayload p /\
        resultOf env cfg ie t = spread (ticketId t) p /\
        hasError (resultOf env cfg ie t) = JS.truthy (p_error p)) /\
  (forall env cfg ie t,
      answerWithoutError ie ->
      hasError (resultOf env cfg ie t) = true <-> exists e, outcome env cfg ie t = inl e) /\
  (forall (env : Env) cfg tickets w0,
      exists m,
        (m <= length tickets)%nat /\
        results (trace (snd (startAnalysis env cfg tickets w0))) =
          results (trace w0) ++ firstn m (resultsFrom env cfg 0 tickets)) /\
  (forall env cfg i tickets j r,
      nth_error (resultsFrom env cfg i tickets) j = Some r ->
      exists t, nth_error tickets j = Some t /\ r = resultOf env cfg (item env (i + j)) t).
Proof.
  split; [|split; [|split; [|split; [exact hasError_resultOf|split]]]].
  - intros r [(t & b & ->) | [(t & e & ->) | [(t & b & ->) | [(t & e & ->) |
             [(t & ->) | (t & e & ->)]]]]];
      repeat split; try (now destruct b); apply or_else_nonempty.
  - intros env cfg ie t e Ho. split; [|now apply (hasError_failure env cfg ie t e)].
    unfold resultOf. now rewrite Ho.
  - intros env cfg ie t r Ho.
    destruct (outcome_answer env cfg ie t r Ho) as (p & Hg & ->).
    exists p. unfold resultOf. rewrite Ho. auto.
  - intros env cfg tickets w0.
    destruct (run_read env cfg tickets w0) as (m & Hm & Hr & _). eauto.
  - intros env cfg i tickets j r H.
    destruct (nth_error tickets j) as [t|] eqn:Ht.
    + exists t. split; [reflexivity|].
      rewrite (resultsFrom_nth env cfg i tickets j t Ht) in H. congruence.
    + exfalso. apply nth_error_None in Ht.
      assert (nth_error (resultsFrom env cfg i tickets) j = None)
        by (apply nth_error_None; now rewrite resultsFrom_length).
      congruence.
Qed.

Lemma synthetic_results_shape_witness :
  hasError (fatalResult (Sample.tk 101) true) = true /\
  hasError (ReportModal.failedResult (Sample.tk 101) Sample.silentError) = true.
Proof.
  split.
  - apply (proj1 synthetic_results_shape). left. now exists (Sample.tk 101), true.
  - apply (proj1 synthetic_results_shape). right. right. right. left.
    now exists (Sample.tk 101), Sample.silentError.
Defined.

(** C10, as stated, fails: for the second of three tickets the model
    answers with an object that has, next to the five properties of the
    schema, an error property and a ticketId.  Both calls succeed, so the
    ticket is counted as processed and no failure is counted; yet the
    result delivered for it has a non-empty error field, and it is delivered
    under the id of the answer, 999, not under the id of the ticket. *)
Lemma answer_with_error_is_delivered :
  outcome (Sample.envAt 1 (Sample.answerItem Sample.refusal)) Sample.cfg
    (item (Sample.envAt 1 (Sample.answerItem Sample.refusal)) 1) (Sample.tk 102) =
    inr (spread 102 Sample.refusal) /\
  hasError (spread 102 Sample.refusal) = true /\
  r_ticketId (spread 102 Sample.refusal) = 999%Z /\
  fst (startAnalysis (Sample.envAt 1 (Sample.answerItem Sample.refusal))
         Sample.cfg Sample.three opened) = Ok tt /\
  results (trace (snd (startAnalysis (Sample.envAt 1 (Sample.answerItem Sample.refusal))
                         Sample.cfg Sample.three opened))) =
    [Sample.okResult 101; spread 102 Sample.refusal; Sample.okResult 103] /\
  processedCount (ui (snd (startAnalysis (Sample.envAt 1 (Sample.answerItem Sample.refusal))
                             Sample.cfg Sample.three opened))) = 3%nat /\
  errorCount (ui (snd (startAnalysis (Sample.envAt 1 (Sample.answerItem Sample.refusal))
                         Sample.cfg Sample.three opened))) = 0%nat.
Proof. vm_compute. repeat split. Qed.

(* ================================================================== *)
(** * Further properties of the code around the loop *)
(* ================================================================== *)

(** ** The counters of a run *)




(** An answer with an error property of its own is counted as processed
    though the result delivered has an error. *)
Example answer_with_error_counts_as_processed :
  processedCount (ui (snd (startAnalysis (Sample.envAt 1 (Sample.answerItem Sample.refusal))
                             Sample.cfg Sample.three opened))) = 3%nat /\
  length (succeeded (results (trace (snd (startAnalysis
            (Sample.envAt 1 (Sample.answerItem Sample.refusal))
            Sample.cfg Sample.three opened))))) = 2%nat.
Proof. vm_compute. split; reflexivity. Qed.

(** ** The events of a run, item by item *)

(** The events item [i] leaves: its calls, its result and, when another
    ticket follows and the loop is still on, at most one timer, which runs
    for a positive time. *)
Lemma afterItem_events env cfg delay n i t w :
  exists tail,
    trace (afterItem env cfg delay n i t w) =
      trace w ++ callEvents env cfg (item env i) t ++
      EvResult (resultOf env cfg (item env i) t) :: tail /\
    (tail = [] \/
     exists ms, tail = [EvSleep ms] /\ (0 < ms)%Q /\ (S i < n)%nat).
Proof.
  unfold afterItem. destruct (breaks env cfg (item env i) t).
  - exists []. cbn [trace]. auto.
  - unfold sleepOf.
    destruct (Z.of_nat i <? Z.of_nat n - 1)%Z eqn:Hlt; cbn [andb].
    2: { exists []. cbn [trace]. auto. }
    destruct (isRunning _); cbn [andb].
    2: { exists []. cbn [trace]. auto. }
    destruct (Qlt_bool 0 (timeToWait delay (elapsedTime (item env i)))) eqn:Hq.
    2: { exists []. cbn [trace]. auto. }
    exists [EvSleep (timeToWait delay (elapsedTime (item env i)))].
    cbn [trace]. rewrite <- !app_assoc. split; [reflexivity|]. right.
    eexists. split; [reflexivity|]. split; [now apply Qlt_bool_iff|].
    apply Z.ltb_lt in Hlt. lia.
Qed.

(** Every event of the loop belongs to one of the tickets: it is one of the
    ticket's calls, its result, or the timer that follows it. *)
Lemma loop_events (env : Env) cfg delay n rest :
  forall i w,
  exists tr,
    trace (snd (loop env cfg delay n i rest w)) = trace w ++ tr /\
    forall e, In e tr ->
      exists j t,
        nth_error rest j = Some t /\
        (In e (callEvents env cfg (item env (i + j)) t) \/
         e = EvResult (resultOf env cfg (item env (i + j)) t) \/
         exists ms, e = EvSleep ms /\ (0 < ms)%Q /\ (S (i + j) < n)%nat).
Proof.
  induction rest as [|t rest IH]; intros i w.
  - exists []. cbn. rewrite app_nil_r. split; [reflexivity|]. intros e [].
  - destruct (isRunning (ui w)) eqn:Hrun.
    + rewrite loop_step by exact Hrun.
      destruct (afterItem_events env cfg delay n i t w) as (tail & H1 & Htail).
      destruct (IH (S i) (afterItem env cfg delay n i t w)) as (tr & H & Hall).
      exists ((callEvents env cfg (item env i) t ++
               EvResult (resultOf env cfg (item env i) t) :: tail) ++ tr).
      split; [rewrite H, H1; now rewrite <- !app_assoc|].
      intros e He. apply in_app_or in He. destruct He as [He|He].
      * exists 0%nat, t. rewrite Nat.add_0_r. split; [reflexivity|].
        apply in_app_or in He. destruct He as [He|[He|He]]; auto.
        destruct Htail as [->|(ms & -> & Hms & Hn)]; [destruct He|].
        destruct He as [<-|[]]. right. right. eauto.
      * destruct (Hall e He) as (j & t' & Hj & Hcase).
        exists (S j), t'. rewrite Nat.add_succ_r. split; [exact Hj|exact Hcase].
    + rewrite loop_stopped by exact Hrun.
      exists []. cbn. rewrite app_nil_r. split; [reflexivity|]. intros e [].
Qed.

(** The timers of the loop: fewer than tickets. *)
Lemma loop_sleeps (env : Env) cfg delay n rest :
  forall i w,
    (i + length rest = n)%nat ->
    exists tr,
      trace (snd (loop env cfg delay n i rest w)) = trace w ++ tr /\
      (length (sleeps tr) <= pred (length rest))%nat /\
      (length (sleeps tr) <= length (results tr))%nat.
Proof.
  induction rest as [|t rest IH]; intros i w Hn.
  - exists []. cbn. rewrite app_nil_r. auto.
  - destruct (isRunning (ui w)) eqn:Hrun.
    + rewrite loop_step by exact Hrun.
      destruct (afterItem_events env cfg delay n i t w) as (tail & H1 & Htail).
      destruct (IH (S i) (afterItem env cfg delay n i t w)) as (tr & H & Hs & Hr).
      { cbn [length] in Hn. lia. }
      exists ((callEvents env cfg (item env i) t ++
               EvResult (resultOf env cfg (item env i) t) :: tail) ++ tr).
      split; [rewrite H, H1; now rewrite <- !app_assoc|].
      destruct (callEvents_read env cfg (item env i) t) as (Cr & _ & _ & Cs & _).
      rewrite !sleeps_app, !results_app, Cs, Cr, !length_app.
      cbn [app sleeps results flat_map length].
      destruct Htail as [->|(ms & -> & Hms & Hlt)]; cbn [sleeps results flat_map app length].
      * split; lia.
      * cbn [length] in Hn. destruct rest as [|t' rest']; cbn [length] in *; [lia|].
        split; lia.
    + rewrite loop_stopped by exact Hrun.
      exists []. cbn. rewrite app_nil_r. split; [reflexivity|]. split; lia.
Qed.



(** The timers of a loop are no more than its results, whatever the
    number of tickets announced. *)
Lemma loop_sleeps_results (env : Env) cfg delay n rest :
  forall i w,
    exists tr,
      trace (snd (loop env cfg delay n i rest w)) = trace w ++ tr /\
      (length (sleeps tr) <= length (results tr))%nat /\
      (length (results tr) <= length rest)%nat.
Proof.
  induction rest as [|t rest IH]; intros i w.
  - exists []. cbn. rewrite app_nil_r. auto.
  - destruct (isRunning (ui w)) eqn:Hrun.
    + rewrite loop_step by exact Hrun.
      destruct (afterItem_events env cfg delay n i t w) as (tail & H1 & Htail).
      destruct (IH (S i) (afterItem env cfg delay n i t w)) as (tr & H & Hs & Hr).
      exists ((callEvents env cfg (item env i) t ++
               EvResult (resultOf env cfg (item env i) t) :: tail) ++ tr).
      split; [rewrite H, H1; now rewrite <- !app_assoc|].
      destruct (callEvents_read env cfg (item env i) t) as (Cr & _ & _ & Cs & _).
      rewrite !sleeps_app, !results_app, Cs, Cr, !length_app.
      cbn [app sleeps results flat_map length].
      destruct Htail as [->|(ms & -> & Hms & Hlt)]; cbn [sleeps results flat_map app length];
        split; lia.
    + rewrite loop_stopped by exact Hrun.
      exists []. cbn. rewrite app_nil_r. split; [reflexivity|]. split; lia.
Qed.

(** The same for providers that reject with any value, where the catch
    clause may end the loop: the item on which it throws leaves its calls
    and nothing else. *)
Lemma loop_any_events (env : AnyEnv) cfg delay n rest :
  forall i w,
  exists tr,
    trace (snd (loop env cfg delay n i rest w)) = trace w ++ tr /\
    (forall e, In e tr ->
       exists j t,
         nth_error rest j = Some t /\
         (In e (callEvents (errEnv env) cfg (item (errEnv env) (i + j)) t) \/
          e = EvResult (resultOf (errEnv env) cfg (item (errEnv env) (i + j)) t) \/
          exists ms, e = EvSleep ms /\ (0 < ms)%Q /\ (S (i + j) < n)%nat)) /\
    ((i + length rest = n)%nat ->
     (length (sleeps tr) <= pred (length rest))%nat /\
     (length (sleeps tr) <= length (results tr))%nat).
Proof.
  intros i w.
  destruct (loop_any env cfg delay n rest i w)
    as [Heq | (pre & t & post & v & -> & Hv & Hr & Hpre & Hrun & Heq)].
  - rewrite Heq.
    destruct (loop_events (errEnv env) cfg delay n rest i w) as (tr & H & Hall).
    exists tr. split; [exact H|]. split; [exact Hall|]. intros Hn.
    destruct (loop_sleeps (errEnv env) cfg delay n rest i w Hn) as (tr' & H' & Hs & Hres).
    assert (tr' = tr) by (rewrite H in H'; now apply app_inv_head in H'). subst tr'.
    auto.
  - rewrite Heq. cbn [snd]. unfold crashed. cbn [trace].
    destruct (loop_events (errEnv env) cfg delay n pre i w) as (tr & H & Hall).
    destruct (loop_sleeps_results (errEnv env) cfg delay n pre i w) as (tr' & H' & Hs & Hres).
    assert (tr' = tr) by (rewrite H in H'; now apply app_inv_head in H'). subst tr'.
    exists (tr ++ callEvents (errEnv env) cfg
                    (errItemEnv (any_item env (i + length pre))) t).
    split; [now rewrite H, app_assoc|]. split.
    + intros e He. apply in_app_or in He. destruct He as [He|He].
      * destruct (Hall e He) as (j & t' & Hj & Hcase).
        exists j, t'. split; [|exact Hcase].
        rewrite nth_error_app1; [exact Hj|]. apply nth_error_Some. congruence.
      * exists (length pre), t. split; [|now left].
        rewrite nth_error_app2 by lia. now rewrite Nat.sub_diag.
    + intros _.
      destruct (callEvents_read (errEnv env) cfg
                  (errItemEnv (any_item env (i + length pre))) t) as (Cr & _ & _ & Cs & _).
      rewrite sleeps_app, results_app, Cs, Cr, !app_nil_r, length_app.
      cbn [length]. split; lia.
Qed.

(** The trace of a run is that of its validation and of its loop. *)
Lemma run_any_trace (env : AnyEnv) cfg tickets w0 :
  trace (snd (startAnalysis env cfg tickets w0)) =
    if probeAccepts (errEnv env) cfg then
      trace (snd (loop env cfg (delayMs (rpm cfg)) (length tickets) 0 tickets
                    (entering (errEnv env) cfg w0)))
    else trace w0 ++ probeEvents (errEnv env) cfg.
Proof.
  rewrite startAnalysis_any.
  destruct (probeAccepts (errEnv env) cfg); [|reflexivity].
  now destruct (loop env cfg (delayMs (rpm cfg)) (length tickets) 0 tickets
                  (entering (errEnv env) cfg w0)) as [[[]|v] w1].
Qed.


Lemma generate_In_callEvents env cfg ie t key m t' h :
  In (EvGenerate key m t' h) (callEvents env cfg ie t) ->
  resolveKey (apiKey cfg) (env_API_KEY env) = Some key /\
  key <> EmptyString /\ m = model cfg /\ t' = t /\ historyOutcome ie = inr h.
Proof.
  unfold callEvents. intros [H|H]; [discriminate|].
  destruct (historyOutcome ie) as [e|h0],
           (resolveKey (apiKey cfg) (env_API_KEY env)) as [[|c s]|];
    cbn in H; try contradiction.
  destruct H as [H|[]]. injection H as <- <- <- <-. repeat split; congruence.
Qed.

Lemma generate_not_probe env cfg key m t h : ~ In (EvGenerate key m t h) (probeEvents env cfg).
Proof.
  unfold probeEvents. destruct (apiKey cfg) as [[|c s]|]; try (intros []).
  destruct (normalizeKey (String c s)); intros H; [destruct H|].
  destruct H as [H|[]]. discriminate.
Qed.

(** Every analysis request of a run is made for one of its tickets, with
    the resolved key, the configured model and the history fetched for
    that ticket. *)
Lemma model_events (env : Env) cfg tickets w0 :
  let w := snd (startAnalysis env cfg tickets w0) in
  exists tr,
    trace w = trace w0 ++ tr /\
    forall key m t h,
      In (EvGenerate key m t h) tr ->
      resolveKey (apiKey cfg) (env_API_KEY env) = Some key /\
      key <> EmptyString /\
      m = model cfg /\
      exists j, nth_error tickets j = Some t /\ historyOutcome (item env j) = inr h.
Proof.
  cbn zeta. rewrite startAnalysis_run. cbn [snd].
  destruct (probeAccepts env cfg).
  - destruct (loop_events env cfg (delayMs (rpm cfg)) (length tickets) tickets 0
                (entering env cfg w0)) as (tr & H & Hall).
    exists (probeEvents env cfg ++ tr). cbn [finished trace]. rewrite H.
    cbn [entering trace]. rewrite <- app_assoc. split; [reflexivity|].
    intros key m t h Hin. apply in_app_or in Hin. destruct Hin as [Hin|Hin].
    { now apply generate_not_probe in Hin. }
    destruct (Hall _ Hin) as (j & t' & Hj & [Hc|[Hc|(ms & Hc & _)]]); try discriminate.
    apply generate_In_callEvents in Hc. destruct Hc as (Hk & Hne & Hm & -> & Hh).
    repeat split; auto. exists j. auto.
  - exists (probeEvents env cfg). cbn [rejected trace]. split; [reflexivity|].
    intros key m t h Hin. now apply generate_not_probe in Hin.
Qed.

Lemma generateCalls_nil tr :
  (forall key m t h, ~ In (EvGenerate key m t h) tr) -> generateCalls tr = [].
Proof.
  induction tr as [|e tr IH]; intros H; [reflexivity|].
  change (e :: tr) with ([e] ++ tr). rewrite generateCalls_app, IH.
  - destruct e; try reflexivity. exfalso. eapply H. left. reflexivity.
  - intros key m t h Hin. eapply H. right. exact Hin.
Qed.

Lemma probes_nil_without_override env cfg :
  JS.truthy (apiKey cfg) = false -> probeEvents env cfg = [] /\ probeAccepts env cfg = true.
Proof.
  unfold probeEvents, probeAccepts. now destruct (apiKey cfg) as [[|c s]|].
Qed.

Lemma resolveKey_nothing env cfg :
  JS.truthy (apiKey cfg) = false ->
  JS.truthy (env_API_KEY env) = false ->
  JS.truthy (resolveKey (apiKey cfg) (env_API_KEY env)) = false.
Proof. unfold resolveKey. now destruct (apiKey cfg) as [[|c s]|]. Qed.

(** X4. With no key override and no key in the environment, a run sends
    no request to the model at all, neither a validation request nor an
    analysis request.  The missing-key error of [analyzeTicket] mentions
    the API key, so the catch clause takes it for an authentication
    failure: as soon as the history of the first ticket has been fetched
    the batch stops with 'Auth failed', one failure result delivered and
    no progress made. *)
Theorem no_key_no_model_request env cfg tickets w0 :
  JS.truthy (apiKey cfg) = false ->
  JS.truthy (env_API_KEY env) = false ->
  let w := snd (startAnalysis env cfg tickets w0) in
  generateCalls (trace w) = generateCalls (trace w0) /\
  probes (trace w) = probes (trace w0) /\
  forall t rest h,
    tickets = t :: rest ->
    historyOutcome (item env 0) = inr h ->
    trace w = trace w0 ++ [EvHistory (ticketId t); EvResult (fatalResult t false)] /\
    batchStatus (ui w) = Stopped AuthFailed /\
    progress (ui w) = 0%nat /\
    processedCount (ui w) = 0%nat /\
    errorCount (ui w) = 1%nat.
Proof.
  intros Hk He. cbn zeta.
  destruct (probes_nil_without_override env cfg Hk) as (Hpe & Hacc).
  pose proof (resolveKey_nothing env cfg Hk He) as Hres.
  split; [|split].
  - destruct (model_events env cfg tickets w0) as (tr & H & Hall).
    rewrite H, generateCalls_app, (generateCalls_nil tr), app_nil_r; [reflexivity|].
    intros key m t h Hin. destruct (Hall key m t h Hin) as (Hr & Hne & _).
    rewrite Hr in Hres. destruct key; [congruence|discriminate].
  - rewrite startAnalysis_run, Hacc. cbn [snd finished trace].
    destruct (loop_read env cfg (delayMs (rpm cfg)) (length tickets) tickets 0
                (entering env cfg w0)) as (m & tr & _ & H & _ & _ & P).
    rewrite H. cbn [entering trace]. rewrite Hpe, app_nil_r, probes_app, P, app_nil_r.
    reflexivity.
  - intros t rest h -> Hh.
    assert (Ho : outcome env cfg (item env 0) t = inl missingKey).
    { unfold outcome. rewrite Hh.
      destruct (resolveKey (apiKey cfg) (env_API_KEY env)) as [[|c s]|];
        try reflexivity. discriminate. }
    assert (Hce : callEvents env cfg (item env 0) t = [EvHistory (ticketId t)]).
    { unfold callEvents. rewrite Hh.
      destruct (resolveKey (apiKey cfg) (env_API_KEY env)) as [[|c s]|];
        try reflexivity. discriminate. }
    rewrite startAnalysis_run, Hacc. cbn [snd].
    rewrite (loop_fatal env cfg _ _ 0 t rest (entering env cfg w0) missingKey eq_refl Ho eq_refl).
    cbn [snd finished ui trace entering]. rewrite Hpe, Hce, app_nil_r.
    change (isRateLimit missingKey) with false.
    repeat split; reflexivity.
Qed.

Lemma no_key_no_model_request_witness :
  generateCalls (trace (snd (startAnalysis Sample.envNoKey Sample.cfg Sample.three opened))) = [] /\
  trace (snd (startAnalysis Sample.envNoKey Sample.cfg Sample.three opened)) =
    [EvHistory 101; EvResult (fatalResult (Sample.tk 101) false)] /\
  batchStatus (ui (snd (startAnalysis Sample.envNoKey Sample.cfg Sample.three opened))) =
    Stopped AuthFailed.
Proof.
  destruct (no_key_no_model_request Sample.envNoKey Sample.cfg Sample.three opened
              eq_refl eq_refl) as (Hg & _ & Hfirst).
  destruct (Hfirst (Sample.tk 101) [Sample.tk 102; Sample.tk 103] [] eq_refl eq_refl)
    as (Ht & Hs & _).
  split; [exact Hg|]. split; [exact Ht | exact Hs].
Defined.

Lemma probe_In_callEvents env cfg ie t key : ~ In (EvProbe key) (callEvents env cfg ie t).
Proof.
  unfold callEvents. intros [H|H]; [discriminate|].
  destruct (historyOutcome ie), (resolveKey (apiKey cfg) (env_API_KEY env)) as [[|c s]|];
    cbn in H; try contradiction; destruct H as [H|[]]; discriminate.
Qed.

Lemma probe_In_probeEvents env cfg key :
  In (EvProbe key) (probeEvents env cfg) ->
  resolveKey (apiKey cfg) (env_API_KEY env) = Some key /\ key <> EmptyString.
Proof.
  unfold probeEvents, resolveKey. destruct (apiKey cfg) as [[|c s]|]; try (intros []).
  destruct (normalizeKey (String c s)) as [|c' s'] eqn:E; [intros []|].
  intros [H|[]]. injection H as <-. split; [reflexivity | discriminate].
Qed.

(** X3. Every request a run sends to the model carries the key
    [resolveKey] gives for the configuration and the environment, which is
    not empty: the validation request, and every analysis request, which
    moreover names the configured model, is made for one of the tickets of
    the batch, and carries the history that was fetched for that very
    ticket (no analysis request is made for a ticket whose history request
    failed).  This holds whatever the providers reject with. *)
Theorem requests_use_the_resolved_key (env : AnyEnv) cfg tickets w0 :
  let w := snd (startAnalysis env cfg tickets w0) in
  exists tr,
    trace w = trace w0 ++ tr /\
    (forall key m t h,
       In (EvGenerate key m t h) tr ->
       resolveKey (apiKey cfg) (any_API_KEY env) = Some key /\
       key <> EmptyString /\
       m = model cfg /\
       exists j, nth_error tickets j = Some t /\
                 any_historyOutcome (any_item env j) = inr h) /\
    (forall key,
       In (EvProbe key) tr ->
       resolveKey (apiKey cfg) (any_API_KEY env) = Some key /\ key <> EmptyString).
Proof.
  cbn zeta. rewrite run_any_trace.
  destruct (probeAccepts (errEnv env) cfg).
  - destruct (loop_any_events env cfg (delayMs (rpm cfg)) (length tickets) tickets 0
                (entering (errEnv env) cfg w0)) as (tr & H & Hall & _).
    exists (probeEvents (errEnv env) cfg ++ tr). rewrite H. cbn [entering trace].
    rewrite <- app_assoc. split; [reflexivity|]. split.
    + intros key m t h Hin. apply in_app_or in Hin. destruct Hin as [Hin|Hin].
      { now apply generate_not_probe in Hin. }
      destruct (Hall _ Hin) as (j & t' & Hj & [Hc|[Hc|(ms & Hc & _)]]); try discriminate.
      apply generate_In_callEvents in Hc. destruct Hc as (Hk & Hne & Hm & -> & Hh).
      cbn [errEnv env_API_KEY] in Hk. repeat split; auto. exists j. split; [exact Hj|].
      cbn [errEnv item errItemEnv historyOutcome] in Hh.
      cbn [Nat.add] in Hh.
      destruct (any_historyOutcome (any_item env j)) as [x|h0]; [discriminate|].
      now injection Hh as ->.
    + intros key Hin. apply in_app_or in Hin. destruct Hin as [Hin|Hin].
      * now apply probe_In_probeEvents in Hin.
      * destruct (Hall _ Hin) as (j & t & _ & [Hc|[Hc|(ms & Hc & _)]]); try discriminate.
        now apply probe_In_callEvents in Hc.
  - exists (probeEvents (errEnv env) cfg). split; [reflexivity|]. split.
    + intros key m t h Hin. now apply generate_not_probe in Hin.
    + intros key Hin. now apply probe_In_probeEvents in Hin.
Qed.

(** ** The dashboard *)

Lemma get_set_same m id r : Dashboard.get (Dashboard.set m id r) id = Some r.
Proof.
  induction m as [|[k v] m IH]; cbn.
  - now rewrite Z.eqb_refl.
  - destruct (k =? id)%Z eqn:E; cbn; rewrite E; auto.
Qed.

Lemma get_set_other m id id' r :
  id <> id' -> Dashboard.get (Dashboard.set m id r) id' = Dashboard.get m id'.
Proof.
  intros Hne. induction m as [|[k v] m IH]; cbn.
  - destruct (id =? id')%Z eqn:E; [apply Z.eqb_eq in E; contradiction|reflexivity].
  - destruct (k =? id)%Z eqn:E; cbn.
    + apply Z.eqb_eq in E. subst k.
      destruct (id =? id')%Z eqn:E'; [apply Z.eqb_eq in E'; contradiction|reflexivity].
    + destruct (k =? id')%Z; auto.
Qed.

Lemma keys_set m id r :
  map fst (Dashboard.set m id r) =
    if existsb (Z.eqb id) (map fst m) then map fst m else map fst m ++ [id].
Proof.
  induction m as [|[k v] m IH]; cbn; [reflexivity|].
  rewrite (Z.eqb_sym id k).
  destruct (k =? id)%Z eqn:E; cbn; [reflexivity|].
  rewrite IH. now destruct (existsb (Z.eqb id) (map fst m)).
Qed.

Lemma existsb_eqb_In id l : existsb (Z.eqb id) l = true <-> In id l.
Proof.
  rewrite existsb_exists. split.
  - intros (x & Hx & E). apply Z.eqb_eq in E. now subst.
  - intros H. exists id. split; [exact H|apply Z.eqb_refl].
Qed.

Lemma keys_set_NoDup m id r :
  NoDup (map fst m) -> NoDup (map fst (Dashboard.set m id r)).
Proof.
  intros H. rewrite keys_set.
  destruct (existsb (Z.eqb id) (map fst m)) eqn:E; [exact H|].
  apply NoDup_app; [exact H | repeat constructor; intros [] |].
  intros x Hx [<-|[]].
  apply existsb_eqb_In in Hx. congruence.
Qed.

Lemma delivered_app a b m :
  Dashboard.delivered (a ++ b) m = Dashboard.delivered b (Dashboard.delivered a m).
Proof. apply fold_left_app. Qed.

Lemma delivered_get rs :
  forall m id,
    Dashboard.get (Dashboard.delivered rs m) id =
      match find (fun r => (r_ticketId r =? id)%Z) (rev rs) with
      | Some r => Some r
      | None => Dashboard.get m id
      end.
Proof.
  induction rs as [|r rs IH] using rev_ind; intros m id; [reflexivity|].
  rewrite delivered_app, rev_app_distr. cbn [rev app find Dashboard.delivered fold_left].
  unfold Dashboard.handleAnalysisUpdate.
  destruct (r_ticketId r =? id)%Z eqn:E.
  - apply Z.eqb_eq in E. subst id. apply get_set_same.
  - rewrite get_set_other by (intros Heq; rewrite Heq, Z.eqb_refl in E; discriminate). apply IH.
Qed.

Lemma delivered_NoDup rs :
  forall m, NoDup (map fst m) -> NoDup (map fst (Dashboard.delivered rs m)).
Proof.
  induction rs as [|r rs IH]; intros m H; [exact H|].
  cbn. apply IH. now apply keys_set_NoDup.
Qed.

Lemma delivered_keys rs :
  forall m id,
    In id (map fst (Dashboard.delivered rs m)) <->
    In id (map fst m) \/ In id (map r_ticketId rs).
Proof.
  induction rs as [|r rs IH]; intros m id; cbn.
  - tauto.
  - rewrite IH. unfold Dashboard.handleAnalysisUpdate. rewrite keys_set.
    destruct (existsb (Z.eqb (r_ticketId r)) (map fst m)) eqn:E.
    + apply existsb_eqb_In in E. intuition (subst; auto).
    + rewrite in_app_iff. cbn. intuition (subst; auto).
Qed.

(** X5. The record of the dashboard keeps one result per ticket id, the
    last one delivered: after any sequence of [onAnalysisUpdate] calls, the
    entry of an id is the last result of the sequence with that id (or the
    entry the record had before, if there is none); started empty, the
    record has pairwise different keys, which are exactly the ticket ids of
    the results delivered. *)
Theorem aiResults_last_write_wins rs prev id :
  Dashboard.get (Dashboard.delivered rs prev) id =
    match find (fun r => (r_ticketId r =? id)%Z) (rev rs) with
    | Some r => Some r
    | None => Dashboard.get prev id
    end /\
  NoDup (map fst (Dashboard.delivered rs [])) /\
  (forall k, In k (map fst (Dashboard.delivered rs [])) <-> In k (map r_ticketId rs)).
Proof.
  split; [apply delivered_get|]. split.
  - apply delivered_NoDup. constructor.
  - intros k. rewrite delivered_keys. cbn. tauto.
Qed.










(** An answer that has a [ticketId] of its own is filed under that id: the
    ticket it was asked for has no entry. *)
Example answer_with_ticketId_is_filed_elsewhere :
  Dashboard.get
    (Dashboard.delivered
       (results (trace (snd (startAnalysis
                               (Sample.envAt 1 (Sample.answerItem Sample.refusal))
                               Sample.cfg Sample.three opened)))) []) 102 = None /\
  Dashboard.get
    (Dashboard.delivered
       (results (trace (snd (startAnalysis
                               (Sample.envAt 1 (Sample.answerItem Sample.refusal))
                               Sample.cfg Sample.three opened)))) []) 999 =
    Some (spread 102 Sample.refusal).
Proof. vm_compute. split; reflexivity. Qed.

(** ** The statistics of the dashboard *)

Lemma Math_round_bounds (x : Q) (a b : Z) :
  (inject_Z a <= x)%Q -> (x <= inject_Z b)%Q -> (a <= Math_round x <= b)%Z.
Proof.
  intros Ha Hb. unfold Math_round. split.
  - rewrite <- (Qfloor_Z a). apply Qfloor_resp_le. lra.
  - assert (H : (Qfloor (x + (1 # 2)) <= Qfloor (inject_Z b + (1 # 2)))%Z)
      by (apply Qfloor_resp_le; lra).
    assert (Hf : Qfloor (inject_Z b + (1 # 2)) = b).
    { symmetry. apply Z.le_antisymm.
      - rewrite <- (Qfloor_Z b) at 1. apply Qfloor_resp_le. lra.
      - assert (Qfloor (inject_Z b + (1 # 2)) < b + 1)%Z; [|lia].
        rewrite Zlt_Qlt, inject_Z_plus.
        eapply Qle_lt_trans; [apply Qfloor_le|].
        change (inject_Z 1) with 1%Q. lra. }
    lia.
Qed.

Lemma Math_round_Z (z : Z) : Math_round (inject_Z z) = z.
Proof.
  assert (H : (z <= Math_round (inject_Z z) <= z)%Z) by (apply Math_round_bounds; lra).
  lia.
Qed.

Lemma totalScore_bounds (values : list AiAnalysisResult) (lo hi : Q) :
  (forall r, In r values -> lo <= score r <= hi)%Q ->
  forall acc,
    (acc + inject_Z (Z.of_nat (length values)) * lo <=
       fold_left (fun acc curr => acc + score curr) values acc <=
     acc + inject_Z (Z.of_nat (length values)) * hi)%Q.
Proof.
  induction values as [|r values IH]; intros H acc.
  - cbn [fold_left length Z.of_nat]. change (inject_Z 0) with 0%Q. lra.
  - cbn [fold_left length].
    destruct (IH (fun x Hx => H x (or_intror Hx)) (acc + score r)%Q) as [L U].
    destruct (H r (or_introl eq_refl)) as [Lr Ur].
    rewrite Nat2Z.inj_succ, <- Z.add_1_r, inject_Z_plus.
    change (inject_Z 1) with 1%Q. split; lra.
Qed.

Lemma filter_all {A} (f : A -> bool) l :
  (forall x, In x l -> f x = true) -> filter f l = l.
Proof.
  induction l as [|x l IH]; intros H; [reflexivity|].
  cbn. rewrite (H x (or_introl eq_refl)), IH; [reflexivity|].
  intros y Hy. apply H. now right.
Qed.

Lemma filter_none {A} (f : A -> bool) l :
  (forall x, In x l -> f x = false) -> filter f l = [].
Proof.
  induction l as [|x l IH]; intros H; [reflexivity|].
  cbn. rewrite (H x (or_introl eq_refl)), IH; [reflexivity|].
  intros y Hy. apply H. now right.
Qed.

Lemma In_values (m : Dashboard.AiResults) r :
  In r (map snd m) -> exists k, In (k, r) m.
Proof.
  rewrite in_map_iff. intros ([k r'] & E & H). cbn in E. subst r'. eauto.
Qed.

(** X7. The statistics of the header are absent exactly when no ticket
    has been analysed.  When they are present, the RCA rate is a whole
    percentage from 0 to 100, it is 100 when every result has an RCA and 0
    when none has, and the average handed to [toFixed] lies between 0 and
    10 when every score does. *)
Theorem stats_bounds (aiResults : Dashboard.AiResults) :
  (Dashboard.stats aiResults = None <-> aiResults = []) /\
  forall s,
    Dashboard.stats aiResults = Some s ->
    (0 <= Dashboard.rcaPercentage s <= 100)%Z /\
    ((forall k r, In (k, r) aiResults -> rcaDetected r = true) ->
     Dashboard.rcaPercentage s = 100%Z) /\
    ((forall k r, In (k, r) aiResults -> rcaDetected r = false) ->
     Dashboard.rcaPercentage s = 0%Z) /\
    ((forall k r, In (k, r) aiResults -> (0 <= score r <= 10)%Q) ->
     (0 <= Dashboard.avgScore s <= 10)%Q).
Proof.
  split.
  { unfold Dashboard.stats. destruct aiResults; cbn; split; congruence. }
  intros s Hs. unfold Dashboard.stats in Hs.
  destruct aiResults as [|kv rest] eqn:Hm; [discriminate|]. rewrite <- Hm in *.
  assert (Hn : (0 < length aiResults)%nat) by (rewrite Hm; cbn; lia).
  replace (length aiResults =? 0)%nat with false in Hs
    by (symmetry; apply Nat.eqb_neq; lia).
  injection Hs as <-. cbn [Dashboard.rcaPercentage Dashboard.avgScore].
  set (n := inject_Z (Z.of_nat (length aiResults))).
  assert (Hnq : (0 < n)%Q).
  { subst n. change 0%Q with (inject_Z 0). rewrite <- Zlt_Qlt. lia. }
  set (values := map snd aiResults).
  assert (Hlen : length values = length aiResults) by apply length_map.
  split; [|split; [|split]].
  - set (c := inject_Z (Z.of_nat (length (filter rcaDetected values)))).
    assert (Hc : (0 <= c <= n)%Q).
    { subst c n. pose proof (filter_length_le rcaDetected values).
      split; [change 0%Q with (inject_Z 0)|]; rewrite <- Zle_Qle; lia. }
    apply Math_round_bounds; cbn [inject_Z].
    + apply Qmult_le_0_compat; [|lra]. apply Qle_shift_div_l; lra.
    + assert (c / n <= 1)%Q by (apply Qle_shift_div_r; lra).
      apply Qle_trans with (1 * 100)%Q; [apply Qmult_le_compat_r; lra |].
      unfold inject_Z. lra.
  - intros Hall. rewrite filter_all.
    + fold n. rewrite Hlen. fold n.
      assert (E : (n / n * 100 == inject_Z 100)%Q) by (cbn; field; lra).
      unfold Math_round. rewrite E. apply (Math_round_Z 100).
    + intros r Hr. apply In_values in Hr. destruct Hr as [k Hr]. eauto.
  - intros Hnone. rewrite filter_none.
    + cbn [length Z.of_nat].
      assert (E : (inject_Z 0 / n * 100 == inject_Z 0)%Q) by (cbn; field; lra).
      unfold Math_round. rewrite E. apply (Math_round_Z 0).
    + intros r Hr. apply In_values in Hr. destruct Hr as [k Hr]. eauto.
  - intros Hsc.
    destruct (totalScore_bounds values 0 10) with (acc := 0%Q) as [L U].
    { intros r Hr. apply In_values in Hr. destruct Hr as [k Hr]. eauto. }
    rewrite Hlen in L, U. fold n in L, U.
    split.
    + apply Qle_shift_div_l; lra.
    + apply Qle_shift_div_r; lra.
Qed.

(** ** The multi-select filters *)

Lemma array_includes_In l v : array_includes l v = true <-> In v l.
Proof.
  unfold array_includes. rewrite existsb_exists. split.
  - intros (x & Hx & E). apply String.eqb_eq in E. now subst.
  - intros H. exists v. split; [exact H|apply String.eqb_refl].
Qed.

Lemma arrayFilter_with key value prev :
  arrayFilter key (with_arrayFilter key value prev) = value.
Proof. now destruct key. Qed.

Lemma arrayFilter_with_other key key' value prev :
  key <> key' -> arrayFilter key' (with_arrayFilter key value prev) = arrayFilter key' prev.
Proof. destruct key, key'; congruence || reflexivity. Qed.

Lemma with_arrayFilter_twice key v v' prev :
  with_arrayFilter key v' (with_arrayFilter key v prev) = with_arrayFilter key v' prev.
Proof. now destruct key. Qed.

Lemma with_arrayFilter_same key prev :
  with_arrayFilter key (arrayFilter key prev) prev = prev.
Proof. destruct key, prev; reflexivity. Qed.

Lemma In_remove (l : list string) v x :
  In x (filter (fun item => negb (String.eqb item v)) l) <-> In x l /\ x <> v.
Proof.
  rewrite filter_In, negb_true_iff. split; intros [H E]; split; auto.
  - intros ->. now rewrite String.eqb_refl in E.
  - now apply String.eqb_neq.
Qed.

Lemma remove_absent (l : list string) v :
  ~ In v l -> filter (fun item => negb (String.eqb item v)) l = l.
Proof.
  intros H. induction l as [|x l IH]; [reflexivity|].
  cbn. destruct (String.eqb_spec x v) as [->|Hne]; cbn.
  - exfalso. apply H. now left.
  - rewrite IH; [reflexivity|]. intros Hin. apply H. now right.
Qed.

(** X8. Toggling a value of a multi-select filter flips the membership of
    that value and of no other: the value is selected afterwards exactly
    when it was not before, every other value stays as it was, a selection
    without repetitions stays without repetitions, and the other filters
    are untouched. *)
Theorem toggleArrayFilter_flips key value prev :
  let next := toggleArrayFilter key value prev in
  (In value (arrayFilter key next) <-> ~ In value (arrayFilter key prev)) /\
  (forall other, other <> value ->
     (In other (arrayFilter key next) <-> In other (arrayFilter key prev))) /\
  (NoDup (arrayFilter key prev) -> NoDup (arrayFilter key next)) /\
  (forall key', key' <> key -> arrayFilter key' next = arrayFilter key' prev) /\
  clientCode next = clientCode prev /\ clientName next = clientName prev /\
  f_subject next = f_subject prev /\ dateFrom next = dateFrom prev /\
  dateTo next = dateTo prev.
Proof.
  cbn zeta. unfold toggleArrayFilter.
  destruct (array_includes (arrayFilter key prev) value) eqn:E.
  - apply array_includes_In in E.
    split; [|split; [|split; [|split]]].
    + rewrite arrayFilter_with, In_remove. tauto.
    + intros other Hne. rewrite arrayFilter_with, In_remove. tauto.
    + intros Hnd. rewrite arrayFilter_with. now apply NoDup_filter.
    + intros key' Hk. apply arrayFilter_with_other. congruence.
    + destruct key; repeat split.
  - assert (Hn : ~ In value (arrayFilter key prev)).
    { rewrite <- array_includes_In. congruence. }
    split; [|split; [|split; [|split]]].
    + rewrite arrayFilter_with, in_app_iff. cbn. tauto.
    + intros other Hne. rewrite arrayFilter_with, in_app_iff. cbn.
      split; [intros [H|[H|[]]]; [exact H | congruence] | tauto].
    + intros Hnd. rewrite arrayFilter_with.
      apply NoDup_app; [exact Hnd | repeat constructor; intros [] |].
      intros x Hx [<-|[]]. contradiction.
    + intros key' Hk. apply arrayFilter_with_other. congruence.
    + destruct key; repeat split.
Qed.

(** X9. Toggling a value that is not selected twice gives back the very
    filters one started from; toggling a selected value twice leaves the
    same values selected, with that value moved to the end. *)
Theorem toggleArrayFilter_twice key value prev :
  (~ In value (arrayFilter key prev) ->
   toggleArrayFilter key value (toggleArrayFilter key value prev) = prev) /\
  (In value (arrayFilter key prev) ->
   arrayFilter key (toggleArrayFilter key value (toggleArrayFilter key value prev)) =
     filter (fun item => negb (String.eqb item value)) (arrayFilter key prev) ++ [value]).
Proof.
  split; intros H.
  - unfold toggleArrayFilter at 2.
    replace (array_includes (arrayFilter key prev) value) with false
      by (symmetry; destruct (array_includes _ _) eqn:E; [|reflexivity];
          apply array_includes_In in E; contradiction).
    unfold toggleArrayFilter. rewrite arrayFilter_with.
    replace (array_includes (arrayFilter key prev ++ [value]) value) with true
      by (symmetry; apply array_includes_In, in_or_app; right; now left).
    rewrite with_arrayFilter_twice, filter_app, remove_absent by exact H.
    cbn. rewrite String.eqb_refl. cbn. rewrite app_nil_r.
    apply with_arrayFilter_same.
  - unfold toggleArrayFilter at 2.
    replace (array_includes (arrayFilter key prev) value) with true
      by (symmetry; now apply array_includes_In).
    unfold toggleArrayFilter. rewrite arrayFilter_with.
    replace (array_includes
               (filter (fun item => negb (String.eqb item value)) (arrayFilter key prev))
               value) with false.
    + now rewrite arrayFilter_with.
    + symmetry. destruct (array_includes _ _) eqn:E; [|reflexivity].
      apply array_includes_In, In_remove in E. tauto.
Qed.

(** ** The search query *)

Lemma clientCodeClause_nil filters :
  clientCodeClause filters = [] <->
  forall piece, In piece (split comma (clientCode filters)) -> JS.trim piece = EmptyString.
Proof.
  unfold clientCodeClause.
  set (codes := filter (fun c => (0 <? String.length c)%nat)
                       (map JS.trim (split comma (clientCode filters)))).
  assert (Hcodes : codes = [] <->
            forall piece, In piece (split comma (clientCode filters)) ->
                          JS.trim piece = EmptyString).
  { subst codes. split.
    - intros H piece Hin.
      destruct (JS.trim piece) as [|c t] eqn:E; [reflexivity|].
      assert (Hf : In (String c t) (filter (fun c => (0 <? String.length c)%nat)
                         (map JS.trim (split comma (clientCode filters))))).
      { apply filter_In. split; [|reflexivity]. rewrite <- E. now apply in_map. }
      rewrite H in Hf. destruct Hf.
    - intros H. apply filter_none. intros x Hx.
      apply in_map_iff in Hx. destruct Hx as (piece & <- & Hin).
      now rewrite (H piece Hin). }
  destruct (nonEmpty (clientCode filters)) eqn:Hne.
  - rewrite <- Hcodes. destruct codes as [|c [|c' cs]]; split; congruence.
  - split; [intros _|reflexivity].
    destruct (clientCode filters); [|discriminate].
    intros piece [<-|[]]. reflexivity.
Qed.

(** X10. A client-code box that holds nothing but commas and whitespace
    adds no clause to the query: the query sent is the one for an empty
    box. *)
Theorem blank_client_codes_add_no_clause filters :
  (forall piece, In piece (split comma (clientCode filters)) ->
                 JS.trim piece = EmptyString) ->
  clientCodeClause filters = [] /\
  queryString filters = queryString (with_clientCode EmptyString filters).
Proof.
  intros H. apply clientCodeClause_nil in H.
  split; [exact H|]. unfold queryString, queryParts. rewrite H. reflexivity.
Qed.

Lemma blank_client_codes_add_no_clause_witness :
  clientCodeClause sampleFilters = [] /\
  queryString sampleFilters = queryString (with_clientCode EmptyString sampleFilters).
Proof.
  apply (blank_client_codes_add_no_clause sampleFilters).
  intros piece Hin. cbn in Hin.
  destruct Hin as [<-|[<-|[<-|[]]]]; reflexivity.
Defined.

(** X11. A date range of which one end is missing is dropped as a whole:
    the query is the one without any date. *)
Theorem half_open_date_range_is_dropped filters :
  dateFrom filters = EmptyString \/ dateTo filters = EmptyString ->
  queryString filters = queryString (with_dates EmptyString EmptyString filters).
Proof.
  intros H. unfold queryString, queryParts. cbn [with_dates clientCode isClientCodeNegated
    clientName f_priority ticketType f_subject isSubjectNegated dateFrom dateTo nonEmpty andb].
  replace (nonEmpty (dateFrom filters) && nonEmpty (dateTo filters)) with false.
  - reflexivity.
  - destruct H as [-> | ->]; [reflexivity|]. now rewrite andb_false_r.
Qed.

Lemma half_open_date_range_is_dropped_witness :
  queryString sampleFilters =
    queryString (with_dates EmptyString EmptyString sampleFilters).
Proof. apply (half_open_date_range_is_dropped sampleFilters). right. reflexivity. Defined.

Example queryString_sample :
  queryString {| clientCode := "ACME, BETA,"; isClientCodeNegated := true;
                 clientName := EmptyString;
                 f_priority := ["P1"; "P2"]; ticketType := [];
                 f_subject := "system down"; isSubjectNegated := false;
                 dateFrom := "2024-01-01"; dateTo := "2024-01-31" |} =
    ("-ticketClientCode:(ACME OR BETA) AND priority:(P1 OR P2) AND subject:(system down)" ++
     " AND created:[" ++ String dquote "2024-01-01T00:00:00" ++ String dquote " TO " ++
     String dquote "2024-01-31T23:59:59.999" ++ String dquote "]")%string /\
  queryString sampleFilters = "ticketClientName:ACME AND priority:(P1 OR P2) AND subject:(system down)".
Proof. split; reflexivity. Qed.

(** ** The CSV export *)

Lemma includes_unit s c : JS.includes s (String c EmptyString) = occurs c s.
Proof.
  induction s as [|d s IH]; [reflexivity|].
  cbn [JS.includes occurs]. rewrite IH. f_equal.
  cbn. destruct (ascii_dec c d) as [->|Hne].
  - rewrite Ascii.eqb_refl. now destruct s.
  - symmetry. apply Ascii.eqb_neq. congruence.
Qed.

Lemma escapeCsv_plain s :
  occurs comma s = false -> occurs dquote s = false -> occurs newline s = false ->
  escapeCsv (Some s) = s.
Proof. intros H1 H2 H3. unfold escapeCsv. now rewrite !includes_unit, H1, H2, H3. Qed.

Lemma escapeCsv_cases s :
  (occurs comma s = false /\ occurs dquote s = false /\ escapeCsv (Some s) = s) \/
  escapeCsv (Some s) = String dquote (doubleQuotes s ++ String dquote EmptyString).
Proof.
  unfold escapeCsv. rewrite !includes_unit.
  destruct (occurs comma s), (occurs dquote s), (occurs newline s); cbn; auto.
Qed.

Lemma fieldEnd_not_quote r r' : fieldEnd r -> r <> String dquote r'.
Proof. intros [->|[x ->]]; discriminate. Qed.

(** Two plain fields that are followed by the end of the row or by a comma
    and give the same text are the same field. *)
Lemma plain_cancel a :
  forall b ra rb,
    occurs comma a = false -> occurs comma b = false ->
    fieldEnd ra -> fieldEnd rb ->
    (a ++ ra)%string = (b ++ rb)%string -> a = b /\ ra = rb.
Proof.
  induction a as [|c a IH]; intros [|d b] ra rb Ha Hb Hra Hrb H; cbn in H.
  - auto.
  - exfalso. destruct Hra as [->|[x ->]]; [discriminate|].
    injection H as <- _. cbn in Hb. rewrite ?Ascii.eqb_refl in Hb. discriminate.
  - exfalso. destruct Hrb as [->|[x ->]]; [discriminate|].
    injection H as -> _. cbn in Ha. rewrite ?Ascii.eqb_refl in Ha. discriminate.
  - injection H as -> H. cbn in Ha, Hb. apply orb_false_elim in Ha, Hb.
    destruct (IH b ra rb (proj2 Ha) (proj2 Hb) Hra Hrb H) as [-> ->]. auto.
Qed.

(** The same for the inside of two quoted fields, up to the closing
    quote. *)
Lemma quoted_cancel a :
  forall b ra rb,
    fieldEnd ra -> fieldEnd rb ->
    (doubleQuotes a ++ String dquote ra)%string =
      (doubleQuotes b ++ String dquote rb)%string ->
    a = b /\ ra = rb.
Proof.
  induction a as [|c a IH]; intros [|d b] ra rb Hra Hrb H; cbn [doubleQuotes append] in H.
  - injection H as ->. auto.
  - exfalso. destruct (Ascii.eqb_spec d dquote) as [->|Hne]; cbn [append] in H.
    + injection H as H. now apply fieldEnd_not_quote in H.
    + injection H as H _. exfalso. congruence.
  - exfalso. destruct (Ascii.eqb_spec c dquote) as [->|Hne]; cbn [append] in H.
    + injection H as H. symmetry in H. now apply fieldEnd_not_quote in H.
    + injection H as H _. exfalso. congruence.
  - destruct (Ascii.eqb_spec c dquote) as [->|Hc], (Ascii.eqb_spec d dquote) as [->|Hd];
      cbn [append] in H.
    + injection H as H. destruct (IH b ra rb Hra Hrb H) as [-> ->]. auto.
    + injection H as H _. exfalso. congruence.
    + injection H as H _. exfalso. congruence.
    + injection H as -> H. destruct (IH b ra rb Hra Hrb H) as [-> ->]. auto.
Qed.

Lemma escapeCsv_cancel a b ra rb :
  fieldEnd ra -> fieldEnd rb ->
  (escapeCsv (Some a) ++ ra)%string = (escapeCsv (Some b) ++ rb)%string ->
  a = b /\ ra = rb.
Proof.
  intros Hra Hrb H.
  destruct (escapeCsv_cases a) as [(Ca & Qa & Ea)|Ea],
           (escapeCsv_cases b) as [(Cb & Qb & Eb)|Eb];
    rewrite Ea, Eb in H.
  - now apply plain_cancel.
  - exfalso. cbn in H. destruct a as [|c a]; cbn in H.
    + now apply fieldEnd_not_quote in H.
    + injection H as -> _. cbn in Qa. rewrite ?Ascii.eqb_refl in Qa. discriminate.
  - exfalso. cbn in H. destruct b as [|d b]; cbn in H.
    + symmetry in H. now apply fieldEnd_not_quote in H.
    + injection H as <- _. cbn in Qb. rewrite ?Ascii.eqb_refl in Qb. discriminate.
  - cbn in H. injection H as H. rewrite !append_assoc in H. cbn in H.
    now apply quoted_cancel.
Qed.

Lemma join_cons sep x l :
  join sep (x :: l) =
    (x ++ match l with [] => EmptyString | _ => sep ++ join sep l end)%string.
Proof. destruct l; cbn [join]; [now rewrite append_nil_r | reflexivity]. Qed.

Lemma csvRow_cons f fs :
  csvRow (f :: fs) =
    (escapeCsv f ++ match fs with [] => EmptyString | _ => "," ++ csvRow fs end)%string /\
  fieldEnd (match fs with [] => EmptyString | _ => "," ++ csvRow fs end)%string.
Proof.
  unfold csvRow. cbn [map]. rewrite join_cons. split.
  - now destruct fs.
  - destruct fs; [now left | right; eexists; reflexivity].
Qed.

Lemma csvRow_inj fs :
  forall gs,
    fs <> [] -> gs <> [] ->
    csvRow (map Some fs) = csvRow (map Some gs) -> fs = gs.
Proof.
  induction fs as [|a fs IH]; intros [|b gs] Hf Hg H; try congruence.
  cbn [map] in H.
  destruct (csvRow_cons (Some a) (map Some fs)) as [Ea Ra].
  destruct (csvRow_cons (Some b) (map Some gs)) as [Eb Rb].
  rewrite Ea, Eb in H.
  destruct (escapeCsv_cancel a b _ _ Ra Rb H) as [-> Hrest].
  f_equal. destruct fs as [|a' fs], gs as [|b' gs]; cbn [map] in Hrest;
    try reflexivity; try discriminate.
  apply IH; try discriminate. cbn [map]. now injection Hrest.
Qed.

(** X12. The export is lossless on a row: two different non-empty lists
    of field texts never give the same CSV line, whatever commas, quotes
    and newlines the fields contain. *)
Theorem csvRow_distinguishes_rows (fs gs : list string) :
  fs <> [] -> gs <> [] -> fs <> gs ->
  csvRow (map Some fs) <> csvRow (map Some gs).
Proof. intros Hf Hg Hne H. apply Hne. now apply csvRow_inj. Qed.

Lemma csvRow_distinguishes_rows_witness :
  csvRow (map Some ["a,b"; "c"]) <> csvRow (map Some ["a"; "b,c"]).
Proof.
  apply (csvRow_distinguishes_rows ["a,b"; "c"] ["a"; "b,c"]); discriminate.
Defined.

(** ** The request URLs *)

Lemma occurs_app c a b : occurs c (a ++ b)%string = occurs c a || occurs c b.
Proof. induction a as [|d a IH]; cbn; [reflexivity|]. now rewrite IH, orb_assoc. Qed.

Lemma encodeUnit_safe d c : occurs c (encodeUnit d) = true -> urlSafe c = true.
Proof.
  assert (H : forallb urlSafe (list_ascii_of_string (encodeUnit d)) = true).
  { destruct d as [[] [] [] [] [] [] [] []]; vm_compute; reflexivity. }
  revert H. generalize (encodeUnit d). intros s. induction s as [|x s IH]; cbn.
  - discriminate.
  - intros Hall Hocc. apply andb_prop in Hall. destruct Hall as [Hx Hs].
    apply orb_prop in Hocc. destruct Hocc as [E|Hocc]; [|now apply IH].
    apply Ascii.eqb_eq in E. now subst.
Qed.

Lemma encodeURIComponent_safe s c :
  occurs c (encodeURIComponent s) = true -> urlSafe c = true.
Proof.
  induction s as [|d s IH]; cbn [encodeURIComponent].
  - discriminate.
  - rewrite occurs_app. intros H. apply orb_prop in H.
    destruct H as [H|H]; [now apply encodeUnit_safe in H | now apply IH].
Qed.

(** X13. Whatever the filters hold, the address [searchTickets] asks for
    has the five fixed parameters and nothing else: the query is appended
    after [q=] in a form that consists of unreserved characters and percent
    escapes only, so none of its characters can end the parameter or start
    another one.  Without the proxy that address is fetched as it is; with
    the proxy it is appended to the proxy address in the same encoded form,
    so that the proxy sees none of its separators. *)
Theorem search_url_has_the_five_parameters this filters :
  exists q,
    searchTargetUrl filters =
      (BASE_REPORTING_URL ++ "?index=tasks&showTotal=true&page=0&size=50&q=" ++ q)%string /\
    (forall c, occurs c q = true -> urlSafe c = true) /\
    (forall c, In c ["&"; "="; "?"; "#"; "+"; " "; "/"; ":"]%char -> occurs c q = false) /\
    (proxyEnabled this = false -> searchUrl this filters = searchTargetUrl filters) /\
    (proxyEnabled this = true ->
     exists target,
       searchUrl this filters = (proxyUrl this ++ target)%string /\
       forall c, In c ["&"; "="; "?"; "#"; "+"; " "; "/"; ":"]%char -> occurs c target = false).
Proof.
  assert (Hnone : forall s c, In c ["&"; "="; "?"; "#"; "+"; " "; "/"; ":"]%char ->
                              occurs c (encodeURIComponent s) = false).
  { intros s c Hc. destruct (occurs c (encodeURIComponent s)) eqn:E; [|reflexivity].
    apply encodeURIComponent_safe in E.
    cbn in Hc. repeat (destruct Hc as [<-|Hc]; [discriminate E|]). destruct Hc. }
  exists (encodeURIComponent (queryString filters)).
  split; [reflexivity|]. split; [apply encodeURIComponent_safe|].
  split; [apply Hnone|]. unfold searchUrl, getProxiedUrl. split; intros ->; cbn [negb].
  - reflexivity.
  - eexists. split; [reflexivity|]. apply Hnone.
Qed.

(** ** Finding the token *)

Lemma lookup_In key props v : lookup key props = Some v -> In (key, v) props.
Proof.
  induction props as [|[k x] props IH]; cbn; [discriminate|].
  destruct (String.eqb_spec k key) as [->|Hne].
  - intros [= ->]. now left.
  - intros H. right. now apply IH.
Qed.

Lemma In_lookup key props v :
  NoDup (map fst props) -> In (key, v) props -> lookup key props = Some v.
Proof.
  induction props as [|[k x] props IH]; cbn; intros Hnd Hin; [destruct Hin|].
  inversion Hnd as [|? ? Hk Hnd']; subst.
  destruct Hin as [[= -> ->]|Hin].
  - now rewrite String.eqb_refl.
  - destruct (String.eqb_spec k key) as [->|Hne]; [|now apply IH].
    exfalso. apply Hk. change key with (fst (key, v)). now apply in_map.
Qed.

Lemma firstSome_Some {A B} (f : A -> option B) l b :
  firstSome f l = Some b -> exists x, In x l /\ f x = Some b.
Proof.
  induction l as [|x l IH]; cbn; [discriminate|].
  destruct (f x) as [b'|] eqn:E.
  - intros [= ->]. eauto.
  - intros H. destruct (IH H) as (y & Hy & Hf). eauto.
Qed.

Lemma firstSome_None {A B} (f : A -> option B) l :
  (forall x, In x l -> f x = None) -> firstSome f l = None.
Proof.
  induction l as [|x l IH]; cbn; intros H; [reflexivity|].
  rewrite (H x (or_introl eq_refl)). apply IH. intros y Hy. apply H. now right.
Qed.

(** Each of the four rules gives the string value of a property. *)
Lemma rules_sound json t :
  explicitToken json = Some t \/ tokenNamed json = Some t \/
  longString json = Some t \/ onlyString json = Some t ->
  exists key, In (key, JString t) (entries json).
Proof.
  unfold explicitToken, tokenNamed, longString, onlyString, prop.
  intros [H|[H|[H|H]]].
  - apply firstSome_Some in H. destruct H as (key & _ & H).
    destruct (lookup key (entries json)) as [[| | |[|c s]| |]|] eqn:E; try discriminate.
    injection H as <-. exists key. now apply lookup_In.
  - apply firstSome_Some in H. destruct H as (key & _ & H).
    destruct (JS.includes _ _); [|discriminate].
    destruct (lookup key (entries json)) as [[| | |s| |]|] eqn:E; try discriminate.
    injection H as <-. exists key. now apply lookup_In.
  - apply firstSome_Some in H. destruct H as (key & _ & H).
    destruct (lookup key (entries json)) as [[| | |s| |]|] eqn:E; try discriminate.
    destruct (15 <? String.length s)%nat; [|discriminate].
    injection H as <-. exists key. now apply lookup_In.
  - destruct (entries json) as [|[k v] [|kv rest]]; cbn in H; try discriminate.
    + destruct v; try discriminate. injection H as <-. exists k. now left.
    + destruct v; discriminate.
Qed.

Lemma rules_none json :
  (forall key s, ~ In (key, JString s) (entries json)) ->
  explicitToken json = None /\ tokenNamed json = None /\
  longString json = None /\ onlyString json = None.
Proof.
  intros H.
  assert (Hn : forall f, (explicitToken json = Some f \/ tokenNamed json = Some f \/
                          longString json = Some f \/ onlyString json = Some f) -> False).
  { intros f Hf. destruct (rules_sound json f Hf) as [key Hk]. exact (H key f Hk). }
  repeat split.
  - destruct (explicitToken json) eqn:E; [exfalso; eauto|reflexivity].
  - destruct (tokenNamed json) eqn:E; [exfalso; eauto|reflexivity].
  - destruct (longString json) eqn:E; [exfalso; eauto 6|reflexivity].
  - destruct (onlyString json) eqn:E; [exfalso; eauto 6|reflexivity].
Qed.

(** X14. When the token endpoint answers with a JSON object, the token
    [login] returns is the string value of one of the properties of that
    object, never anything else; the only error it throws is 'Could not
    find token in response', and an object without any string-valued
    property is always rejected with it. *)
Theorem login_token_is_a_string_of_the_response
    (JSON_parse : string -> option Json) (response : Response) (props : list (string * Json)) :
  ok response = true ->
  JSON_parse (text response) = Some (JObject props) ->
  (forall t, login JSON_parse response = inr t -> exists key, In (key, JString t) props) /\
  ((forall key s, ~ In (key, JString s) props) ->
   login JSON_parse response = inl (CouldNotFindToken (JObject props))) /\
  (forall e, login JSON_parse response = inl e -> e = CouldNotFindToken (JObject props)).
Proof.
  intros Hok Hp. unfold login. rewrite Hok, Hp. cbn [negb tokenOf].
  split; [|split].
  - intros t H. apply (rules_sound (JObject props) t).
    destruct (explicitToken (JObject props)) as [a|]; [injection H as <-; auto|].
    destruct (tokenNamed (JObject props)) as [b|]; [injection H as <-; auto|].
    destruct (longString (JObject props)) as [c|]; [injection H as <-; auto|].
    destruct (onlyString (JObject props)) as [d|]; [injection H as <-; auto|discriminate].
  - intros Hnone. destruct (rules_none (JObject props) Hnone) as (-> & -> & -> & ->).
    reflexivity.
  - intros e.
    destruct (explicitToken (JObject props)); [discriminate|].
    destruct (tokenNamed (JObject props)); [discriminate|].
    destruct (longString (JObject props)); [discriminate|].
    destruct (onlyString (JObject props)); [discriminate|]. congruence.
Qed.

Lemma login_token_is_a_string_of_the_response_witness :
  exists key,
    In (key, JString "a-1")
       [("expires", JNumber "3600"); ("aiOpsAccessToken", JString "a-1")].
Proof.
  apply (login_token_is_a_string_of_the_response
           (fun _ => Some (JObject [("expires", JNumber "3600");
                                    ("aiOpsAccessToken", JString "a-1")]))
           {| ok := true; resp_status := 200; text := "{...}" |}
           [("expires", JNumber "3600"); ("aiOpsAccessToken", JString "a-1")]
           eq_refl eq_refl).
  reflexivity.
Defined.

(** X15. A non-empty string under [aiOpsAccessToken] is the token,
    wherever the property stands in the object and whatever the object
    holds besides, a [token] property included. *)
Theorem aiOpsAccessToken_has_priority
    (JSON_parse : string -> option Json) (response : Response)
    (props : list (string * Json)) (c : ascii) (s : string) :
  ok response = true ->
  JSON_parse (text response) = Some (JObject props) ->
  NoDup (map fst props) ->
  In ("aiOpsAccessToken", JString (String c s)) props ->
  login JSON_parse response = inr (String c s).
Proof.
  intros Hok Hp Hnd Hin. unfold login. rewrite Hok, Hp. cbn [negb tokenOf].
  unfold explicitToken, commonKeys. cbn [firstSome]. unfold prop. cbn [entries].
  now rewrite (In_lookup _ _ _ Hnd Hin).
Qed.

Lemma aiOpsAccessToken_has_priority_witness :
  login (fun _ => Some (JObject [("token", JString "t-1");
                                 ("aiOpsAccessToken", JString "a-1")]))
        {| ok := true; resp_status := 200; text := "{...}" |} = inr "a-1".
Proof.
  apply (aiOpsAccessToken_has_priority
           (fun _ => Some (JObject [("token", JString "t-1");
                                    ("aiOpsAccessToken", JString "a-1")]))
           {| ok := true; resp_status := 200; text := "{...}" |}
           [("token", JString "t-1"); ("aiOpsAccessToken", JString "a-1")]
           "a" "-1" eq_refl eq_refl).
  - repeat constructor; cbn; intuition discriminate.
  - right. left. reflexivity.
Defined.

(** ** The history log of the prompt *)

Lemma stripTags_no_gt s : occurs greaterThan s = false -> stripTags_from false s = s.
Proof.
  induction s as [|c s IH]; [reflexivity|].
  cbn [occurs stripTags_from]. intros H. apply orb_false_elim in H. destruct H as [_ H].
  rewrite H, andb_false_r, IH by exact H. reflexivity.
Qed.

Lemma tagFree_cons c s : c <> lessThan -> tagFree s -> tagFree (String c s).
Proof.
  intros Hc Hs [|d pre] post H; cbn [append] in H.
  - injection H as H _. congruence.
  - injection H as _ H. now apply (Hs pre post).
Qed.

Lemma tagFree_tail c s : tagFree (String c s) -> tagFree s.
Proof. intros H pre post E. apply (H (String c pre) post). cbn. now rewrite E. Qed.

Lemma tagFree_no_gt s : occurs greaterThan s = false -> tagFree s.
Proof.
  intros H pre post E. subst s. rewrite occurs_app in H.
  apply orb_false_elim in H. destruct H as [_ H].
  cbn [occurs] in H. now apply orb_false_elim in H.
Qed.

Lemma stripTags_from_tagFree s : forall inTag, tagFree (stripTags_from inTag s).
Proof.
  induction s as [|c s IH]; intros inTag.
  - destruct inTag; intros [|d pre] post H; discriminate.
  - destruct inTag; cbn [stripTags_from].
    + destruct (Ascii.eqb c greaterThan); [|apply IH].
      apply tagFree_cons; [discriminate | apply IH].
    + destruct (Ascii.eqb_spec c lessThan) as [->|Hc]; cbn [andb].
      * destruct (occurs greaterThan s) eqn:E; [apply IH|].
        rewrite stripTags_no_gt by exact E. apply tagFree_no_gt.
        cbn [occurs]. rewrite E. reflexivity.
      * apply tagFree_cons; [exact Hc | apply IH].
Qed.

Lemma stripTags_tagFree_id s : tagFree s -> stripTags s = s.
Proof.
  unfold stripTags. induction s as [|c s IH]; intros H; [reflexivity|].
  cbn [stripTags_from].
  destruct (Ascii.eqb_spec c lessThan) as [->|Hc]; cbn [andb].
  - rewrite (H EmptyString s eq_refl). now rewrite IH by (now apply tagFree_tail in H).
  - now rewrite IH by (now apply tagFree_tail in H).
Qed.

Lemma stripTags_from_length s :
  forall inTag, (String.length (stripTags_from inTag s) <= String.length s)%nat.
Proof.
  induction s as [|c s IH]; intros inTag; [destruct inTag; cbn; lia|].
  destruct inTag; cbn [stripTags_from String.length].
  - destruct (Ascii.eqb c greaterThan); cbn [String.length];
      [specialize (IH false) | specialize (IH true)]; lia.
  - destruct (Ascii.eqb c lessThan && occurs greaterThan s); cbn [String.length];
      [specialize (IH true) | specialize (IH false)]; lia.
Qed.

(** X16. A history entry with a comment is reported by its comment, and
    the comment reaches the prompt without markup: in the text shown no
    [<] is followed by a [>], stripping it again changes nothing, it is
    not longer than the comment, and a comment without any [>] is shown
    as it is. *)
Theorem comment_reaches_prompt_without_tags (h : HistoryEntry) (c : HistoryComment) :
  comment h = Some c ->
  let shown := stripTags (content c) in
  details h = ("Comment: " ++ String dquote (shown ++ String dquote EmptyString))%string /\
  (forall pre post, shown = (pre ++ String lessThan post)%string ->
                    occurs greaterThan post = false) /\
  stripTags shown = shown /\
  (String.length shown <= String.length (content c))%nat /\
  (occurs greaterThan (content c) = false -> shown = content c).
Proof.
  intros Hc. cbn zeta. unfold details. rewrite Hc.
  split; [reflexivity|]. split; [apply stripTags_from_tagFree|].
  split; [apply stripTags_tagFree_id, stripTags_from_tagFree|].
  split; [apply stripTags_from_length | apply stripTags_no_gt].
Qed.

Lemma comment_reaches_prompt_without_tags_witness :
  details sampleEntry =
    ("Comment: " ++ String dquote (" Restarted  server   a < b" ++ String dquote EmptyString))%string /\
  stripTags " Restarted  server   a < b" = " Restarted  server   a < b".
Proof.
  destruct (comment_reaches_prompt_without_tags sampleEntry
              {| c_id := 1; contentType := "text/html";
                 content := "<p>Restarted <b>server</b></p> a < b";
                 workflowChoice := None |} eq_refl) as (Hd & _ & Hi & _).
  split; [exact Hd | exact Hi].
Defined.

Example historyText_sample :
  historyText [sampleEntry;
               {| entry := {| h_id := 8; h_created := "2024-01-02T11:00:00";
                              h_actorId := "system"; h_source := "workflow" |};
                  actorName := Some "Workflow";
                  comment := None;
                  fieldUpdates := Some [] |}] =
    ("[2024-01-02T10:00:00] agent@acme (email): Comment: " ++
     String dquote (" Restarted  server   a < b" ++ String dquote
       (String newline "[2024-01-02T11:00:00] Workflow (workflow): System/Workflow action")))%string.
Proof. reflexivity. Qed.

(** ** The throughput box *)

Lemma delayMs_bounds (rpm : Z) : rpm <> 0%Z -> (100 <= delayMs rpm <= 60000)%Q.
Proof.
  intros Hne. unfold delayMs. rewrite Math_max_Qmax.
  split; [apply Q.le_max_l|]. apply Q.max_lub; [lra|].
  destruct (Z_lt_le_dec rpm 0) as [Hneg|Hpos].
  - assert (inject_Z rpm < 0)%Q by (change 0%Q with (inject_Z 0); now rewrite <- Zlt_Qlt).
    assert (E : (60000 / inject_Z rpm == - (60000 / - inject_Z rpm))%Q) by (field; lra).
    assert (0 <= 60000 / - inject_Z rpm)%Q by (apply Qle_shift_div_l; lra).
    lra.
  - assert (1 <= inject_Z rpm)%Q by (change 1%Q with (inject_Z 1); rewrite <- Zle_Qle; lia).
    apply Qle_shift_div_r; lra.
Qed.

(** X17. Whatever is typed into the throughput box, the rate stored is
    never zero (a text that does not start with a number gives 10, and so
    does 0), and the interval the throttle derives from it lies between
    100 milliseconds and one minute. *)
Theorem rpm_box_never_gives_zero (value : string) :
  rpmOfInput value <> 0%Z /\
  (parseInt value = None -> rpmOfInput value = 10%Z) /\
  (100 <= delayMs (rpmOfInput value) <= 60000)%Q.
Proof.
  assert (H : rpmOfInput value <> 0%Z).
  { unfold rpmOfInput. destruct (parseInt value) as [[|p|p]|]; discriminate. }
  split; [exact H|]. split.
  - unfold rpmOfInput. now intros ->.
  - now apply delayMs_bounds.
Qed.

Example parseInt_samples :
  parseInt "42" = Some 42%Z /\ parseInt "  -7px" = Some (-7)%Z /\
  parseInt "0x1F" = Some 31%Z /\ parseInt "2.5" = Some 2%Z /\
  parseInt "1e3" = Some 1%Z /\ parseInt EmptyString = None /\
  parseInt "abc" = None /\ parseInt "0x" = None /\
  rpmOfInput "0" = 10%Z /\ rpmOfInput "-0" = 10%Z /\ rpmOfInput "30" = 30%Z.
Proof. repeat split; reflexivity. Qed.

(** ** The order of the ticket list *)

Section SortFacts.
Context {A : Type} (compareFn : A -> A -> Q).
Hypothesis antisym : forall a b, (0 < compareFn a b)%Q -> (compareFn b a <= 0)%Q.
Hypothesis trans : forall a b c,
  (compareFn a b <= 0)%Q -> (compareFn b c <= 0)%Q -> (compareFn a c <= 0)%Q.





End SortFacts.





Example processedTickets_sample :
  map ticketId
    (processedTickets (fun _ => 0%Q) score_asc
       [(102%Z, Sample.okResult 102); (103%Z, failedResult (Sample.tk 103) Sample.serverError)]
       Sample.three) = [103%Z; 102%Z; 101%Z] /\
  map ticketId
    (processedTickets (fun _ => 0%Q) score_desc
       [(102%Z, Sample.okResult 102); (103%Z, failedResult (Sample.tk 103) Sample.serverError)]
       Sample.three) = [102%Z; 101%Z; 103%Z].
Proof. split; reflexivity. Qed.

(** ** Logging in *)

(** X19. When the token endpoint answers with an object in which no
    common key holds a non-empty string and the first property named like a
    token holds the empty string, [login] succeeds with the empty token:
    the application moves on to the dashboard, and every search and every
    history request then fails with 'Not authenticated' before anything is
    sent. *)
Theorem empty_token_opens_the_dashboard_unauthenticated
    (JSON_parse : string -> option Json) (response : Response)
    (props : list (string * Json)) (this : ApiService) (view : ViewState) :
  ok response = true ->
  JSON_parse (text response) = Some (JObject props) ->
  explicitToken (JObject props) = None ->
  tokenNamed (JObject props) = Some EmptyString ->
  let after := handleSubmit JSON_parse response this view in
  login JSON_parse response = inr EmptyString /\
  snd after = DASHBOARD /\
  token (fst after) = Some EmptyString /\
  (forall filters, searchRequest (fst after) filters = inl (Error "Not authenticated")) /\
  (forall id, historyRequest (fst after) id = inl (Error "Not authenticated")).
Proof.
  intros Hok Hp He Ht. cbn zeta.
  assert (Hl : login JSON_parse response = inr EmptyString).
  { unfold login. rewrite Hok, Hp. cbn [negb tokenOf]. now rewrite He, Ht. }
  unfold handleSubmit. rewrite Hl. cbn. auto.
Qed.

Lemma empty_token_opens_the_dashboard_unauthenticated_witness :
  snd (handleSubmit (fun _ => Some (JObject [("token", JString EmptyString)]))
         {| ok := true; resp_status := 200; text := "{...}" |} initialService LOGIN)
    = DASHBOARD /\
  searchRequest
    (fst (handleSubmit (fun _ => Some (JObject [("token", JString EmptyString)]))
            {| ok := true; resp_status := 200; text := "{...}" |} initialService LOGIN))
    sampleFilters = inl (Error "Not authenticated").
Proof.
  destruct (empty_token_opens_the_dashboard_unauthenticated
              (fun _ => Some (JObject [("token", JString EmptyString)]))
              {| ok := true; resp_status := 200; text := "{...}" |}
              [("token", JString EmptyString)] initialService LOGIN
              eq_refl eq_refl eq_refl eq_refl) as (_ & Hv & _ & Hs & _).
  split; [exact Hv | apply Hs].
Defined.
